(** * kb-create: the installation / update orchestration engine

    A shallow embedding of the Go packages [manifest], [config], [pm] and
    [installer] of kb-labs-create, and the properties of the engine that
    its specification states.

    Conventions of the embedding.
    - Go [string] is [string]; Go slices are [list]; a Go [map[string]bool]
      used as a set is a [gmap string bool].
    - Go's [range] over a map visits every key once, in an order the
      language leaves unspecified: the order is a parameter [range_keys].
    - [error] values are a small inductive type; [fmt.Errorf("stage: %w", e)]
      is [wrapError "stage: " e].
    - The disk is a flat map from paths to nodes; a path is known by its
      spelling, and the directories it leads through are read off that
      spelling.  A system call resolves a path through those directories
      before it looks at the path itself.  [os.WriteFile] follows its
      documentation: it truncates the file and then writes, so a write that
      runs out of space leaves a prefix of the data behind.
    - [encoding/json], [path/filepath] and the package-manager back ends are
      external: they are parameters, with the contracts the engine relies on
      stated as hypotheses where a property needs them. *)

From Stdlib Require Import ZArith Lia Ascii.
From stdpp Require Import base strings gmap sets list pretty countable.

Local Open Scope string_scope.
Local Open Scope list_scope.

(** ** Errors *)

(** [syscall.Errno]: the values the engine can meet. *)
Inductive Errno : Type :=
| ENOENT      (* no such file or directory *)
| ENOTDIR     (* not a directory *)
| EISDIR      (* is a directory *)
| EEXIST      (* file exists *)
| ENOSPC.     (* no space left on device *)

Inductive error : Type :=
| PathError (op path : string) (errno : Errno)  (* *fs.PathError *)
| errorString (msg : string)      (* errors.New, fmt.Errorf without %w *)
| wrapError (prefix : string) (err : error). (* fmt.Errorf(prefix + "%w", err) *)

Definition errnoText (e : Errno) : string :=
  match e with
  | ENOENT => "no such file or directory"
  | ENOTDIR => "not a directory"
  | EISDIR => "is a directory"
  | EEXIST => "file exists"
  | ENOSPC => "no space left on device"
  end.

(** [err.Error()] *)
Fixpoint errorText (e : error) : string :=
  match e with
  | PathError op path errno => op +:+ " " +:+ path +:+ ": " +:+ errnoText errno
  | errorString msg => msg
  | wrapError prefix err => prefix +:+ errorText err
  end.

(** [os.IsNotExist]: true of the underlying "does not exist" error only; it
    does not look through [fmt.Errorf] wrapping. *)
Definition os_IsNotExist (e : error) : bool :=
  match e with PathError _ _ ENOENT => true | _ => false end.

Inductive result (A : Type) : Type :=
| Ok (a : A)
| Err (e : error).
Arguments Ok {A} a.
Arguments Err {A} e.

#[global] Instance Errno_eq_dec : EqDecision Errno.
Proof. solve_decision. Defined.
#[global] Instance error_eq_dec : EqDecision error.
Proof. solve_decision. Defined.

(** ** Package manifest *)

Module manifest.

Record Package : Type := mkPackage { Name : string }.

Record Component : Type := mkComponent {
  ID : string;
  Pkg : string;
  Description : string;
  Default : bool
}.

Record Manifest : Type := mkManifest {
  Version : string;
  RegistryURL : string;
  Core : list Package;
  Services : list Component;
  Plugins : list Component
}.

#[global] Instance Package_eq_dec : EqDecision Package.
Proof. solve_decision. Defined.
#[global] Instance Component_eq_dec : EqDecision Component.
Proof. solve_decision. Defined.
#[global] Instance Manifest_eq_dec : EqDecision Manifest.
Proof. solve_decision. Defined.

(** [names := make([]string, len(m.Core)); for i, p := range m.Core
    { names[i] = p.Name }] *)
Definition CorePackageNames (m : Manifest) : list string :=
  foldl (fun names ip => <[ip.1 := Name ip.2]> names)
        (replicate (length (Core m)) "")
        (imap pair (Core m)).

(** The package references of a manifest, flattened as a set:
    core, services and plugins, keyed by package reference. *)
Definition pkgRefs (m : Manifest) : gset string :=
  list_to_set (Name <$> Core m)
  ∪ list_to_set (Pkg <$> Services m)
  ∪ list_to_set (Pkg <$> Plugins m).

End manifest.

(** ** The disk: the part of package [os] the engine uses *)

Module os.

Inductive node : Type :=
| File (data : string)
| Dir.

(** [files] maps a path to what is there.  [free] is the number of bytes
    a single whole-file write can put on the volume once the file has
    been truncated (the "disk full" failure of the error taxonomy): a
    fact about the volume and whoever else uses it, which no
    operation here changes. *)
Record FS : Type := mkFS {
  files : gmap string node;
  free : nat
}.

Definition set_files (fs : FS) (f : gmap string node) : FS :=
  mkFS f (free fs).

(** The bytes of the regular file at [path], if there is one. *)
Definition fileData (fs : FS) (path : string) : option string :=
  match files fs !! path with
  | Some (File data) => Some data
  | _ => None
  end.

(** [fs'] has everything [fs] has, as it is in [fs]. *)
Definition keeps (fs fs' : FS) : Prop :=
  forall q n, files fs !! q = Some n -> files fs' !! q = Some n.

(** The directories a path leads through, outermost first: its
    prefixes that end where a separator follows a name.  "/opt/kb/.kb"
    leads through "/opt" and "/opt/kb"; the root and the working
    directory are always there and are not listed.  [named] tells
    whether [pre], the part of the path already read, ends in a name. *)
Fixpoint cuts (pre : string) (named : bool) (rest : string) : list string :=
  match rest with
  | EmptyString => []
  | String c rest' =>
      if decide (c = "/"%char)
      then (if named then [pre] else [])
           ++ cuts (pre +:+ String c EmptyString) false rest'
      else cuts (pre +:+ String c EmptyString) true rest'
  end.

Definition parents (path : string) : list string := cuts "" false path.

(** Path resolution up to the last component: the first of [dirs] that
    is not a directory stops it, with [ENOTDIR] for a regular file and
    [ENOENT] for nothing. *)
Fixpoint resolve (fs : FS) (dirs : list string) : option Errno :=
  match dirs with
  | [] => None
  | d :: dirs' =>
      match files fs !! d with
      | Some Dir => resolve fs dirs'
      | Some (File _) => Some ENOTDIR
      | None => Some ENOENT
      end
  end.

(** What a system call finds at [path], reached through [dirs]. *)
Definition walk (fs : FS) (dirs : list string) (path : string)
  : Errno + node :=
  match resolve fs dirs with
  | Some errno => inl errno
  | None =>
      match files fs !! path with
      | Some n => inr n
      | None => inl ENOENT
      end
  end.

Definition statAt (fs : FS) (dirs : list string) (path : string)
  : result node :=
  match walk fs dirs path with
  | inl errno => Err (PathError "stat" path errno)
  | inr n => Ok n
  end.

(** [os.Stat]; [os.Lstat] is the same, there being no symbolic links. *)
Definition Stat (fs : FS) (path : string) : result node :=
  statAt fs (parents path) path.

(** [os.ReadFile]: opening a directory succeeds, reading it fails. *)
Definition ReadFile (fs : FS) (path : string) : result string :=
  match walk fs (parents path) path with
  | inl errno => Err (PathError "open" path errno)
  | inr Dir => Err (PathError "read" path EISDIR)
  | inr (File data) => Ok data
  end.

(** [os.Mkdir] *)
Definition mkdirAt (fs : FS) (dirs : list string) (path : string)
  : FS * option error :=
  match resolve fs dirs with
  | Some errno => (fs, Some (PathError "mkdir" path errno))
  | None =>
      match files fs !! path with
      | Some _ => (fs, Some (PathError "mkdir" path EEXIST))
      | None => (set_files fs (<[path := Dir]> (files fs)), None)
      end
  end.

(** [os.MkdirAll], by the recursion of the library: "Fast path: if we
    can tell whether path is a directory or file, stop with success or
    error.  Slow path: make sure parent exists and then call Mkdir for
    path."  [ups] lists the directories [path] leads through, innermost
    first. *)
Fixpoint mkdirAll (ups : list string) (fs : FS) (path : string)
  : FS * option error :=
  match statAt fs (reverse ups) path with
  | Ok Dir => (fs, None)
  | Ok (File _) => (fs, Some (PathError "mkdir" path ENOTDIR))
  | Err _ =>
      let '(fs1, err) :=
        match ups with
        | [] => (fs, None)
        | parent :: ups' => mkdirAll ups' fs parent
        end in
      match err with
      | Some e => (fs1, Some e)
      | None =>
          match mkdirAt fs1 (reverse ups) path with
          | (fs2, Some e) =>
              match statAt fs2 (reverse ups) path with
              | Ok Dir => (fs2, None)
              | _ => (fs2, Some e)
              end
          | (fs2, None) => (fs2, None)
          end
      end
  end.

Definition MkdirAll (fs : FS) (path : string) : FS * option error :=
  mkdirAll (reverse (parents path)) fs path.

(** [os.WriteFile]: "creating it if necessary ... otherwise WriteFile
    truncates it before writing ... a failure mid-operation can leave the
    file in a partially written state". *)
Definition WriteFile (fs : FS) (path : string) (data : string)
  : FS * option error :=
  match resolve fs (parents path) with
  | Some errno => (fs, Some (PathError "open" path errno))
  | None =>
      match files fs !! path with
      | Some Dir => (fs, Some (PathError "open" path EISDIR))
      | _ =>
          if decide (String.length data <= free fs)%nat
          then (set_files fs (<[path := File data]> (files fs)), None)
          else (set_files fs
                  (<[path := File (String.substring 0 (free fs) data)]>
                     (files fs)),
                Some (PathError "write" path ENOSPC))
      end
  end.

End os.

(** ** Package [config]: the persisted snapshot *)

Module config.

Definition configVersion : Z := 1.
Definition configDir : string := ".kb".
Definition configFile : string := "kb.config.json".

(** [time.Time], as nanoseconds since the epoch. *)
Definition Time : Type := Z.

Record PlatformConfig : Type := mkPlatformConfig {
  InstalledAt : Time;
  Platform : string;
  CWD : string;
  PM : string;
  Manifest : manifest.Manifest;
  Version : Z
}.

#[global] Instance PlatformConfig_eq_dec : EqDecision PlatformConfig.
Proof. solve_decision. Defined.

(** [cfg.Manifest = m] *)
Definition set_Manifest (cfg : PlatformConfig) (m : manifest.Manifest)
  : PlatformConfig :=
  mkPlatformConfig (InstalledAt cfg) (Platform cfg) (CWD cfg) (PM cfg) m
    (Version cfg).

Section Config.

(** [filepath.Join], [filepath.Abs] (its error is dropped by the caller),
    [json.MarshalIndent(cfg, "", "  ")] and [json.Unmarshal(data, &cfg)]. *)
Variable filepath_Join : list string -> string.
Variable filepath_Abs : string -> string.
Variable json_MarshalIndent : PlatformConfig -> result string.
Variable json_Unmarshal : string -> result PlatformConfig.

Definition ConfigPath (platformDir : string) : string :=
  filepath_Join [platformDir; configDir; configFile].

Definition Write (fs : os.FS) (platformDir : string) (cfg : PlatformConfig)
  : os.FS * option error :=
  let dir := filepath_Join [platformDir; configDir] in
  match os.MkdirAll fs dir with
  | (fs1, Some err) => (fs1, Some (wrapError "create config dir: " err))
  | (fs1, None) =>
      match json_MarshalIndent cfg with
      | Err err => (fs1, Some (wrapError "marshal config: " err))
      | Ok data =>
          let path := filepath_Join [dir; configFile] in
          match os.WriteFile fs1 path data with
          | (fs2, Some err) => (fs2, Some (wrapError "write config: " err))
          | (fs2, None) => (fs2, None)
          end
      end
  end.

Definition Read (fs : os.FS) (platformDir : string)
  : result PlatformConfig :=
  let path := ConfigPath platformDir in
  match os.ReadFile fs path with
  | Err err =>
      if os_IsNotExist err
      then Err (errorString ("no config found at " +:+ path +:+
                             " — is the platform installed?"))
      else Err (wrapError "read config: " err)
  | Ok data =>
      match json_Unmarshal data with
      | Err err => Err (wrapError "parse config: " err)
      | Ok cfg => Ok cfg
      end
  end.

(** The two facts about the libraries that reading back what was
    written relies on: joining in two steps gives the path joined in
    one step, and a record survives serialization. *)
Definition joinsNested (platformDir : string) : Prop :=
  filepath_Join [filepath_Join [platformDir; configDir]; configFile]
  = filepath_Join [platformDir; configDir; configFile].

Definition roundTrips (cfg : PlatformConfig) : Prop :=
  forall data, json_MarshalIndent cfg = Ok data ->
               json_Unmarshal data = Ok cfg.

(** [now] is the reading of [time.Now().UTC()] taken inside the call. *)
Definition NewConfig (now : Time) (platformDir cwd pmName : string)
  (m : manifest.Manifest) : PlatformConfig :=
  let abs := filepath_Abs platformDir in
  let absCWD := filepath_Abs cwd in
  {| Version := configVersion;
     Platform := abs;
     CWD := absCWD;
     PM := pmName;
     InstalledAt := now;
     Manifest := m |}.

End Config.

End config.

(** ** Package [pm]: the package-manager capability *)

Module pm.

Record Progress : Type := mkProgress {
  Error : option error;
  Package : string;
  Line : string;
  Done : bool
}.

Record InstalledPackage : Type := mkInstalledPackage {
  ip_Name : string;
  ip_Version : string
}.

(** What one [Install] or [Update] call does, seen from the engine: the
    values it sent on the progress channel (in channel order), the error
    it returned ([None] is Go's [nil]), the back end's own state
    afterwards ([node_modules], the external tool) and the time it took. *)
Record Outcome (St : Type) : Type := mkOutcome {
  sent : list Progress;
  err : option error;
  next : St;
  elapsed : Z
}.
Arguments mkOutcome {St} _ _ _ _.
Arguments sent {St} _.
Arguments err {St} _.
Arguments next {St} _.
Arguments elapsed {St} _.

(** The [PackageManager] interface, over the back end's state [St]. *)
Record PackageManager (St : Type) : Type := mkPackageManager {
  Name : string;
  Install : string -> list string -> St -> Outcome St;
  Update : string -> list string -> St -> Outcome St;
  ListInstalled : string -> St -> result (list InstalledPackage)
}.
Arguments mkPackageManager {St} _ _ _ _.
Arguments Name {St} _.
Arguments Install {St} _ _ _ _.
Arguments Update {St} _ _ _ _.
Arguments ListInstalled {St} _ _ _.

(** The [Name] methods of [NpmManager] and [PnpmManager]. *)
Definition NpmManager_Name : string := "npm".
Definition PnpmManager_Name : string := "pnpm".

Section Run.

(** [strings.TrimSpace] *)
Variable strings_TrimSpace : string -> string.

(** One [pipe] goroutine of [NpmManager.run] and [PnpmManager.run]:
    the values it sends, for the lines its scanner yields. *)
Definition pipe (lines : list string) : list Progress :=
  (fun line => mkProgress None "" line false)
    <$> filter (fun line => strings_TrimSpace line <> "") lines.

(** The two senders of [run], one per output stream. *)
Definition run_senders (stdout stderr : list string)
  : list (list Progress) :=
  [pipe stdout; pipe stderr].

End Run.

End pm.

(** ** Package [installer]: the orchestration engine *)

Module installer.

Record Selection : Type := mkSelection {
  PlatformDir : string;
  ProjectCWD : string;
  Services : list string; (* component IDs *)
  Plugins : list string   (* component IDs *)
}.

Record Result : Type := mkResult {
  res_PlatformDir : string;
  res_ProjectCWD : string;
  res_ConfigPath : string;
  res_Duration : Z
}.

Record UpdateDiff : Type := mkUpdateDiff {
  Updated : list string;
  Added : list string;
  Removed : list string
}.

Definition HasChanges (d : UpdateDiff) : bool :=
  (0 <? length (Updated d) + length (Added d) + length (Removed d))%nat.

Record UpdateResult : Type := mkUpdateResult {
  upd_Diff : UpdateDiff;
  upd_Duration : Z
}.

(** [OnStep] and [OnLine] are optional callbacks: [true] when set. *)
Record Installer (St : Type) : Type := mkInstaller {
  PM : pm.PackageManager St;
  OnStep : bool;
  OnLine : bool
}.
Arguments mkInstaller {St} _ _ _.
Arguments PM {St} _.
Arguments OnStep {St} _.
Arguments OnLine {St} _.

(** The calls the engine makes to its collaborators, in order. *)
Inductive Event : Type :=
| LogPrintf (line : string)
| CallOnStep (n total : Z) (label : string)
| CallOnLine (line : string)
| PMInstall (dir : string) (pkgs : list string)
| PMUpdate (dir : string) (pkgs : list string)
| ConfigRead (platformDir : string)
| ConfigWrite (platformDir : string) (cfg : config.PlatformConfig)
| OsMkdirAll (path : string).

(** The capability invocations among a list of events. *)
Definition isPMCall (e : Event) : bool :=
  match e with PMInstall _ _ | PMUpdate _ _ => true | _ => false end.

Definition pmCalls (evs : list Event) : list Event := filter isPMCall evs.

(** The attempts to write the disk among a list of events. *)
Definition isDiskWrite (e : Event) : bool :=
  match e with ConfigWrite _ _ | OsMkdirAll _ => true | _ => false end.

Definition diskWrites (evs : list Event) : list Event :=
  filter isDiskWrite evs.

(** The world an engine call runs in.  [disk] holds the files the
    engine itself reads and writes; what the package manager keeps on
    disk ([package.json], [node_modules]) belongs to the capability's
    own state [pmst].  [trace] lists the events so far. *)
Record World (St : Type) : Type := mkWorld {
  disk : os.FS;
  clock : Z;
  pmst : St;
  trace : list Event
}.
Arguments mkWorld {St} _ _ _ _.
Arguments disk {St} _.
Arguments clock {St} _.
Arguments pmst {St} _.
Arguments trace {St} _.

(** [strings.Join] *)
Fixpoint strings_Join (elems : list string) (sep : string) : string :=
  match elems with
  | [] => ""
  | [e] => e
  | e :: rest => e +:+ sep +:+ strings_Join rest sep
  end.

Definition selectedPkgs (components : list manifest.Component)
  (ids : list string) : list string :=
  let set := foldl (fun set id => <[id := true]> set)
                   (∅ : gmap string bool) ids in
  foldl (fun out c =>
           if default false (set !! manifest.ID c)
           then out ++ [manifest.Pkg c] else out)
        [] components.

Definition pkgSet (m : manifest.Manifest) : gmap string bool :=
  let s := foldl (fun s p => <[manifest.Name p := true]> s)
                 (∅ : gmap string bool) (manifest.Core m) in
  foldl (fun s c => <[manifest.Pkg c := true]> s) s
        (manifest.Services m ++ manifest.Plugins m).

(** The two loops of [Diff], given the persisted and the candidate
    manifest and the order in which [range] visits a map's keys. *)
Definition diffOf (range_keys : gmap string bool -> list string)
  (stored current : manifest.Manifest) : UpdateDiff :=
  let installed := pkgSet stored in
  let currentSet := pkgSet current in
  let diff := mkUpdateDiff [] [] [] in
  let diff :=
    foldl (fun diff pkg =>
             match installed !! pkg with
             | None => mkUpdateDiff (Updated diff) (Added diff ++ [pkg])
                         (Removed diff)
             | Some _ => mkUpdateDiff (Updated diff ++ [pkg]) (Added diff)
                           (Removed diff)
             end)
          diff (range_keys currentSet) in
  foldl (fun diff pkg =>
           match currentSet !! pkg with
           | None => mkUpdateDiff (Updated diff) (Added diff)
                       (Removed diff ++ [pkg])
           | Some _ => diff
           end)
        diff (range_keys installed).

Section Engine.

Context {St : Type}.
Variable filepath_Join : list string -> string.
Variable filepath_Abs : string -> string.
Variable json_MarshalIndent : config.PlatformConfig -> result string.
Variable json_Unmarshal : string -> result config.PlatformConfig.
Variable range_keys : gmap string bool -> list string.

Definition emit (e : Event) (w : World St) : World St :=
  mkWorld (disk w) (clock w) (pmst w) (trace w ++ [e]).

Definition time_Now (w : World St) : Z := clock w.

(** [ins.Log.Printf] *)
Definition Log_Printf (line : string) (w : World St) : World St :=
  emit (LogPrintf line) w.

Definition step (ins : Installer St) (n total : Z) (label : string)
  (w : World St) : World St :=
  let w := Log_Printf ("[" +:+ pretty n +:+ "/" +:+ pretty total +:+ "] "
                        +:+ label) w in
  if OnStep ins then emit (CallOnStep n total label) w else w.

(** The events of one [step]. *)
Definition stepEvents (ins : Installer St) (n total : Z) (label : string)
  : list Event :=
  LogPrintf ("[" +:+ pretty n +:+ "/" +:+ pretty total +:+ "] " +:+ label)
  :: (if OnStep ins then [CallOnStep n total label] else []).

(** The method values [ins.PM.Install] and [ins.PM.Update]. *)
Definition PM_Install (ins : Installer St) (dir : string)
  (pkgs : list string) (w : World St)
  : World St * list pm.Progress * option error :=
  let o := pm.Install (PM ins) dir pkgs (pmst w) in
  (mkWorld (disk w) (clock w + pm.elapsed o) (pm.next o)
     (trace w ++ [PMInstall dir pkgs]),
   pm.sent o, pm.err o).

Definition PM_Update (ins : Installer St) (dir : string)
  (pkgs : list string) (w : World St)
  : World St * list pm.Progress * option error :=
  let o := pm.Update (PM ins) dir pkgs (pmst w) in
  (mkWorld (disk w) (clock w + pm.elapsed o) (pm.next o)
     (trace w ++ [PMUpdate dir pkgs]),
   pm.sent o, pm.err o).

(** The body of the drain goroutine, for one received value. *)
Definition drain1 (ins : Installer St) (w : World St) (p : pm.Progress)
  : World St :=
  if decide (pm.Line p = "") then w
  else
    let w := Log_Printf ("  " +:+ pm.Line p) w in
    if OnLine ins then emit (CallOnLine (pm.Line p)) w else w.

(** The events of the drain goroutine for the values it received. *)
Definition drainEvents (ins : Installer St) (sent : list pm.Progress)
  : list Event :=
  p ← sent;
  if decide (pm.Line p = "") then []
  else LogPrintf ("  " +:+ pm.Line p)
       :: (if OnLine ins then [CallOnLine (pm.Line p)] else []).

(** [runGroup], with the drain goroutine run to completion on what the
    operation sent (module [progress] below has the interleavings). *)
Definition runGroup (ins : Installer St) (dir : string)
  (pkgs : list string)
  (op : string -> list string -> World St ->
        World St * list pm.Progress * option error)
  (w : World St) : World St * option error :=
  let '(w, sent, err) := op dir pkgs w in
  let w := foldl (drain1 ins) w sent in
  (w, err).

Definition installGroup (ins : Installer St) (dir : string)
  (pkgs : list string) (w : World St) : World St * option error :=
  runGroup ins dir pkgs (PM_Install ins) w.

Definition updateGroup (ins : Installer St) (dir : string)
  (pkgs : list string) (w : World St) : World St * option error :=
  runGroup ins dir pkgs (PM_Update ins) w.

(** The calls into [config] and [os], acting on the disk of the world. *)
Definition config_Read (platformDir : string) (w : World St)
  : World St * result config.PlatformConfig :=
  (emit (ConfigRead platformDir) w,
   config.Read filepath_Join json_Unmarshal (disk w) platformDir).

Definition config_Write (platformDir : string)
  (cfg : config.PlatformConfig) (w : World St)
  : World St * option error :=
  let '(fs, err) :=
    config.Write filepath_Join json_MarshalIndent (disk w) platformDir cfg in
  (mkWorld fs (clock w) (pmst w)
     (trace w ++ [ConfigWrite platformDir cfg]), err).

Definition os_MkdirAll (path : string) (w : World St)
  : World St * option error :=
  let '(fs, err) := os.MkdirAll (disk w) path in
  (mkWorld fs (clock w) (pmst w) (trace w ++ [OsMkdirAll path]), err).

(** The package list [Install] collects. *)
Definition installPkgs (sel : Selection) (m : manifest.Manifest)
  : list string :=
  let allPkgs := manifest.CorePackageNames m in
  let allPkgs := allPkgs ++ selectedPkgs (manifest.Services m) (Services sel) in
  let allPkgs := allPkgs ++ selectedPkgs (manifest.Plugins m) (Plugins sel) in
  allPkgs.

Definition Install (ins : Installer St) (sel : Selection)
  (m : manifest.Manifest) (w : World St) : World St * result Result :=
  let start := time_Now w in
  let allPkgs := installPkgs sel m in
  let w := step ins 1 2 ("Installing " +:+ pretty (length allPkgs) +:+
                         " packages via " +:+ pm.Name (PM ins)) w in
  match installGroup ins (PlatformDir sel) allPkgs w with
  | (w, Some err) => (w, Err (wrapError "install: " err))
  | (w, None) =>
      let w := step ins 2 2 "Writing config" w in
      let cfg := config.NewConfig filepath_Abs (time_Now w)
                   (PlatformDir sel) (ProjectCWD sel) (pm.Name (PM ins)) m in
      match config_Write (PlatformDir sel) cfg w with
      | (w, Some err) => (w, Err (wrapError "config: " err))
      | (w, None) =>
          match os_MkdirAll (ProjectCWD sel +:+ "/.kb") w with
          | (w, Some err) => (w, Err (wrapError "project dir: " err))
          | (w, None) =>
              (w, Ok {| res_PlatformDir := PlatformDir sel;
                        res_ProjectCWD := ProjectCWD sel;
                        res_ConfigPath :=
                          config.ConfigPath filepath_Join (PlatformDir sel);
                        res_Duration := time_Now w - start |})
          end
      end
  end.

Definition Diff (platformDir : string) (current : manifest.Manifest)
  (w : World St) : World St * result UpdateDiff :=
  match config_Read platformDir w with
  | (w, Err err) => (w, Err err)
  | (w, Ok cfg) =>
      (w, Ok (diffOf range_keys (config.Manifest cfg) current))
  end.

(** The package list [Update] passes to the capability's update. *)
Definition updatePkgs (current : manifest.Manifest) : list string :=
  foldl (fun allPkgs c => allPkgs ++ [manifest.Pkg c])
        (manifest.CorePackageNames current)
        (manifest.Services current ++ manifest.Plugins current).

Definition Update (ins : Installer St) (platformDir : string)
  (current : manifest.Manifest) (w : World St)
  : World St * result UpdateResult :=
  let start := time_Now w in
  match Diff platformDir current w with
  | (w, Err err) => (w, Err err)
  | (w, Ok diff) =>
      let '(w, added) :=
        if (0 <? length (Added diff))%nat then
          let w := Log_Printf ("Installing new packages: " +:+
                               strings_Join (Added diff) " ") w in
          installGroup ins platformDir (Added diff) w
        else (w, None) in
      match added with
      | Some err => (w, Err (wrapError "add new packages: " err))
      | None =>
          let allPkgs := updatePkgs current in
          match updateGroup ins platformDir allPkgs w with
          | (w, Some err) => (w, Err (wrapError "update packages: " err))
          | (w, None) =>
              match config_Read platformDir w with
              | (w, Err err) => (w, Err err)
              | (w, Ok cfg) =>
                  let cfg := config.set_Manifest cfg current in
                  match config_Write platformDir cfg w with
                  | (w, Some err) => (w, Err err)
                  | (w, None) =>
                      (w, Ok {| upd_Diff := diff;
                                upd_Duration := time_Now w - start |})
                  end
              end
          end
      end
  end.

(** *** The stages of [Install] and [Update], named

    These restate parts of the two functions above; the section on
    the engine's properties proves that they agree with them. *)

(** The label of the first stage of [Install]. *)
Definition installLabel (ins : Installer St) (sel : Selection)
  (m : manifest.Manifest) : string :=
  "Installing " +:+ pretty (length (installPkgs sel m)) +:+
  " packages via " +:+ pm.Name (PM ins).

(** The last stage of [Update]: reload the snapshot [cfg], replace its
    manifest, write it back.  [w1] is the world the capability calls
    left, [start] the time [Update] began. *)
Definition refresh (platformDir : string) (current : manifest.Manifest)
  (cfg : config.PlatformConfig) (d : UpdateDiff) (start : Z)
  (w1 : World St) : World St * result UpdateResult :=
  let cfg' := config.set_Manifest cfg current in
  let evs := trace w1 ++ [ConfigRead platformDir;
                          ConfigWrite platformDir cfg'] in
  match config.Write filepath_Join json_MarshalIndent (disk w1)
          platformDir cfg' with
  | (fs, Some e) => (mkWorld fs (clock w1) (pmst w1) evs, Err e)
  | (fs, None) =>
      (mkWorld fs (clock w1) (pmst w1) evs,
       Ok {| upd_Diff := d; upd_Duration := clock w1 - start |})
  end.

(** The update stage of [Update] and what follows it, from the world
    [w0] in which the capability's update is called. *)
Definition updateStage (ins : Installer St) (platformDir : string)
  (current : manifest.Manifest) (cfg : config.PlatformConfig)
  (d : UpdateDiff) (start : Z) (w0 : World St)
  : World St * result UpdateResult :=
  let pkgs := updatePkgs current in
  let o := pm.Update (PM ins) platformDir pkgs (pmst w0) in
  let w1 := mkWorld (disk w0) (clock w0 + pm.elapsed o) (pm.next o)
              (trace w0 ++ PMUpdate platformDir pkgs
                           :: drainEvents ins (pm.sent o)) in
  match pm.err o with
  | Some e => (w1, Err (wrapError "update packages: " e))
  | None => refresh platformDir current cfg d start w1
  end.

End Engine.

End installer.

(** ** Progress streaming: [runGroup] with its goroutines

    [runGroup] makes a channel of capacity 64, starts the drain goroutine,
    calls the operation, closes the channel and waits for [done].  The
    operation is a set of sending goroutines ([NpmManager.run] starts one per
    output stream), each with the values it has still to send; it returns
    when all of them have finished. *)

Module progress.

Definition capacity : nat := 64.

(** Where the calling goroutine is. *)
Inductive MainPC : Type :=
| InOp        (* err := op(dir, pkgs, ch) *)
| AfterOp     (* about to close(ch) *)
| Waiting     (* <-done *)
| Returned.   (* return err *)

#[global] Instance MainPC_eq_dec : EqDecision MainPC.
Proof. solve_decision. Defined.

Record State (St : Type) : Type := mkState {
  senders : list (list pm.Progress); (* what each sender has yet to send *)
  main : MainPC;
  buf : list pm.Progress;            (* the channel's buffer, oldest first *)
  drained : bool;                    (* the drain goroutine closed [done] *)
  world : installer.World St
}.
Arguments mkState {St} _ _ _ _ _.
Arguments senders {St} _.
Arguments main {St} _.
Arguments buf {St} _.
Arguments drained {St} _.
Arguments world {St} _.

(** [l] is the scripts [ss] merged: every script's values in their
    order, the scripts interleaved in any way. *)
Inductive interleaving {A : Type} : list (list A) -> list A -> Prop :=
| interleaving_done ss :
    Forall (fun s => s = []) ss -> interleaving ss []
| interleaving_next ss i p ps l :
    ss !! i = Some (p :: ps) ->
    interleaving (<[i := ps]> ss) l ->
    interleaving ss (p :: l).

Section Run.

Context {St : Type}.
Variable ins : installer.Installer St.

Definition init (scripts : list (list pm.Progress))
  (w : installer.World St) : State St :=
  mkState scripts InOp [] false w.

Inductive step : State St -> State St -> Prop :=
| step_send i p ps ss b w :
    ss !! i = Some (p :: ps) ->
    length b < capacity ->
    step (mkState ss InOp b false w)
         (mkState (<[i := ps]> ss) InOp (b ++ [p]) false w)
| step_op_return ss b d w :
    Forall (fun s => s = []) ss ->
    step (mkState ss InOp b d w) (mkState ss AfterOp b d w)
| step_close ss b d w :
    step (mkState ss AfterOp b d w) (mkState ss Waiting b d w)
| step_recv ss m p b w :
    step (mkState ss m (p :: b) false w)
         (mkState ss m b false (installer.drain1 ins w p))
| step_drain_exit ss w :
    step (mkState ss Waiting [] false w) (mkState ss Waiting [] true w)
| step_return ss b w :
    step (mkState ss Waiting b true w) (mkState ss Returned b true w).

Definition steps : State St -> State St -> Prop := rtc step.

(** What holds of every state of a run that started from [scripts]
    and [w0]: the drain goroutine has handled some values [recvd],
    which with the buffer and what is still to send make up a merge
    of the scripts; the buffer is within capacity; the operation has
    returned only after all senders finished; the drain goroutine has
    exited only after the channel was closed and emptied; [runGroup]
    has returned only after that. *)
Definition Inv (scripts : list (list pm.Progress))
  (w0 : installer.World St) (s : State St) : Prop :=
  (exists recvd,
      world s = foldl (installer.drain1 ins) w0 recvd
      /\ forall rest, interleaving (senders s) rest ->
                      interleaving scripts (recvd ++ buf s ++ rest))
  /\ length (buf s) <= capacity
  /\ (main s <> InOp -> Forall (fun l => l = []) (senders s))
  /\ (drained s = true ->
      buf s = [] /\ (main s = Waiting \/ main s = Returned))
  /\ (main s = Returned -> drained s = true).

(** A bound on the number of steps left. *)
Definition rank (m : MainPC) : nat :=
  match m with InOp => 3 | AfterOp => 2 | Waiting => 1 | Returned => 0 end.

Definition measure (s : State St) : nat :=
  2 * length (concat (senders s)) + length (buf s) + rank (main s)
  + (if drained s then 0 else 1).

End Run.

(** The lines a list of events wrote to the log. *)
Definition logLines (evs : list installer.Event) : list string :=
  omap (fun e => match e with installer.LogPrintf l => Some l | _ => None end)
       evs.

(** The lines a list of events passed to [OnLine]. *)
Definition onLineLines (evs : list installer.Event) : list string :=
  omap (fun e => match e with installer.CallOnLine l => Some l | _ => None end)
       evs.

(** The non-empty lines among the values sent. *)
Definition nonEmptyLines (sent : list pm.Progress) : list string :=
  filter (fun l => l <> "") (pm.Line <$> sent).

End progress.

(** ** The test double [fakePM] of the engine's test suite *)

Module fakePM.

Record fakePM : Type := mkFakePM {
  failErr : option error;
  name : string;
  failOn : string;
  calls : list string
}.

Definition record (f : fakePM) (call : string) : fakePM :=
  mkFakePM (failErr f) (name f) (failOn f) (calls f ++ [call]).

Fixpoint Install_loop (f : fakePM) (pkgs : list string)
  : fakePM * option error :=
  match pkgs with
  | [] => (f, None)
  | p :: rest =>
      let f := record f ("install:" +:+ p) in
      if decide (failOn f = p) then (f, failErr f)
      else Install_loop f rest
  end.

Definition Install (dir : string) (pkgs : list string) (f : fakePM)
  : pm.Outcome fakePM :=
  let '(f, err) := Install_loop f pkgs in
  pm.mkOutcome [] err f 0.

Definition Update (dir : string) (pkgs : list string) (f : fakePM)
  : pm.Outcome fakePM :=
  pm.mkOutcome [] None
    (foldl (fun f p => record f ("update:" +:+ p)) f pkgs) 0.

Definition ListInstalled (dir : string) (f : fakePM)
  : result (list pm.InstalledPackage) := Ok [].

(** [&fakePM{name: n, ...}] as a [pm.PackageManager]. *)
Definition asPM (n : string) : pm.PackageManager fakePM :=
  pm.mkPackageManager n Install Update ListInstalled.

End fakePM.

(** ** Stand-ins for [path/filepath] and [encoding/json] in the examples

    [Join] puts a separator between its elements; the codec writes the
    binary digits of a record's code, closed by a full stop, so that it is
    injective and no proper prefix of a document is a document. *)

Module refimpl.

Definition Join (elems : list string) : string :=
  installer.strings_Join elems "/".

Definition Abs (path : string) : string := path.

(** Go's randomised order, here the order of the map's key list. *)
Definition range_keys (m : gmap string bool) : list string :=
  (map_to_list m).*1.

#[global] Instance Package_countable : Countable manifest.Package.
Proof.
  apply (inj_countable' manifest.Name manifest.mkPackage). by intros [].
Defined.

#[global] Instance Component_countable : Countable manifest.Component.
Proof.
  apply (inj_countable'
           (fun c => (manifest.ID c, manifest.Pkg c, manifest.Description c,
                      manifest.Default c))
           (fun t => match t with
                     | (a, b, c, d) => manifest.mkComponent a b c d
                     end)).
  by intros [].
Defined.

#[global] Instance Manifest_countable : Countable manifest.Manifest.
Proof.
  apply (inj_countable'
           (fun m => (manifest.Version m, manifest.RegistryURL m,
                      manifest.Core m, manifest.Services m,
                      manifest.Plugins m))
           (fun t => match t with
                     | (a, b, c, d, e) => manifest.mkManifest a b c d e
                     end)).
  by intros [].
Defined.

#[global] Instance PlatformConfig_countable
  : Countable config.PlatformConfig.
Proof.
  apply (inj_countable'
           (fun c => (config.InstalledAt c, config.Platform c, config.CWD c,
                      config.PM c, config.Manifest c, config.Version c))
           (fun t => match t with
                     | (a, b, c, d, e, f) =>
                         config.mkPlatformConfig a b c d e f
                     end)).
  by intros [].
Defined.

Fixpoint writePos (p : positive) : string :=
  match p with
  | xH => "."
  | xO q => String "0"%char (writePos q)
  | xI q => String "1"%char (writePos q)
  end.

Fixpoint readPos (s : string) : option positive :=
  match s with
  | EmptyString => None
  | String c rest =>
      if decide (c = "."%char) then
        match rest with EmptyString => Some xH | _ => None end
      else if decide (c = "0"%char) then xO <$> readPos rest
      else if decide (c = "1"%char) then xI <$> readPos rest
      else None
  end.

Definition MarshalIndent (cfg : config.PlatformConfig) : result string :=
  Ok (writePos (encode cfg)).

Definition Unmarshal (data : string) : result config.PlatformConfig :=
  match readPos data ≫= decode with
  | Some cfg => Ok cfg
  | None => Err (errorString "unexpected end of JSON input")
  end.

End refimpl.

(** ** Sample data

    The manifests of the specification's scenario (a snapshot holding A
    and B, a candidate manifest holding A and C), a selection, test-double
    package managers and the worlds they lead to. *)

Module sample.

Definition m_AB : manifest.Manifest :=
  manifest.mkManifest "1.0.0" "" [manifest.mkPackage "A"]
    [manifest.mkComponent "s1" "B" "service" true] [].

Definition m_AC : manifest.Manifest :=
  manifest.mkManifest "1.1.0" "" [manifest.mkPackage "A"] []
    [manifest.mkComponent "p1" "C" "plugin" false].

(** A manifest whose service has the package reference of a core
    package. *)
Definition m_dup : manifest.Manifest :=
  manifest.mkManifest "1.0.0" "" [manifest.mkPackage "A"]
    [manifest.mkComponent "s1" "A" "service" true] [].

Definition sel : installer.Selection :=
  installer.mkSelection "/opt/kb" "/home/u/app" ["s1"] [].

Definition exit1 : error := errorString "exit status 1".

(** [&fakePM{name: "npm"}] and one that fails on package [p]. *)
Definition npm : fakePM.fakePM := fakePM.mkFakePM None "npm" "" [].
Definition npmFailingOn (p : string) : fakePM.fakePM :=
  fakePM.mkFakePM (Some exit1) "npm" p [].

Definition ins : installer.Installer fakePM.fakePM :=
  installer.mkInstaller (fakePM.asPM "npm") true true.

(** A capability whose install succeeds and whose update fails. *)
Definition noUpdate : pm.PackageManager unit :=
  pm.mkPackageManager "pnpm"
    (fun _ _ st => pm.mkOutcome [] None st 5%Z)
    (fun _ _ st =>
       pm.mkOutcome [pm.mkProgress None "" "ERR_PNPM" false] (Some exit1) st 7%Z)
    (fun _ _ => Ok []).

Definition insNoUpdate : installer.Installer unit :=
  installer.mkInstaller noUpdate false false.

Definition Install {St : Type} :=
  installer.Install (St:=St) refimpl.Join refimpl.Abs refimpl.MarshalIndent.
Definition Diff {St : Type} :=
  installer.Diff (St:=St) refimpl.Join refimpl.Unmarshal refimpl.range_keys.
Definition Update {St : Type} :=
  installer.Update (St:=St) refimpl.Join refimpl.MarshalIndent
    refimpl.Unmarshal refimpl.range_keys.
Definition Read := config.Read refimpl.Join refimpl.Unmarshal.
Definition Write := config.Write refimpl.Join refimpl.MarshalIndent.

(** An empty disk with room; the world after installing [m_AB] on it. *)
Definition w0 : installer.World fakePM.fakePM :=
  installer.mkWorld (os.mkFS ∅ (2 ^ 16)) 1000%Z npm [].
Definition w1 : installer.World fakePM.fakePM := (Install ins sel m_AB w0).1.

(** The installed world, with another capability state. *)
Definition withPM {St St' : Type} (w : installer.World St) (st : St')
  : installer.World St' :=
  installer.mkWorld (installer.disk w) (installer.clock w) st
    (installer.trace w).

(** The snapshot [Install] stored in [w1]. *)
Definition cfg1 : config.PlatformConfig :=
  config.NewConfig refimpl.Abs 1000%Z "/opt/kb" "/home/u/app" "npm" m_AB.

(** The world after updating [w1] to [m_AC]. *)
Definition w2 : installer.World fakePM.fakePM :=
  (Update ins "/opt/kb" m_AC w1).1.

(** The disk of [w1] with room for three more bytes only. *)
Definition fullDisk : os.FS := os.mkFS (os.files (installer.disk w1)) 3.

(** A platform directory whose [.kb] is a regular file, and one where
    a directory has the name of the snapshot file. *)
Definition kbIsFile : os.FS :=
  os.mkFS (list_to_map [("/opt", os.Dir); ("/opt/kb", os.Dir);
                        ("/opt/kb/.kb", os.File "notes")]) (2 ^ 16).
Definition snapshotIsDir : os.FS :=
  os.mkFS (list_to_map [("/opt", os.Dir); ("/opt/kb", os.Dir);
                        ("/opt/kb/.kb", os.Dir);
                        ("/opt/kb/.kb/kb.config.json", os.Dir)]) (2 ^ 16).

(** Two senders, as the two output streams of the external tool. *)
Definition scripts : list (list pm.Progress) :=
  [[pm.mkProgress None "" "added 2 packages" false];
   [pm.mkProgress None "" "" false; pm.mkProgress None "" "npm warn" false]].

End sample.

(** * The packages around the engine

    What the engine's callers and collaborators do that the properties
    further down are about: the project file the package-manager back
    ends keep in the platform directory, the sources of the manifest, the
    latest log, the interactive wizard, and the spinner and the platform
    directory of the command line. *)

(** ** Package [pm], file npm.go: the project file of the platform directory

    [ensurePackageJSON] is the first thing [NpmManager.run] and
    [PnpmManager.run] do, before the external tool is started. *)

Module npm.

(** A JSON string literal: the text between two double quotes. *)
Definition quoted (s : string) : string :=
  String "034"%char (s +:+ String "034"%char "").

(** The raw string literal of [ensurePackageJSON], plus a newline. *)
Definition content : string :=
  "{" +:+ quoted "name" +:+ ":" +:+ quoted "kb-platform" +:+ ","
  +:+ quoted "version" +:+ ":" +:+ quoted "1.0.0" +:+ ","
  +:+ quoted "private" +:+ ":true}" +:+ String "010"%char "".

Section Npm.

Variable filepath_Join : list string -> string.

Definition ensurePackageJSON (fs : os.FS) (dir : string)
  : os.FS * option error :=
  match os.MkdirAll fs dir with
  | (fs1, Some err) => (fs1, Some err)
  | (fs1, None) =>
      let pkgPath := filepath_Join [dir; "package.json"] in
      match os.Stat fs1 pkgPath with
      | Ok _ => (fs1, None)
      | Err _ => os.WriteFile fs1 pkgPath content
      end
  end.

End Npm.

End npm.

(** ** Package [manifest], file loader.go: where the manifest comes from *)

Module loader.

Record LoadOptions : Type := mkLoadOptions {
  RemoteURL : string;
  LocalOverride : string;
  Timeout : Z   (* [time.Duration], in nanoseconds *)
}.

(** What [client.Get] hands back: the status code and what
    [io.ReadAll(resp.Body)] gives. *)
Record Response : Type := mkResponse {
  StatusCode : Z;
  Body : result string
}.

Definition http_StatusOK : Z := 200.
Definition time_Second : Z := 1000000000.

Section Load.

(** The embedded [manifest.json], [json.Unmarshal(data, &m)] and
    [(&http.Client{Timeout: timeout}).Get(url)]. *)
Variable embeddedManifest : string.
Variable json_Unmarshal : string -> result manifest.Manifest.
Variable client_Get : Z -> string -> result Response.

Definition loadBytes (data : string) : result manifest.Manifest :=
  match json_Unmarshal data with
  | Err err => Err (wrapError "parse manifest: " err)
  | Ok m => Ok m
  end.

Definition loadRemote (url : string) (timeout : Z)
  : result manifest.Manifest :=
  let timeout := if decide (timeout = 0%Z) then (5 * time_Second)%Z
                 else timeout in
  match client_Get timeout url with
  | Err err => Err (wrapError ("fetch " +:+ url +:+ ": ") err)
  | Ok resp =>
      if decide (StatusCode resp <> http_StatusOK)
      then Err (errorString ("fetch " +:+ url +:+ ": status " +:+
                             pretty (StatusCode resp)))
      else
        match Body resp with
        | Err err => Err err
        | Ok data => loadBytes data
        end
  end.

(** The part of [Load] after the remote source: the local override
    file, then the embedded manifest. *)
Definition loadLocal (fs : os.FS) (opts : LoadOptions)
  : result manifest.Manifest :=
  if decide (LocalOverride opts <> "") then
    match os.ReadFile fs (LocalOverride opts) with
    | Ok data => loadBytes data
    | Err readErr =>
        if negb (os_IsNotExist readErr)
        then Err (wrapError ("read override " +:+ LocalOverride opts +:+
                             ": ") readErr)
        else loadBytes embeddedManifest
    end
  else loadBytes embeddedManifest.

Definition Load (fs : os.FS) (opts : LoadOptions)
  : result manifest.Manifest :=
  if decide (RemoteURL opts <> "") then
    match loadRemote (RemoteURL opts) (Timeout opts) with
    | Ok m => Ok m
    | Err _ => loadLocal fs opts
    end
  else loadLocal fs opts.

Definition LoadDefault (fs : os.FS) : result manifest.Manifest :=
  Load fs (mkLoadOptions "" "" 0%Z).

End Load.

End loader.

(** ** Package [logger]: finding the latest log *)

Module logger.

(** [os.DirEntry], as far as [LatestLogPath] looks at it. *)
Record DirEntry : Type := mkDirEntry {
  Name : string;
  IsDir : bool
}.

Section Logger.

Variable filepath_Join : list string -> string.
Variable os_ReadDir : string -> result (list DirEntry).

Definition LatestLogPath (platformDir : string) : string :=
  let logsDir := filepath_Join [platformDir; ".kb"; "logs"] in
  match os_ReadDir logsDir with
  | Err _ => ""
  | Ok entries =>
      if decide (length entries = 0) then ""
      else
        foldl (fun latest e =>
                 if negb (IsDir e) then filepath_Join [logsDir; Name e]
                 else latest)
              "" entries
  end.

End Logger.

End logger.

(** ** Package [wizard]: the interactive selection

    The Bubble Tea runtime and the [textinput] widget are external.  A
    message is a key press, known by its [String()], or anything else; a
    command is known only as far as the program loop looks at it (is it
    [tea.Quit]?).  The text input is an abstract type with the operations
    the wizard uses.  A run-time panic (an index out of range) is [None]. *)

Module wizard.

Record WizardOptions : Type := mkWizardOptions {
  DefaultProjectCWD : string;
  DefaultPlatformDir : string;
  Yes : bool
}.

Inductive stage : Type := stageDirs | stageOptions | stageConfirm.

#[global] Instance stage_eq_dec : EqDecision stage.
Proof. solve_decision. Defined.

Record checkItem : Type := mkCheckItem {
  id : string;
  pkg : string;
  desc : string;
  checked : bool
}.

(** [tea.Msg] *)
Inductive Msg : Type :=
| KeyMsg (key : string)   (* a [tea.KeyMsg], by its [String()] *)
| OtherMsg (tag : nat)    (* window size, cursor blink, ... *)
| QuitMsg.                (* [tea.QuitMsg] *)

#[global] Instance Msg_eq_dec : EqDecision Msg.
Proof. solve_decision. Defined.

(** [tea.Cmd] *)
Inductive Cmd : Type :=
| cmdNil                  (* [nil] *)
| tea_Quit
| textinput_Blink
| cmdInput.               (* what [textinput.Model.Update] returned *)

(** [s[i]] for a Go [int] index: [None] outside [0 <= i < len(s)]. *)
Definition index {A : Type} (s : list A) (i : Z) : option A :=
  if (i <? 0)%Z then None else s !! Z.to_nat i.

Section Wizard.

(** [textinput.Model] with [textinput.New], the fields [Placeholder]
    and [Width], and the methods [SetValue], [Value], [Focus],
    [Blur] and [Update] (whose command is never [tea.Quit]). *)
Variable Input : Type.
Variable textinput_New : Input.
Variable set_Placeholder : string -> Input -> Input.
Variable set_Width : Z -> Input -> Input.
Variable SetValue : string -> Input -> Input.
Variable Value : Input -> string.
Variable Focus : Input -> Input.
Variable Blur : Input -> Input.
Variable Input_Update : Msg -> Input -> Input.

(** [os.UserHomeDir] and [os.Getwd] (their errors are dropped: on
    failure the string is empty), [filepath.Join],
    [strings.TrimSpace]. *)
Variable os_UserHomeDir : string.
Variable os_Getwd : string.
Variable filepath_Join : list string -> string.
Variable strings_TrimSpace : string -> string.

Record wizardModel : Type := mkWizardModel {
  manifest : manifest.Manifest;
  errMsg : string;
  services : list checkItem;
  plugins : list checkItem;
  platformInput : Input;
  cwdInput : Input;
  stage_ : stage;
  activeInput : Z;
  cursor : Z;
  cancelled : bool;
  confirmed : bool
}.

Definition set_errMsg (m : wizardModel) (v : string) : wizardModel :=
  mkWizardModel (manifest m) v (services m) (plugins m)
    (platformInput m) (cwdInput m) (stage_ m) (activeInput m) (cursor m)
    (cancelled m) (confirmed m).
Definition set_services (m : wizardModel) (v : list checkItem)
  : wizardModel :=
  mkWizardModel (manifest m) (errMsg m) v (plugins m)
    (platformInput m) (cwdInput m) (stage_ m) (activeInput m) (cursor m)
    (cancelled m) (confirmed m).
Definition set_plugins (m : wizardModel) (v : list checkItem)
  : wizardModel :=
  mkWizardModel (manifest m) (errMsg m) (services m) v
    (platformInput m) (cwdInput m) (stage_ m) (activeInput m) (cursor m)
    (cancelled m) (confirmed m).
Definition set_platformInput (m : wizardModel) (v : Input)
  : wizardModel :=
  mkWizardModel (manifest m) (errMsg m) (services m) (plugins m)
    v (cwdInput m) (stage_ m) (activeInput m) (cursor m)
    (cancelled m) (confirmed m).
Definition set_cwdInput (m : wizardModel) (v : Input) : wizardModel :=
  mkWizardModel (manifest m) (errMsg m) (services m) (plugins m)
    (platformInput m) v (stage_ m) (activeInput m) (cursor m)
    (cancelled m) (confirmed m).
Definition set_stage (m : wizardModel) (v : stage) : wizardModel :=
  mkWizardModel (manifest m) (errMsg m) (services m) (plugins m)
    (platformInput m) (cwdInput m) v (activeInput m) (cursor m)
    (cancelled m) (confirmed m).
Definition set_activeInput (m : wizardModel) (v : Z) : wizardModel :=
  mkWizardModel (manifest m) (errMsg m) (services m) (plugins m)
    (platformInput m) (cwdInput m) (stage_ m) v (cursor m)
    (cancelled m) (confirmed m).
Definition set_cursor (m : wizardModel) (v : Z) : wizardModel :=
  mkWizardModel (manifest m) (errMsg m) (services m) (plugins m)
    (platformInput m) (cwdInput m) (stage_ m) (activeInput m) v
    (cancelled m) (confirmed m).
Definition set_cancelled (m : wizardModel) (v : bool) : wizardModel :=
  mkWizardModel (manifest m) (errMsg m) (services m) (plugins m)
    (platformInput m) (cwdInput m) (stage_ m) (activeInput m) (cursor m)
    v (confirmed m).
Definition set_confirmed (m : wizardModel) (v : bool) : wizardModel :=
  mkWizardModel (manifest m) (errMsg m) (services m) (plugins m)
    (platformInput m) (cwdInput m) (stage_ m) (activeInput m) (cursor m)
    (cancelled m) v.

(** [services := make([]checkItem, len(m.Services)); for i, s := range
    m.Services { services[i] = checkItem{...} }] *)
Definition checkItems (components : list manifest.Component)
  : list checkItem :=
  foldl (fun items ic =>
           <[ic.1 := mkCheckItem (manifest.ID ic.2) (manifest.Pkg ic.2)
                       (manifest.Description ic.2) (manifest.Default ic.2)]>
             items)
        (replicate (length components) (mkCheckItem "" "" "" false))
        (imap pair components).

Definition newModel (m : manifest.Manifest) (opts : WizardOptions)
  : wizardModel :=
  let platformDir :=
    if decide (DefaultPlatformDir opts = "")
    then filepath_Join [os_UserHomeDir; "kb-platform"]
    else DefaultPlatformDir opts in
  let cwd :=
    if decide (DefaultProjectCWD opts = "") then os_Getwd
    else DefaultProjectCWD opts in
  let pi := textinput_New in
  let pi := set_Placeholder "~/kb-platform" pi in
  let pi := SetValue platformDir pi in
  let pi := Focus pi in
  let pi := set_Width 50%Z pi in
  let ci := textinput_New in
  let ci := set_Placeholder "~/projects/my-project" ci in
  let ci := SetValue cwd ci in
  let ci := set_Width 50%Z ci in
  {| manifest := m;
     errMsg := "";
     services := checkItems (manifest.Services m);
     plugins := checkItems (manifest.Plugins m);
     platformInput := pi;
     cwdInput := ci;
     stage_ := stageDirs;
     activeInput := 0%Z;
     cursor := 0%Z;
     cancelled := false;
     confirmed := false |}.

Definition validateDirs (m : wizardModel) : option error :=
  if decide (strings_TrimSpace (Value (platformInput m)) = "")
  then Some (errorString "platform directory is required")
  else if decide (strings_TrimSpace (Value (cwdInput m)) = "")
  then Some (errorString "project directory is required")
  else None.

Definition toggled (it : checkItem) : checkItem :=
  mkCheckItem (id it) (pkg it) (desc it) (negb (checked it)).

(** The write goes to the slice's backing array, which the model
    values of a run share; the program keeps the last model only. *)
Definition toggleCursor (m : wizardModel) : option wizardModel :=
  if (cursor m <? Z.of_nat (length (services m)))%Z then
    match index (services m) (cursor m) with
    | Some it =>
        Some (set_services m
                (<[Z.to_nat (cursor m) := toggled it]> (services m)))
    | None => None
    end
  else
    let i := (cursor m - Z.of_nat (length (services m)))%Z in
    match index (plugins m) i with
    | Some it =>
        Some (set_plugins m (<[Z.to_nat i := toggled it]> (plugins m)))
    | None => None
    end.

Definition handleDirsKey (m : wizardModel) (key : string)
  : option (wizardModel * Cmd) :=
  if decide (key ∈ ["ctrl+c"; "esc"]) then
    Some (set_cancelled m true, tea_Quit)
  else if decide (key ∈ ["tab"; "down"]) then
    let m := set_activeInput m (1 - activeInput m)%Z in
    let m :=
      if decide (activeInput m = 0%Z)
      then set_cwdInput (set_platformInput m (Focus (platformInput m)))
             (Blur (cwdInput m))
      else set_platformInput (set_cwdInput m (Focus (cwdInput m)))
             (Blur (platformInput m)) in
    Some (m, textinput_Blink)
  else if decide (key = "enter") then
    match validateDirs m with
    | Some err => Some (set_errMsg m (errorText err), cmdNil)
    | None =>
        let m := set_errMsg m "" in
        let m := set_stage m stageOptions in
        let m := set_cursor m 0%Z in
        Some (m, cmdNil)
    end
  else if decide (activeInput m = 0%Z) then
    Some (set_platformInput m (Input_Update (KeyMsg key) (platformInput m)),
          cmdInput)
  else
    Some (set_cwdInput m (Input_Update (KeyMsg key) (cwdInput m)),
          cmdInput).

Definition handleOptionsKey (m : wizardModel) (key : string)
  : option (wizardModel * Cmd) :=
  let total := (Z.of_nat (length (services m))
                + Z.of_nat (length (plugins m)))%Z in
  if decide (key ∈ ["ctrl+c"; "esc"]) then
    Some (set_cancelled m true, tea_Quit)
  else if decide (key ∈ ["up"; "k"]) then
    Some (if (0 <? cursor m)%Z then set_cursor m (cursor m - 1)%Z else m,
          cmdNil)
  else if decide (key ∈ ["down"; "j"]) then
    Some (if (cursor m <? total - 1)%Z then set_cursor m (cursor m + 1)%Z
          else m,
          cmdNil)
  else if decide (key = " ") then
    match toggleCursor m with
    | Some m => Some (m, cmdNil)
    | None => None
    end
  else if decide (key = "enter") then
    Some (set_stage m stageConfirm, cmdNil)
  else Some (m, cmdNil).

Definition handleConfirmKey (m : wizardModel) (key : string)
  : option (wizardModel * Cmd) :=
  if decide (key ∈ ["ctrl+c"; "esc"; "n"; "N"]) then
    Some (set_cancelled m true, tea_Quit)
  else if decide (key ∈ ["enter"; "y"; "Y"]) then
    Some (set_confirmed m true, tea_Quit)
  else Some (m, cmdNil).

Definition handleKey (m : wizardModel) (key : string)
  : option (wizardModel * Cmd) :=
  match stage_ m with
  | stageDirs => handleDirsKey m key
  | stageOptions => handleOptionsKey m key
  | stageConfirm => handleConfirmKey m key
  end.

Definition Update (m : wizardModel) (msg : Msg)
  : option (wizardModel * Cmd) :=
  match msg with
  | KeyMsg key => handleKey m key
  | _ =>
      if decide (stage_ m = stageDirs) then
        if decide (activeInput m = 0%Z) then
          Some (set_platformInput m (Input_Update msg (platformInput m)),
                cmdInput)
        else
          Some (set_cwdInput m (Input_Update msg (cwdInput m)), cmdInput)
      else Some (m, cmdNil)
  end.

Definition expandHome (path : string) : string :=
  match path with
  | String "~"%char (String "/"%char rest) =>
      filepath_Join [os_UserHomeDir; rest]
  | _ => path
  end.

Definition toSelection (m : wizardModel) : installer.Selection :=
  let services :=
    foldl (fun services s => if checked s then services ++ [id s]
                             else services) [] (services m) in
  let plugins :=
    foldl (fun plugins p => if checked p then plugins ++ [id p]
                            else plugins) [] (plugins m) in
  {| installer.PlatformDir := expandHome (Value (platformInput m));
     installer.ProjectCWD := expandHome (Value (cwdInput m));
     installer.Services := services;
     installer.Plugins := plugins |}.

Definition defaultSelection (m : manifest.Manifest) (opts : WizardOptions)
  : installer.Selection :=
  let home := os_UserHomeDir in
  let platformDir :=
    if decide (DefaultPlatformDir opts = "")
    then filepath_Join [home; "kb-platform"]
    else DefaultPlatformDir opts in
  let cwd :=
    if decide (DefaultProjectCWD opts = "") then os_Getwd
    else DefaultProjectCWD opts in
  let services :=
    foldl (fun services s =>
             if manifest.Default s then services ++ [manifest.ID s]
             else services) [] (manifest.Services m) in
  let plugins :=
    foldl (fun plugins p =>
             if manifest.Default p then plugins ++ [manifest.ID p]
             else plugins) [] (manifest.Plugins m) in
  {| installer.PlatformDir := expandHome platformDir;
     installer.ProjectCWD := expandHome cwd;
     installer.Services := services;
     installer.Plugins := plugins |}.

(** How far a program run has got. *)
Inductive Outcome : Type :=
| Running (m : wizardModel)   (* waiting for the next message *)
| Exited (m : wizardModel)    (* [p.Run()] returned this model *)
| Panicked.

Definition isQuit (c : Cmd) : bool :=
  match c with tea_Quit => true | _ => false end.

(** The event loop of Bubble Tea on the messages it receives.  The
    quit message makes it return the model it then holds, whoever
    sent it: [tea.Quit], [Program.Quit] or the handler of the
    termination signal.  Every other message goes through [Update].
    The loop runs the returned command concurrently; [tea.Quit]
    sends the quit message, so that messages that arrive before it
    are still handled.  [quit] tells whether [tea.Quit] has been
    returned and its message is on the way. *)
Fixpoint eventLoop (m : wizardModel) (quit : bool) (msgs : list Msg)
  : Outcome :=
  match msgs with
  | [] => if quit then Exited m else Running m
  | QuitMsg :: _ => Exited m
  | msg :: rest =>
      match Update m msg with
      | None => Panicked
      | Some (m', c) => eventLoop m' (quit || isQuit c) rest
      end
  end.

Definition play (m : wizardModel) (msgs : list Msg) : Outcome :=
  eventLoop m false msgs.

(** [Run]; [final] is what [p.Run()] returned for the program started
    on [newModel m opts]. *)
Definition Run (m : manifest.Manifest) (opts : WizardOptions)
  (final : result wizardModel) : result installer.Selection :=
  if Yes opts then Ok (defaultSelection m opts)
  else
    match final with
    | Err err => Err err
    | Ok result =>
        if cancelled result
        then Err (errorString "installation cancelled")
        else Ok (toSelection result)
    end.

(** The number of items of the options screen. *)
Definition total (m : wizardModel) : Z :=
  (Z.of_nat (length (services m)) + Z.of_nat (length (plugins m)))%Z.

End Wizard.

Arguments mkWizardModel {Input} _ _ _ _ _ _ _ _ _ _ _.
Arguments manifest {Input} _.
Arguments errMsg {Input} _.
Arguments services {Input} _.
Arguments plugins {Input} _.
Arguments platformInput {Input} _.
Arguments cwdInput {Input} _.
Arguments stage_ {Input} _.
Arguments activeInput {Input} _.
Arguments cursor {Input} _.
Arguments cancelled {Input} _.
Arguments confirmed {Input} _.
Arguments set_errMsg {Input} _ _.
Arguments set_services {Input} _ _.
Arguments set_plugins {Input} _ _.
Arguments set_platformInput {Input} _ _.
Arguments set_cwdInput {Input} _ _.
Arguments set_stage {Input} _ _.
Arguments set_activeInput {Input} _ _.
Arguments set_cursor {Input} _ _.
Arguments set_cancelled {Input} _ _.
Arguments set_confirmed {Input} _ _.
Arguments Running {Input} _.
Arguments Exited {Input} _.
Arguments Panicked {Input}.
Arguments newModel {Input} _ _ _ _ _ _ _ _ _ _.
Arguments validateDirs {Input} _ _ _.
Arguments toggleCursor {Input} _.
Arguments handleDirsKey {Input} _ _ _ _ _ _ _.
Arguments handleOptionsKey {Input} _ _.
Arguments handleConfirmKey {Input} _ _.
Arguments handleKey {Input} _ _ _ _ _ _ _.
Arguments Update {Input} _ _ _ _ _ _ _.
Arguments toSelection {Input} _ _ _ _.
Arguments eventLoop {Input} _ _ _ _ _ _ _ _.
Arguments play {Input} _ _ _ _ _ _ _.
Arguments Run {Input} _ _ _ _ _ _ _.
Arguments total {Input} _.

End wizard.

(** ** Package [cmd]: the spinner of [kb-create] and the platform directory *)

Module cmd.

(** The label and detail of the spinner (both guarded by its mutex). *)
Record spinner : Type := mkSpinner {
  label : string;
  detail : string
}.

Definition newSpinner : spinner := mkSpinner "" "".

Definition setLabel (l : string) (s : spinner) : spinner :=
  mkSpinner l (detail s).

Definition setDetail (d : string) (s : spinner) : spinner :=
  let d := if (72 <? String.length d)%nat
           then String.substring 0 69 d +:+ "..." else d in
  mkSpinner (label s) d.

(** The callbacks [runCreate] gives the engine. *)
Definition OnStep (step total : Z) (l : string) (s : spinner) : spinner :=
  setLabel ("[" +:+ pretty step +:+ "/" +:+ pretty total +:+ "] " +:+ l) s.

Definition OnLine (line : string) (s : spinner) : spinner :=
  setDetail line s.

(** The calls of [OnStep] among the engine's events. *)
Definition stepCalls (evs : list installer.Event) : list (Z * Z * string) :=
  omap (fun e => match e with
                 | installer.CallOnStep n total l => Some (n, total, l)
                 | _ => None
                 end) evs.

(** The spinner after the callbacks among the engine's events. *)
Definition callbacks (evs : list installer.Event) (s : spinner) : spinner :=
  foldl (fun s e =>
           match e with
           | installer.CallOnStep n total l => OnStep n total l s
           | installer.CallOnLine line => OnLine line s
           | _ => s
           end) s evs.

Section Cmd.

Variable filepath_Join : list string -> string.
Variable json_Unmarshal : string -> result config.PlatformConfig.

(** [resolvePlatformDir]: [flag] is the command's [--platform],
    [rootFlag] the root command's, [cwd] what [os.Getwd] returned. *)
Definition resolvePlatformDir (flag rootFlag cwd : string) (fs : os.FS)
  : result string :=
  if decide (flag <> "") then Ok flag
  else if decide (rootFlag <> "") then Ok rootFlag
  else
    match config.Read filepath_Join json_Unmarshal fs cwd with
    | Ok cfg => Ok (config.Platform cfg)
    | Err _ =>
        Err (errorString
               "platform directory not specified — use --platform or run from the platform directory")
    end.

End Cmd.

End cmd.

(** ** Stand-ins for the rest of the outside world in the examples *)

Module standin.

(** [strings.TrimSpace], for ASCII white space. *)
Fixpoint trimLeft (s : string) : string :=
  match s with
  | String c rest => if Ascii.is_space c then trimLeft rest else s
  | EmptyString => EmptyString
  end.

Definition TrimSpace (s : string) : string :=
  String.rev (trimLeft (String.rev (trimLeft s))).

(** A text input: its value and whether it has the focus.  A key that
    is one character is typed when the input has the focus. *)
Record Input : Type := mkInput {
  value : string;
  placeholder : string;
  width : Z;
  focus : bool
}.

Definition New : Input := mkInput "" "" 0 false.
Definition set_Placeholder (p : string) (i : Input) : Input :=
  mkInput (value i) p (width i) (focus i).
Definition set_Width (w : Z) (i : Input) : Input :=
  mkInput (value i) (placeholder i) w (focus i).
Definition SetValue (v : string) (i : Input) : Input :=
  mkInput v (placeholder i) (width i) (focus i).
Definition Focus (i : Input) : Input :=
  mkInput (value i) (placeholder i) (width i) true.
Definition Blur (i : Input) : Input :=
  mkInput (value i) (placeholder i) (width i) false.
Definition Input_Update (msg : wizard.Msg) (i : Input) : Input :=
  match msg with
  | wizard.KeyMsg key =>
      if focus i && (String.length key =? 1)%nat
      then SetValue (value i +:+ key) i else i
  | _ => i
  end.

Definition newModel :=
  wizard.newModel New set_Placeholder set_Width SetValue Focus
    "/home/u" "/home/u/app" refimpl.Join.
Definition play :=
  wizard.play value Focus Blur Input_Update TrimSpace.
Definition Run :=
  wizard.Run value "/home/u" "/home/u/app" refimpl.Join.
Definition defaultSelection :=
  wizard.defaultSelection "/home/u" "/home/u/app" refimpl.Join.

(** A manifest with a default service, an optional service and a
    default plugin; one with core packages only. *)
Definition m_three : manifest.Manifest :=
  manifest.mkManifest "1.0.0" "" [manifest.mkPackage "A"]
    [manifest.mkComponent "rest" "B" "REST API" true;
     manifest.mkComponent "studio" "S" "Studio" false]
    [manifest.mkComponent "mind" "C" "Mind" true].

Definition m_core : manifest.Manifest :=
  manifest.mkManifest "1.0.0" "" [manifest.mkPackage "A"] [] [].

Definition opts : wizard.WizardOptions :=
  wizard.mkWizardOptions "" "~/kb" false.

(** The codec of [refimpl], for manifests. *)
Definition Marshal (m : manifest.Manifest) : string :=
  refimpl.writePos (encode m).

Definition Unmarshal (data : string) : result manifest.Manifest :=
  match refimpl.readPos data ≫= decode with
  | Some m => Ok m
  | None => Err (errorString "unexpected end of JSON input")
  end.

Definition embedded : string := Marshal sample.m_AB.

(** A network with one server that answers, one that does not know
    the manifest, and nothing else. *)
Definition Get (timeout : Z) (url : string) : result loader.Response :=
  if decide (url = "https://kb.example/manifest.json")
  then Ok (loader.mkResponse 200 (Ok (Marshal sample.m_AC)))
  else if decide (url = "https://kb.example/gone.json")
  then Ok (loader.mkResponse 404 (Ok ""))
  else Err (errorString "dial tcp: i/o timeout").

Definition Load := loader.Load embedded Unmarshal Get.

(** A disk with a package.json that someone else wrote, and an
    override file that is no manifest. *)
Definition projectDisk : os.FS :=
  os.mkFS (list_to_map
             [("/opt", os.Dir); ("/opt/kb", os.Dir);
              ("/opt/kb/package.json", os.File "{}");
              ("/etc", os.Dir); ("/etc/kb", os.Dir);
              ("/etc/kb/override.json", os.File "oops")]) 1000.

(** The listing of a logs directory, in the order of the names. *)
Definition ReadDir (dir : string) : result (list logger.DirEntry) :=
  if decide (dir = "/opt/kb/.kb/logs")
  then Ok [logger.mkDirEntry "archive" true;
           logger.mkDirEntry "install-20240101-120000.log" false;
           logger.mkDirEntry "install-20240302-090000.log" false;
           logger.mkDirEntry "old" true]
  else Err (PathError "open" dir ENOENT).

End standin.

(** * Properties of the engine *)

Set Warnings "-clear-no-such-hyp".

(** ** Lists and key sets built by loops *)

Lemma fill_names {A} (f : A -> string) (l : list A) (pre : list string)
  (d : string) :
  foldl (fun names (ip : nat * A) => <[ip.1 := f ip.2]> names)
        (pre ++ replicate (length l) d)
        (imap (fun i x => (length pre + i, x)) l)
  = pre ++ (f <$> l).
Proof.
  revert pre. induction l as [|x l IH]; intros pre; simpl.
  - done.
  - rewrite insert_app_r. simpl.
    replace (pre ++ f x :: replicate (length l) d)
      with ((pre ++ [f x]) ++ replicate (length l) d)
      by (by rewrite <- app_assoc).
    rewrite (imap_ext _ (fun i y => (length (pre ++ [f x]) + i, y))).
    + rewrite IH. by rewrite <- app_assoc.
    + intros i y _. simpl. rewrite length_app. simpl. f_equal. lia.
Qed.

Lemma CorePackageNames_map m :
  manifest.CorePackageNames m = manifest.Name <$> manifest.Core m.
Proof.
  unfold manifest.CorePackageNames.
  apply (fill_names manifest.Name (manifest.Core m) [] "").
Qed.

Lemma keyset_lookup {A} (g : A -> string) (l : list A) (s : gmap string bool)
  k :
  foldl (fun set x => <[g x := true]> set) s l !! k
  = if decide (k ∈ g <$> l) then Some true else s !! k.
Proof.
  revert s. induction l as [|x l IH]; intros s; cbn [foldl fmap list_fmap].
  - rewrite decide_False; [done | apply not_elem_of_nil].
  - rewrite IH. destruct (decide (k ∈ g <$> l)) as [Hin|Hnin].
    + rewrite decide_True; [done | by apply elem_of_cons; right].
    + destruct (decide (k = g x)) as [->|Hne].
      * rewrite lookup_insert_eq.
        rewrite decide_True; [done | by apply elem_of_cons; left].
      * rewrite lookup_insert_ne by done.
        rewrite decide_False; [done |]. rewrite elem_of_cons. naive_solver.
Qed.

Lemma foldl_collect {A B} (P : A -> bool) (g : A -> B) (l : list A)
  (acc : list B) :
  foldl (fun out c => if P c then out ++ [g c] else out) acc l
  = acc ++ (g <$> filter (fun c => P c = true) l).
Proof.
  revert acc. induction l as [|x l IH]; intros acc; simpl.
  - by rewrite app_nil_r.
  - rewrite IH. rewrite filter_cons. destruct (P x) eqn:E.
    + rewrite decide_True by done. simpl. by rewrite <- app_assoc.
    + rewrite decide_False by (by intros ?). done.
Qed.

Lemma foldl_snoc_map {A B} (g : A -> B) (l : list A) (acc : list B) :
  foldl (fun out c => out ++ [g c]) acc l = acc ++ (g <$> l).
Proof.
  revert acc. induction l as [|x l IH]; intros acc; simpl.
  - by rewrite app_nil_r.
  - rewrite IH. by rewrite <- app_assoc.
Qed.

Lemma selectedPkgs_filter comps ids :
  installer.selectedPkgs comps ids
  = manifest.Pkg <$> filter (fun c => manifest.ID c ∈ ids) comps.
Proof.
  unfold installer.selectedPkgs.
  rewrite (foldl_collect (fun c => default false (_ !! manifest.ID c))
             manifest.Pkg).
  simpl. f_equal. apply list_filter_iff. intros c.
  rewrite (keyset_lookup id), lookup_empty, list_fmap_id.
  case_decide; simpl; naive_solver.
Qed.

Lemma selectedPkgs_ext comps ids1 ids2 :
  (forall i, i ∈ ids1 <-> i ∈ ids2) ->
  installer.selectedPkgs comps ids1 = installer.selectedPkgs comps ids2.
Proof.
  intros H. rewrite !selectedPkgs_filter. f_equal.
  apply list_filter_iff. intros c. apply H.
Qed.

Lemma installPkgs_eq sel m :
  installer.installPkgs sel m
  = (manifest.Name <$> manifest.Core m)
    ++ (manifest.Pkg <$> filter (fun c => manifest.ID c ∈ installer.Services sel)
                           (manifest.Services m))
    ++ (manifest.Pkg <$> filter (fun c => manifest.ID c ∈ installer.Plugins sel)
                           (manifest.Plugins m)).
Proof.
  unfold installer.installPkgs.
  by rewrite CorePackageNames_map, !selectedPkgs_filter, <- app_assoc.
Qed.

Lemma updatePkgs_eq m :
  installer.updatePkgs m
  = (manifest.Name <$> manifest.Core m)
    ++ (manifest.Pkg <$> manifest.Services m)
    ++ (manifest.Pkg <$> manifest.Plugins m).
Proof.
  unfold installer.updatePkgs.
  by rewrite foldl_snoc_map, CorePackageNames_map, fmap_app.
Qed.

Lemma pkgSet_lookup m k :
  installer.pkgSet m !! k
  = if decide (k ∈ manifest.pkgRefs m) then Some true else None.
Proof.
  unfold installer.pkgSet, manifest.pkgRefs.
  rewrite !keyset_lookup, lookup_empty, fmap_app.
  repeat case_decide; try done; exfalso; set_solver.
Qed.

Lemma pkgSet_dom m : dom (installer.pkgSet m) = manifest.pkgRefs m.
Proof.
  apply set_eq. intros k. rewrite elem_of_dom, pkgSet_lookup.
  case_decide; split; try done; by intros [? ?].
Qed.

Lemma filter_ext_elem {A} (P1 P2 : A -> Prop)
  `{!forall x, Decision (P1 x), !forall x, Decision (P2 x)} (l : list A) :
  (forall x, x ∈ l -> P1 x <-> P2 x) -> filter P1 l = filter P2 l.
Proof.
  induction l as [|a l IH]; intros Hext; [done|].
  rewrite !filter_cons.
  rewrite IH by (intros x Hx; apply Hext; by apply elem_of_cons; right).
  apply decide_ext, Hext, list_elem_of_here.
Qed.

Lemma selectedPkgs_unknown comps u ids :
  u ∉ (manifest.ID <$> comps) ->
  installer.selectedPkgs comps (u :: ids) = installer.selectedPkgs comps ids.
Proof.
  intros Hu. rewrite !selectedPkgs_filter. f_equal.
  apply filter_ext_elem. intros c Hc. rewrite elem_of_cons.
  split; [|by right]. intros [E|?]; [|done].
  exfalso. apply Hu. rewrite <- E. apply list_elem_of_fmap. eauto.
Qed.

Lemma selectedPkgs_sublist comps ids :
  installer.selectedPkgs comps ids `sublist_of` (manifest.Pkg <$> comps).
Proof.
  rewrite selectedPkgs_filter. apply fmap_sublist, sublist_filter.
Qed.

Lemma installPkgs_elem sel m p :
  p ∈ installer.installPkgs sel m <->
  (exists c, c ∈ manifest.Core m /\ manifest.Name c = p)
  \/ (exists c, c ∈ manifest.Services m
                /\ manifest.ID c ∈ installer.Services sel
                /\ manifest.Pkg c = p)
  \/ (exists c, c ∈ manifest.Plugins m
                /\ manifest.ID c ∈ installer.Plugins sel
                /\ manifest.Pkg c = p).
Proof.
  rewrite installPkgs_eq, !elem_of_app, !list_elem_of_fmap.
  setoid_rewrite list_elem_of_filter. naive_solver.
Qed.


Lemma filter_eq_length (x : string) (l : list string) :
  x ∈ l -> 1 <= length (filter (fun p => p = x) l).
Proof.
  induction l as [|a l IH]; [by intros ?%elem_of_nil|].
  rewrite filter_cons. intros [->|Hin]%elem_of_cons.
  - rewrite decide_True by done. simpl. lia.
  - case_decide; simpl; auto with lia.
Qed.


Lemma filter_none {A} (P : A -> Prop) `{!forall x, Decision (P x)}
  (l : list A) :
  (forall x, x ∈ l -> ~ P x) -> filter P l = [].
Proof.
  induction l as [|a l IH]; intros Hno; [done|].
  rewrite filter_cons, decide_False by (apply Hno, list_elem_of_here).
  apply IH. intros x Hx. apply Hno. by apply elem_of_cons; right.
Qed.

Lemma filter_unique_key {A} (f : A -> string) (l : list A) (c : A) :
  NoDup (f <$> l) -> c ∈ l -> filter (fun x => f x = f c) l = [c].
Proof.
  induction l as [|a l IH]; intros Hnd Hc; [by apply elem_of_nil in Hc|].
  rewrite fmap_cons in Hnd. apply list.NoDup_cons in Hnd as [Hnotin Hnd].
  rewrite filter_cons. apply elem_of_cons in Hc as [->|Hc].
  - rewrite decide_True by done. f_equal.
    apply filter_none. intros x Hx Hfx.
    apply Hnotin. rewrite <- Hfx. apply list_elem_of_fmap. eauto.
  - rewrite decide_False; [by apply IH|].
    intros Hfa. apply Hnotin. rewrite Hfa. apply list_elem_of_fmap. eauto.
Qed.

Lemma selectedPkgs_repeated comps c n :
  NoDup (manifest.ID <$> comps) -> c ∈ comps ->
  installer.selectedPkgs comps (replicate (S n) (manifest.ID c))
  = [manifest.Pkg c].
Proof.
  intros Hnd Hc. rewrite selectedPkgs_filter.
  rewrite (filter_ext_elem _ (fun x => manifest.ID x = manifest.ID c)).
  - by rewrite (filter_unique_key manifest.ID comps c Hnd Hc).
  - intros x _. rewrite elem_of_replicate. split; [by intros [? _]|].
    intros ->. split; [done|lia].
Qed.

(** ** The two loops of [Diff] *)

Lemma diff_loop1 (installed : gmap string bool) (l : list string) d :
  foldl (fun diff pkg =>
           match installed !! pkg with
           | None => installer.mkUpdateDiff (installer.Updated diff)
                       (installer.Added diff ++ [pkg]) (installer.Removed diff)
           | Some _ => installer.mkUpdateDiff (installer.Updated diff ++ [pkg])
                         (installer.Added diff) (installer.Removed diff)
           end) d l
  = installer.mkUpdateDiff
      (installer.Updated d ++ filter (fun k => k ∈ dom installed) l)
      (installer.Added d ++ filter (fun k => k ∉ dom installed) l)
      (installer.Removed d).
Proof.
  revert d. induction l as [|x l IH]; intros d; cbn [foldl].
  - rewrite !filter_nil, !app_nil_r. by destruct d.
  - rewrite IH. rewrite !filter_cons. destruct (installed !! x) eqn:E; simpl.
    + rewrite decide_True by (apply elem_of_dom; eauto).
      rewrite decide_False by (intros H; apply H, elem_of_dom; eauto).
      by rewrite <- app_assoc.
    + rewrite decide_False by (by rewrite not_elem_of_dom).
      rewrite decide_True by (by rewrite not_elem_of_dom).
      by rewrite <- app_assoc.
Qed.

Lemma diff_loop2 (currentSet : gmap string bool) (l : list string) d :
  foldl (fun diff pkg =>
           match currentSet !! pkg with
           | None => installer.mkUpdateDiff (installer.Updated diff)
                       (installer.Added diff) (installer.Removed diff ++ [pkg])
           | Some _ => diff
           end) d l
  = installer.mkUpdateDiff (installer.Updated d) (installer.Added d)
      (installer.Removed d ++ filter (fun k => k ∉ dom currentSet) l).
Proof.
  revert d. induction l as [|x l IH]; intros d; cbn [foldl].
  - rewrite !filter_nil, !app_nil_r. by destruct d.
  - rewrite IH. rewrite !filter_cons. destruct (currentSet !! x) eqn:E; simpl.
    + rewrite decide_False by (intros H; apply H, elem_of_dom; eauto). done.
    + rewrite decide_True by (by rewrite not_elem_of_dom).
      by rewrite <- app_assoc.
Qed.

Lemma list_to_set_empty_iff (l : list string) :
  list_to_set l = (∅ : gset string) <-> l = [].
Proof.
  split; [|by intros ->].
  destruct l as [|x l]; [done|]. intros H. exfalso.
  apply (not_elem_of_empty (C:=gset string) x). rewrite <- H.
  apply elem_of_list_to_set, list_elem_of_here.
Qed.

Lemma HasChanges_iff d :
  installer.HasChanges d = true <->
  list_to_set (installer.Added d) ∪ list_to_set (installer.Removed d)
    ∪ list_to_set (installer.Updated d) <> (∅ : gset string).
Proof.
  unfold installer.HasChanges. rewrite Nat.ltb_lt.
  rewrite !empty_union_L, !list_to_set_empty_iff.
  destruct (installer.Added d), (installer.Removed d), (installer.Updated d);
    simpl; split; intros H; try lia; try (intros [[? ?] ?]; done).
  exfalso. by apply H.
Qed.

Section Range.

Variable range_keys : gmap string bool -> list string.
Hypothesis range_keys_perm : forall m, range_keys m ≡ₚ (map_to_list m).*1.

Lemma range_keys_NoDup m : NoDup (range_keys m).
Proof. rewrite range_keys_perm. apply NoDup_fst_map_to_list. Qed.

Lemma range_keys_elem m k : k ∈ range_keys m <-> k ∈ dom m.
Proof.
  rewrite range_keys_perm, elem_of_dom, list_elem_of_fmap. split.
  - intros [[k' v] [-> H]]. apply elem_of_map_to_list in H. eauto.
  - intros [v H]. exists (k, v). split; [done|].
    by apply elem_of_map_to_list.
Qed.

Lemma diffOf_eq stored current :
  installer.diffOf range_keys stored current
  = installer.mkUpdateDiff
      (filter (fun k => k ∈ manifest.pkgRefs stored)
              (range_keys (installer.pkgSet current)))
      (filter (fun k => k ∉ manifest.pkgRefs stored)
              (range_keys (installer.pkgSet current)))
      (filter (fun k => k ∉ manifest.pkgRefs current)
              (range_keys (installer.pkgSet stored))).
Proof.
  unfold installer.diffOf. rewrite diff_loop1, diff_loop2. simpl.
  by rewrite !pkgSet_dom.
Qed.

Lemma diffOf_sets stored current :
  let d := installer.diffOf range_keys stored current in
  list_to_set (installer.Added d)
    = manifest.pkgRefs current ∖ manifest.pkgRefs stored
  /\ list_to_set (installer.Removed d)
    = manifest.pkgRefs stored ∖ manifest.pkgRefs current
  /\ list_to_set (installer.Updated d)
    = manifest.pkgRefs stored ∩ manifest.pkgRefs current.
Proof.
  intros d. subst d. rewrite diffOf_eq. simpl.
  repeat split; apply set_eq; intros k;
    rewrite elem_of_list_to_set, list_elem_of_filter, range_keys_elem,
      pkgSet_dom; set_solver.
Qed.

Lemma diffOf_NoDup stored current :
  let d := installer.diffOf range_keys stored current in
  NoDup (installer.Added d) /\ NoDup (installer.Removed d)
  /\ NoDup (installer.Updated d).
Proof.
  intros d. subst d. rewrite diffOf_eq. simpl.
  repeat split; apply list.NoDup_filter, range_keys_NoDup.
Qed.

End Range.

(** ** Diff *)

Section DiffFacts.

Context {St : Type}.
Variable filepath_Join : list string -> string.
Variable json_Unmarshal : string -> result config.PlatformConfig.
Variable range_keys : gmap string bool -> list string.
Hypothesis range_keys_perm : forall m, range_keys m ≡ₚ (map_to_list m).*1.

Local Abbreviation Read := (config.Read filepath_Join json_Unmarshal).
Local Abbreviation Diff := (installer.Diff filepath_Join json_Unmarshal range_keys).

(** C1.  When a snapshot is stored at the platform directory, [Diff]
    succeeds, and with S the package references of the stored manifest
    and C those of the candidate manifest: added = C \ S,
    removed = S \ C, updated = S ∩ C as sets; no reference is listed
    twice; the three sets are pairwise disjoint; and [HasChanges] holds
    exactly when their union is not empty. *)
Theorem Diff_set_algebra (w : installer.World St) (platformDir : string)
  (current : manifest.Manifest) (cfg : config.PlatformConfig) :
  Read (installer.disk w) platformDir = Ok cfg ->
  exists d : installer.UpdateDiff,
    (Diff platformDir current w).2 = Ok d
    /\ let S := manifest.pkgRefs (config.Manifest cfg) in
       let C := manifest.pkgRefs current in
       let added : gset string := list_to_set (installer.Added d) in
       let removed : gset string := list_to_set (installer.Removed d) in
       let updated : gset string := list_to_set (installer.Updated d) in
       added = C ∖ S /\ removed = S ∖ C /\ updated = S ∩ C
       /\ NoDup (installer.Added d) /\ NoDup (installer.Removed d)
       /\ NoDup (installer.Updated d)
       /\ added ## removed /\ added ## updated /\ removed ## updated
       /\ (installer.HasChanges d = true <->
           added ∪ removed ∪ updated <> ∅).
Proof.
  intros HR.
  exists (installer.diffOf range_keys (config.Manifest cfg) current).
  split.
  - unfold installer.Diff, installer.config_Read. simpl. by rewrite HR.
  - destruct (diffOf_sets range_keys range_keys_perm
                (config.Manifest cfg) current) as (Ha & Hr & Hu).
    destruct (diffOf_NoDup range_keys range_keys_perm
                (config.Manifest cfg) current) as (Na & Nr & Nu).
    cbv zeta in Ha, Hr, Hu, Na, Nr, Nu. cbv zeta.
    rewrite HasChanges_iff, Ha, Hr, Hu.
    split; [done|]. split; [done|]. split; [done|].
    split; [done|]. split; [done|]. split; [done|].
    split; [set_solver|]. split; [set_solver|]. split; [set_solver|].
    done.
Qed.

End DiffFacts.

(** ** The engine's helpers, as effects on the world *)

Section WorldFacts.

Context {St : Type}.
Implicit Types (ins : installer.Installer St) (w : installer.World St).

Lemma step_eq ins n total label w :
  installer.step ins n total label w
  = installer.mkWorld (installer.disk w) (installer.clock w)
      (installer.pmst w)
      (installer.trace w ++ installer.stepEvents ins n total label).
Proof.
  unfold installer.step, installer.stepEvents, installer.Log_Printf,
    installer.emit.
  destruct (installer.OnStep ins); simpl; by rewrite <- ?app_assoc.
Qed.

Lemma drain_eq ins sent w :
  foldl (installer.drain1 ins) w sent
  = installer.mkWorld (installer.disk w) (installer.clock w)
      (installer.pmst w)
      (installer.trace w ++ installer.drainEvents ins sent).
Proof.
  revert w. induction sent as [|p sent IH]; intros w; cbn [foldl].
  - unfold installer.drainEvents. simpl. rewrite app_nil_r. by destruct w.
  - rewrite IH. unfold installer.drainEvents. rewrite bind_cons.
    unfold installer.drain1, installer.Log_Printf, installer.emit.
    destruct (decide (pm.Line p = "")); [done|].
    destruct (installer.OnLine ins); simpl; by rewrite <- ?app_assoc.
Qed.

Lemma installGroup_eq ins dir pkgs w :
  installer.installGroup ins dir pkgs w
  = let o := pm.Install (installer.PM ins) dir pkgs (installer.pmst w) in
    (installer.mkWorld (installer.disk w)
       (installer.clock w + pm.elapsed o) (pm.next o)
       (installer.trace w
        ++ installer.PMInstall dir pkgs
           :: installer.drainEvents ins (pm.sent o)),
     pm.err o).
Proof.
  unfold installer.installGroup, installer.runGroup, installer.PM_Install.
  rewrite drain_eq. simpl. by rewrite <- app_assoc.
Qed.

Lemma updateGroup_eq ins dir pkgs w :
  installer.updateGroup ins dir pkgs w
  = let o := pm.Update (installer.PM ins) dir pkgs (installer.pmst w) in
    (installer.mkWorld (installer.disk w)
       (installer.clock w + pm.elapsed o) (pm.next o)
       (installer.trace w
        ++ installer.PMUpdate dir pkgs
           :: installer.drainEvents ins (pm.sent o)),
     pm.err o).
Proof.
  unfold installer.updateGroup, installer.runGroup, installer.PM_Update.
  rewrite drain_eq. simpl. by rewrite <- app_assoc.
Qed.

Lemma pmCalls_app evs1 evs2 :
  installer.pmCalls (evs1 ++ evs2)
  = installer.pmCalls evs1 ++ installer.pmCalls evs2.
Proof. apply list.filter_app. Qed.

Lemma diskWrites_app evs1 evs2 :
  installer.diskWrites (evs1 ++ evs2)
  = installer.diskWrites evs1 ++ installer.diskWrites evs2.
Proof. apply list.filter_app. Qed.

Lemma pmCalls_stepEvents ins n total label :
  installer.pmCalls (installer.stepEvents ins n total label) = [].
Proof.
  unfold installer.stepEvents. by destruct (installer.OnStep ins).
Qed.

Lemma diskWrites_stepEvents ins n total label :
  installer.diskWrites (installer.stepEvents ins n total label) = [].
Proof.
  unfold installer.stepEvents. by destruct (installer.OnStep ins).
Qed.

Lemma pmCalls_drainEvents ins sent :
  installer.pmCalls (installer.drainEvents ins sent) = [].
Proof.
  unfold installer.drainEvents.
  induction sent as [|p sent IH]; [done|].
  rewrite bind_cons, pmCalls_app, IH, app_nil_r.
  destruct (decide (pm.Line p = "")); [done|].
  by destruct (installer.OnLine ins).
Qed.

Lemma diskWrites_drainEvents ins sent :
  installer.diskWrites (installer.drainEvents ins sent) = [].
Proof.
  unfold installer.drainEvents.
  induction sent as [|p sent IH]; [done|].
  rewrite bind_cons, diskWrites_app, IH, app_nil_r.
  destruct (decide (pm.Line p = "")); [done|].
  by destruct (installer.OnLine ins).
Qed.

End WorldFacts.

(** ** Install and Update, stage by stage *)

Section EngineFacts.

Context {St : Type}.
Variable filepath_Join : list string -> string.
Variable filepath_Abs : string -> string.
Variable json_MarshalIndent : config.PlatformConfig -> result string.
Variable json_Unmarshal : string -> result config.PlatformConfig.
Variable range_keys : gmap string bool -> list string.
Implicit Types (ins : installer.Installer St) (w : installer.World St).

Local Abbreviation Read := (config.Read filepath_Join json_Unmarshal).
Local Abbreviation Write := (config.Write filepath_Join json_MarshalIndent).
Local Abbreviation Install :=
  (installer.Install filepath_Join filepath_Abs json_MarshalIndent).
Local Abbreviation Diff :=
  (installer.Diff filepath_Join json_Unmarshal range_keys).
Local Abbreviation Update :=
  (installer.Update filepath_Join json_MarshalIndent json_Unmarshal
     range_keys).
Local Abbreviation updateStage :=
  (installer.updateStage filepath_Join json_MarshalIndent).

Lemma Install_eq ins sel m w :
  Install ins sel m w
  = let dir := installer.PlatformDir sel in
    let pkgs := installer.installPkgs sel m in
    let o := pm.Install (installer.PM ins) dir pkgs (installer.pmst w) in
    let now := (installer.clock w + pm.elapsed o)%Z in
    let evs1 := installer.stepEvents ins 1 2 (installer.installLabel ins sel m)
                ++ installer.PMInstall dir pkgs
                   :: installer.drainEvents ins (pm.sent o) in
    match pm.err o with
    | Some e =>
        (installer.mkWorld (installer.disk w) now (pm.next o)
           (installer.trace w ++ evs1),
         Err (wrapError "install: " e))
    | None =>
        let cfg := config.NewConfig filepath_Abs now dir
                     (installer.ProjectCWD sel)
                     (pm.Name (installer.PM ins)) m in
        let evs2 := evs1 ++ installer.stepEvents ins 2 2 "Writing config"
                    ++ [installer.ConfigWrite dir cfg] in
        match Write (installer.disk w) dir cfg with
        | (fs, Some e) =>
            (installer.mkWorld fs now (pm.next o) (installer.trace w ++ evs2),
             Err (wrapError "config: " e))
        | (fs, None) =>
            let kb := installer.ProjectCWD sel +:+ "/.kb" in
            let evs3 := evs2 ++ [installer.OsMkdirAll kb] in
            match os.MkdirAll fs kb with
            | (fs', Some e) =>
                (installer.mkWorld fs' now (pm.next o)
                   (installer.trace w ++ evs3),
                 Err (wrapError "project dir: " e))
            | (fs', None) =>
                (installer.mkWorld fs' now (pm.next o)
                   (installer.trace w ++ evs3),
                 Ok {| installer.res_PlatformDir := dir;
                       installer.res_ProjectCWD := installer.ProjectCWD sel;
                       installer.res_ConfigPath :=
                         config.ConfigPath filepath_Join dir;
                       installer.res_Duration :=
                         (now - installer.clock w)%Z |})
            end
        end
    end.
Proof.
  unfold installer.Install. rewrite step_eq, installGroup_eq.
  cbv zeta. cbn [installer.trace installer.disk installer.clock
                 installer.pmst installer.time_Now].
  fold (installer.installLabel ins sel m).
  destruct (pm.err _) as [e|].
  - by rewrite <- app_assoc.
  - rewrite step_eq. unfold installer.config_Write, installer.time_Now.
    cbn [installer.trace installer.disk installer.clock installer.pmst].
    destruct (Write _ _ _) as [fs [e|]].
    + by rewrite <- !app_assoc.
    + unfold installer.os_MkdirAll.
      cbn [installer.trace installer.disk installer.clock installer.pmst].
      destruct (os.MkdirAll _ _) as [fs' [e|]];
        cbn [installer.clock]; by rewrite <- !app_assoc.
Qed.

Lemma Diff_eq platformDir current w :
  Diff platformDir current w
  = (installer.emit (installer.ConfigRead platformDir) w,
     match Read (installer.disk w) platformDir with
     | Err e => Err e
     | Ok cfg =>
         Ok (installer.diffOf range_keys (config.Manifest cfg) current)
     end).
Proof.
  unfold installer.Diff, installer.config_Read.
  by destruct (Read _ _).
Qed.

Lemma Update_tail ins platformDir current cfg d start w0 :
  Read (installer.disk w0) platformDir = Ok cfg ->
  match installer.updateGroup ins platformDir
          (installer.updatePkgs current) w0 with
  | (w, Some err) => (w, Err (wrapError "update packages: " err))
  | (w, None) =>
      match installer.config_Read filepath_Join json_Unmarshal
              platformDir w with
      | (w, Err err) => (w, Err err)
      | (w, Ok cfg) =>
          let cfg := config.set_Manifest cfg current in
          match installer.config_Write filepath_Join json_MarshalIndent
                  platformDir cfg w with
          | (w, Some err) => (w, Err err)
          | (w, None) =>
              (w, Ok {| installer.upd_Diff := d;
                        installer.upd_Duration :=
                          (installer.time_Now w - start)%Z |})
          end
      end
  end
  = installer.updateStage filepath_Join json_MarshalIndent ins platformDir
      current cfg d start w0.
Proof.
  intros HR. rewrite updateGroup_eq. unfold installer.updateStage. cbv zeta.
  destruct (pm.err _) as [e|]; [done|].
  unfold installer.config_Read, installer.refresh, installer.emit.
  cbn [installer.trace installer.disk installer.clock installer.pmst].
  rewrite HR. unfold installer.config_Write, installer.time_Now.
  cbn [installer.trace installer.disk installer.clock installer.pmst].
  destruct (Write _ _ _) as [fs [e|]];
    cbn [installer.clock]; rewrite <- !app_assoc; by cbn [app].
Qed.

Lemma Update_eq ins platformDir current w :
  Update ins platformDir current w
  = let w0 := installer.emit (installer.ConfigRead platformDir) w in
    match Read (installer.disk w) platformDir with
    | Err e => (w0, Err e)
    | Ok cfg =>
        let d := installer.diffOf range_keys (config.Manifest cfg) current in
        let start := installer.clock w in
        match installer.Added d with
        | [] => updateStage ins platformDir current cfg d start w0
        | _ :: _ =>
            let o := pm.Install (installer.PM ins) platformDir
                       (installer.Added d) (installer.pmst w) in
            let w1 := installer.mkWorld (installer.disk w)
                        (installer.clock w + pm.elapsed o) (pm.next o)
                        (installer.trace w0
                         ++ installer.LogPrintf
                              ("Installing new packages: " +:+
                               installer.strings_Join (installer.Added d) " ")
                            :: installer.PMInstall platformDir
                                 (installer.Added d)
                            :: installer.drainEvents ins (pm.sent o)) in
            match pm.err o with
            | Some e => (w1, Err (wrapError "add new packages: " e))
            | None => updateStage ins platformDir current cfg d start w1
            end
        end
    end.
Proof.
  unfold installer.Update. rewrite Diff_eq. cbv zeta.
  destruct (Read (installer.disk w) platformDir) as [cfg|e] eqn:HR; [|done].
  set (d := installer.diffOf range_keys (config.Manifest cfg) current).
  destruct (installer.Added d) as [|a l] eqn:Ha.
  - cbn [length Nat.ltb Nat.leb]. by apply Update_tail.
  - cbn [length Nat.ltb Nat.leb]. rewrite installGroup_eq. cbv zeta.
    unfold installer.Log_Printf, installer.emit.
    cbn [installer.trace installer.disk installer.clock installer.pmst].
    destruct (pm.err _) as [e|].
    + by rewrite <- !app_assoc.
    + rewrite <- !app_assoc. cbn [app]. by apply Update_tail.
Qed.

End EngineFacts.

(** ** The disk *)

Lemma string_app_length (a b : string) :
  String.length (a +:+ b) = String.length a + String.length b.
Proof.
  induction a as [|c a IH]; [done|].
  change (S (String.length (a +:+ b)) = S (String.length a + String.length b)).
  by rewrite IH.
Qed.

(** A directory a path leads through is a proper prefix of the path. *)
Lemma cuts_length pre named rest q :
  q ∈ os.cuts pre named rest ->
  String.length q < String.length pre + String.length rest.
Proof.
  revert pre named. induction rest as [|c rest IH]; intros pre named; simpl.
  - by intros ?%elem_of_nil.
  - assert (forall b, q ∈ os.cuts (pre +:+ String c "") b rest ->
                      String.length q < String.length pre + S (String.length rest))
      as Hrec.
    { intros b Hq%IH. rewrite string_app_length in Hq. simpl in Hq. lia. }
    case_decide; [|by apply Hrec].
    intros [Hq|Hq]%elem_of_app; [|by eapply Hrec].
    destruct named; [|by apply elem_of_nil in Hq].
    apply list_elem_of_singleton in Hq as ->. lia.
Qed.

Lemma parents_ne path q : q ∈ os.parents path -> q <> path.
Proof. intros Hq%cuts_length ->. simpl in Hq. lia. Qed.

Lemma string_app_assoc (a b c : string) : (a +:+ b) +:+ c = a +:+ (b +:+ c).
Proof.
  induction a as [|x a IH]; [done|].
  change (String x ((a +:+ b) +:+ c) = String x (a +:+ b +:+ c)).
  by f_equal.
Qed.

Lemma string_app_nil_r (a : string) : a +:+ "" = a.
Proof.
  induction a as [|x a IH]; [done|].
  change (String x (a +:+ "") = String x a). by f_equal.
Qed.

(** A directory a path leads through cuts the path in two, and the
    directories before it are those it leads through itself. *)
Lemma cuts_elem pre named rest d :
  d ∈ os.cuts pre named rest ->
  exists a b,
    rest = a +:+ String "/" b /\ d = pre +:+ a
    /\ os.cuts pre named rest
       = os.cuts pre named a ++ d :: os.cuts (d +:+ "/") false b.
Proof.
  revert pre named. induction rest as [|c rest IH]; intros pre named; simpl.
  - by intros ?%elem_of_nil.
  - assert (forall nm,
               d ∈ os.cuts (pre +:+ String c "") nm rest ->
               exists a' b,
                 rest = a' +:+ String "/" b /\ d = pre +:+ String c a'
                 /\ os.cuts (pre +:+ String c "") nm rest
                    = os.cuts (pre +:+ String c "") nm a'
                      ++ d :: os.cuts (d +:+ "/") false b) as Hrec.
    { intros nm (a' & b & -> & -> & Hc)%IH. exists a', b.
      split; [done|]. split; [by rewrite string_app_assoc|]. done. }
    case_decide as Hc.
    + subst c. intros [Hd|Hd]%elem_of_app.
      * destruct named; [|by apply elem_of_nil in Hd].
        apply list_elem_of_singleton in Hd as ->.
        exists "", rest. split; [done|]. split; [by rewrite string_app_nil_r|].
        done.
      * destruct (Hrec _ Hd) as (a' & b & -> & -> & Heq).
        exists (String "/" a'), b. split; [done|]. split; [done|].
        cbn [os.cuts]. rewrite decide_True by done.
        rewrite Heq. by rewrite <- app_assoc.
    + intros Hd. destruct (Hrec _ Hd) as (a' & b & -> & -> & Heq).
      exists (String c a'), b. split; [done|]. split; [done|].
      cbn [os.cuts]. by rewrite decide_False by done.
Qed.

Lemma parents_closed path d :
  d ∈ os.parents path -> exists l, os.parents path = os.parents d ++ d :: l.
Proof.
  intros (a & b & -> & -> & Heq)%cuts_elem. unfold os.parents.
  rewrite Heq. eauto.
Qed.

Lemma keeps_refl fs : os.keeps fs fs.
Proof. by intros q n. Qed.

Lemma keeps_trans fs1 fs2 fs3 :
  os.keeps fs1 fs2 -> os.keeps fs2 fs3 -> os.keeps fs1 fs3.
Proof. intros H1 H2 q n Hq. eauto. Qed.

Lemma resolve_None fs dirs :
  os.resolve fs dirs = None
  <-> forall d, d ∈ dirs -> os.files fs !! d = Some os.Dir.
Proof.
  induction dirs as [|d dirs IH]; simpl.
  - split; [by intros _ d ?%elem_of_nil|done].
  - destruct (os.files fs !! d) as [[data|]|] eqn:Hd.
    + split; [done|]. intros H. specialize (H d (list_elem_of_here _ _)).
      congruence.
    + rewrite IH. split.
      * intros H q [->|Hq]%elem_of_cons; auto.
      * intros H q Hq. apply H. by right.
    + split; [done|]. intros H. specialize (H d (list_elem_of_here _ _)).
      congruence.
Qed.

Lemma resolve_ext fs fs' dirs :
  (forall d, d ∈ dirs -> os.files fs' !! d = os.files fs !! d) ->
  os.resolve fs' dirs = os.resolve fs dirs.
Proof.
  induction dirs as [|d dirs IH]; intros H; [done|]. simpl.
  rewrite (H d) by left. rewrite IH; [done|]. intros q Hq. apply H. by right.
Qed.

Lemma resolve_keeps fs fs' dirs :
  os.keeps fs fs' -> os.resolve fs dirs = None -> os.resolve fs' dirs = None.
Proof. rewrite !resolve_None. intros Hk H d Hd. apply Hk. auto. Qed.

Lemma walk_keeps fs fs' dirs path n :
  os.keeps fs fs' ->
  os.walk fs dirs path = inr n -> os.walk fs' dirs path = inr n.
Proof.
  intros Hk. unfold os.walk.
  destruct (os.resolve fs dirs) as [e|] eqn:Hr; [done|].
  rewrite (resolve_keeps _ _ _ Hk Hr).
  destruct (os.files fs !! path) as [n'|] eqn:Hp; [|done].
  intros [= <-]. by rewrite (Hk _ _ Hp).
Qed.

Lemma walk_inr fs dirs path n :
  os.walk fs dirs path = inr n
  <-> os.resolve fs dirs = None /\ os.files fs !! path = Some n.
Proof.
  unfold os.walk. destruct (os.resolve fs dirs) as [e|].
  - split; [done|]. by intros [? _].
  - destruct (os.files fs !! path) as [n'|].
    + split; [by intros [= ->]|]. by intros [_ [= ->]].
    + split; [done|]. by intros [_ ?].
Qed.

Lemma Stat_Ok fs path n :
  os.Stat fs path = Ok n
  <-> os.resolve fs (os.parents path) = None /\ os.files fs !! path = Some n.
Proof.
  rewrite <- walk_inr. unfold os.Stat, os.statAt.
  destruct (os.walk fs (os.parents path) path) as [e|n'].
  - split; done.
  - split; by intros [= ->].
Qed.

Lemma Stat_keeps fs fs' path n :
  os.keeps fs fs' -> os.Stat fs path = Ok n -> os.Stat fs' path = Ok n.
Proof.
  intros Hk. rewrite !Stat_Ok. intros [Hr Hp]. split.
  - by eapply resolve_keeps.
  - by apply Hk.
Qed.

(** What a path leads through is a directory that can be reached. *)
Lemma Stat_parent fs path n d :
  os.Stat fs path = Ok n -> d ∈ os.parents path -> os.Stat fs d = Ok os.Dir.
Proof.
  rewrite !Stat_Ok, !resolve_None. intros [Hr _] Hd.
  destruct (parents_closed _ _ Hd) as [l Hl]. split.
  - intros q Hq. apply Hr. rewrite Hl. apply elem_of_app. by left.
  - by apply Hr.
Qed.

Lemma ReadFile_Ok fs path data :
  os.ReadFile fs path = Ok data
  <-> os.Stat fs path = Ok (os.File data).
Proof.
  unfold os.ReadFile, os.Stat, os.statAt.
  destruct (os.walk fs (os.parents path) path) as [e|[d|]].
  - split; done.
  - split; by intros [= ->].
  - split; done.
Qed.

Lemma ReadFile_keeps fs fs' path data :
  os.keeps fs fs' ->
  os.ReadFile fs path = Ok data -> os.ReadFile fs' path = Ok data.
Proof. rewrite !ReadFile_Ok. apply Stat_keeps. Qed.

(** What [os.Mkdir] does. *)
Lemma mkdirAt_spec fs dirs path fs' r :
  os.mkdirAt fs dirs path = (fs', r) ->
  os.free fs' = os.free fs
  /\ match r with
     | Some _ => fs' = fs
     | None =>
         os.resolve fs dirs = None /\ os.files fs !! path = None
         /\ os.files fs' = <[path := os.Dir]> (os.files fs)
     end.
Proof.
  unfold os.mkdirAt. destruct (os.resolve fs dirs) as [e|].
  { by intros [= <- <-]. }
  destruct (os.files fs !! path) as [n|] eqn:Hp.
  { by intros [= <- <-]. }
  by intros [= <- <-].
Qed.

Lemma mkdirAt_keeps fs dirs path fs' r :
  os.mkdirAt fs dirs path = (fs', r) -> os.keeps fs fs'.
Proof.
  intros [_ H]%mkdirAt_spec. destruct r as [e|].
  - subst. apply keeps_refl.
  - destruct H as (_ & Hp & Hf). intros q n Hq. rewrite Hf.
    rewrite lookup_insert_ne; [done|]. congruence.
Qed.

Lemma mkdirAll_unfold ups fs path :
  os.mkdirAll ups fs path
  = match os.statAt fs (reverse ups) path with
    | Ok os.Dir => (fs, None)
    | Ok (os.File _) => (fs, Some (PathError "mkdir" path ENOTDIR))
    | Err _ =>
        let '(fs1, err) :=
          match ups with
          | [] => (fs, None)
          | parent :: ups' => os.mkdirAll ups' fs parent
          end in
        match err with
        | Some e => (fs1, Some e)
        | None =>
            match os.mkdirAt fs1 (reverse ups) path with
            | (fs2, Some e) =>
                match os.statAt fs2 (reverse ups) path with
                | Ok os.Dir => (fs2, None)
                | _ => (fs2, Some e)
                end
            | (fs2, None) => (fs2, None)
            end
        end
    end.
Proof. by destruct ups. Qed.

(** The last step of [os.MkdirAll]: [os.Mkdir], and a second look when
    it fails. *)
Lemma mkdir_step fs dirs path fs' r :
  match os.mkdirAt fs dirs path with
  | (fs2, Some e) =>
      match os.statAt fs2 dirs path with
      | Ok os.Dir => (fs2, None)
      | _ => (fs2, Some e)
      end
  | (fs2, None) => (fs2, None)
  end = (fs', r) ->
  os.free fs' = os.free fs
  /\ os.keeps fs fs'
  /\ (forall q, os.files fs' !! q = os.files fs !! q
                \/ (os.files fs !! q = None
                    /\ os.files fs' !! q = Some os.Dir /\ q = path))
  /\ (r = None -> os.statAt fs' dirs path = Ok os.Dir).
Proof.
  destruct (os.mkdirAt fs dirs path) as [fs2 r2] eqn:HM.
  pose proof (mkdirAt_keeps _ _ _ _ _ HM) as Hk.
  pose proof (mkdirAt_spec _ _ _ _ _ HM) as [Hfree Hs].
  destruct r2 as [e2|].
  - subst fs2.
    destruct (os.statAt fs dirs path) as [[d|]|e] eqn:HS; intros [= <- <-];
      (split; [done|]); (split; [done|]); (split; [by left|]); done.
  - intros [= <- <-]. split; [done|]. split; [done|].
    destruct Hs as (Hr & Hp & Hf). split.
    + intros q. rewrite Hf. destruct (decide (q = path)) as [->|Hne].
      * right. by rewrite lookup_insert_eq.
      * left. by rewrite lookup_insert_ne.
    + intros _. unfold os.statAt, os.walk.
      rewrite (resolve_keeps _ _ _ Hk Hr). by rewrite Hf, lookup_insert_eq.
Qed.

(** [os.MkdirAll] only adds directories, along the path, and takes no
    room from the data of files; when it succeeds, the directory is there
    and can be reached. *)
Lemma mkdirAll_spec ups fs path fs' r :
  os.mkdirAll ups fs path = (fs', r) ->
  os.free fs' = os.free fs
  /\ os.keeps fs fs'
  /\ (forall q, os.files fs' !! q = os.files fs !! q
                \/ (os.files fs !! q = None
                    /\ os.files fs' !! q = Some os.Dir
                    /\ q ∈ path :: ups))
  /\ (r = None -> os.statAt fs' (reverse ups) path = Ok os.Dir).
Proof.
  revert fs path fs' r. induction ups as [|parent ups IH];
    intros fs path fs' r; rewrite mkdirAll_unfold;
    (destruct (os.statAt fs _ path) as [[d|]|e] eqn:HS;
     [intros [= <- <-]; split; [done|]; split; [apply keeps_refl|];
      split; [by left|done]
     |intros [= <- <-]; split; [done|]; split; [apply keeps_refl|];
      split; [by left|done]
     |]).
  - cbv zeta beta iota. intros (Hfree & Hk & Hq & Hok)%mkdir_step.
    split; [done|]. split; [done|]. split; [|done].
    intros q. destruct (Hq q) as [?|(? & ? & ->)]; [by left|].
    right. split; [done|]. split; [done|]. left.
  - destruct (os.mkdirAll ups fs parent) as [fs1 r1] eqn:HR.
    destruct (IH _ _ _ _ HR) as (Hfree1 & Hk1 & Hq1 & _).
    assert (forall q, os.files fs1 !! q = os.files fs !! q
                      \/ (os.files fs !! q = None
                          /\ os.files fs1 !! q = Some os.Dir
                          /\ q ∈ path :: parent :: ups)) as Hq1'.
    { intros q. destruct (Hq1 q) as [?|(? & ? & ?)]; [by left|].
      right. split; [done|]. split; [done|]. by right. }
    cbv zeta beta iota. destruct r1 as [e1|].
    { intros [= <- <-]. done. }
    intros (Hfree & Hk & Hq & Hok)%mkdir_step.
    split; [congruence|]. split; [by eapply keeps_trans|]. split; [|done].
    intros q. destruct (Hq q) as [Heq|(Hn & Hd & ->)].
    + rewrite Heq. apply Hq1'.
    + right. split; [|split; [done|left]].
      destruct (Hq1 path) as [<-|(? & _)]; done.
Qed.

Lemma MkdirAll_keeps fs path fs' r :
  os.MkdirAll fs path = (fs', r) -> os.keeps fs fs'.
Proof. intros HM. by apply mkdirAll_spec in HM as (_ & ? & _). Qed.

Lemma MkdirAll_free fs path fs' r :
  os.MkdirAll fs path = (fs', r) -> os.free fs' = os.free fs.
Proof. intros HM. by apply mkdirAll_spec in HM as (? & _). Qed.

Lemma MkdirAll_files fs path fs' r q :
  os.MkdirAll fs path = (fs', r) ->
  os.files fs' !! q = os.files fs !! q
  \/ (os.files fs !! q = None /\ os.files fs' !! q = Some os.Dir
      /\ (q = path \/ q ∈ os.parents path)).
Proof.
  intros HM. apply mkdirAll_spec in HM as (_ & _ & H & _).
  destruct (H q) as [?|(? & ? & Hq)]; [by left|right].
  split; [done|]. split; [done|].
  apply elem_of_cons in Hq as [?|Hq]; [by left|right].
  by apply elem_of_reverse.
Qed.

Lemma MkdirAll_fileData fs path fs' r q :
  os.MkdirAll fs path = (fs', r) -> os.fileData fs' q = os.fileData fs q.
Proof.
  intros HM. unfold os.fileData.
  destruct (MkdirAll_files _ _ _ _ q HM) as [->|(-> & -> & _)]; done.
Qed.

Lemma MkdirAll_ok_dir fs path fs' :
  os.MkdirAll fs path = (fs', None) -> os.Stat fs' path = Ok os.Dir.
Proof.
  intros HM. apply mkdirAll_spec in HM as (_ & _ & _ & H).
  specialize (H eq_refl). by rewrite reverse_involutive in H.
Qed.

(** A directory that is there is left alone. *)
Lemma MkdirAll_there fs path :
  os.Stat fs path = Ok os.Dir -> os.MkdirAll fs path = (fs, None).
Proof.
  intros HS. unfold os.MkdirAll. rewrite mkdirAll_unfold, reverse_involutive.
  unfold os.Stat in HS. by rewrite HS.
Qed.

Lemma WriteFile_ok fs path data fs' :
  os.WriteFile fs path data = (fs', None) ->
  os.files fs' = <[path := os.File data]> (os.files fs)
  /\ os.free fs' = os.free fs
  /\ os.resolve fs (os.parents path) = None
  /\ os.files fs !! path <> Some os.Dir
  /\ String.length data <= os.free fs.
Proof.
  unfold os.WriteFile. destruct (os.resolve fs _) as [e|]; [done|].
  destruct (os.files fs !! path) as [[d|]|]; try done;
    case_decide; try done; by intros [= <-].
Qed.

Lemma WriteFile_fail fs path data fs' e :
  os.WriteFile fs path data = (fs', Some e) ->
  fs' = fs
  \/ (os.free fs < String.length data
      /\ e = PathError "write" path ENOSPC
      /\ os.resolve fs (os.parents path) = None
      /\ os.files fs'
         = <[path := os.File (String.substring 0 (os.free fs) data)]>
             (os.files fs)).
Proof.
  unfold os.WriteFile. destruct (os.resolve fs _) as [e'|].
  { intros [= <- _]. by left. }
  destruct (os.files fs !! path) as [[d|]|];
    try (intros [= <- _]; by left);
    (case_decide; [done|]; intros [= <- <-]; right;
     split; [lia|done]).
Qed.

(** What was written can be read. *)
Lemma WriteFile_ReadFile fs path data fs' :
  os.WriteFile fs path data = (fs', None) ->
  os.ReadFile fs' path = Ok data.
Proof.
  intros (Hf & _ & Hr & _)%WriteFile_ok.
  apply ReadFile_Ok, Stat_Ok. split.
  - rewrite <- Hr. apply resolve_ext. intros d Hd. rewrite Hf.
    apply lookup_insert_ne. intros ->. by apply parents_ne in Hd.
  - rewrite Hf. apply lookup_insert_eq.
Qed.

(** ** The snapshot store *)

Section ConfigFacts.

Variable filepath_Join : list string -> string.
Variable json_MarshalIndent : config.PlatformConfig -> result string.
Variable json_Unmarshal : string -> result config.PlatformConfig.

Local Abbreviation Read := (config.Read filepath_Join json_Unmarshal).
Local Abbreviation Write := (config.Write filepath_Join json_MarshalIndent).
Local Abbreviation ConfigPath := (config.ConfigPath filepath_Join).
Local Abbreviation joinsNested := (config.joinsNested filepath_Join).
Local Abbreviation roundTrips :=
  (config.roundTrips json_MarshalIndent json_Unmarshal).

Lemma Write_ok fs dir cfg fs' :
  joinsNested dir ->
  Write fs dir cfg = (fs', None) ->
  exists data,
    json_MarshalIndent cfg = Ok data
    /\ os.files fs' !! ConfigPath dir = Some (os.File data).
Proof.
  intros HJn. unfold config.Write.
  destruct (os.MkdirAll fs _) as [fs1 [e|]] eqn:HM; [done|].
  destruct (json_MarshalIndent cfg) as [data|e] eqn:HJ; [|done].
  destruct (os.WriteFile fs1 _ data) as [fs2 [e|]] eqn:HW; [done|].
  intros [= <-]. exists data. split; [done|].
  apply WriteFile_ok in HW as [-> _].
  unfold config.ConfigPath. rewrite HJn. apply lookup_insert_eq.
Qed.

Lemma Write_ok_ReadFile fs dir cfg fs' :
  joinsNested dir ->
  Write fs dir cfg = (fs', None) ->
  exists data,
    json_MarshalIndent cfg = Ok data
    /\ os.ReadFile fs' (ConfigPath dir) = Ok data.
Proof.
  intros HJn. unfold config.Write.
  destruct (os.MkdirAll fs _) as [fs1 [e|]] eqn:HM; [done|].
  destruct (json_MarshalIndent cfg) as [data|e] eqn:HJ; [|done].
  destruct (os.WriteFile fs1 _ data) as [fs2 [e|]] eqn:HW; [done|].
  intros [= <-]. exists data. split; [done|].
  unfold config.ConfigPath. rewrite <- HJn. by eapply WriteFile_ReadFile.
Qed.

Lemma Read_file fs dir data cfg :
  os.ReadFile fs (ConfigPath dir) = Ok data ->
  json_Unmarshal data = Ok cfg ->
  Read fs dir = Ok cfg.
Proof.
  intros Hf Hu. unfold config.Read.
  fold (ConfigPath dir). by rewrite Hf, Hu.
Qed.

Lemma Read_ok_file fs dir cfg :
  Read fs dir = Ok cfg ->
  exists data,
    os.ReadFile fs (ConfigPath dir) = Ok data
    /\ json_Unmarshal data = Ok cfg.
Proof.
  unfold config.Read. fold (ConfigPath dir).
  destruct (os.ReadFile fs (ConfigPath dir)) as [data|e]; simpl.
  - destruct (json_Unmarshal data) as [c|] eqn:E; [|done].
    intros [= <-]. eauto.
  - by destruct (os_IsNotExist e).
Qed.

Lemma Write_Read fs dir cfg fs' :
  joinsNested dir -> roundTrips cfg ->
  Write fs dir cfg = (fs', None) -> Read fs' dir = Ok cfg.
Proof.
  intros HJn Hrt HW.
  destruct (Write_ok_ReadFile _ _ _ _ HJn HW) as (data & HJ & Hf).
  eapply Read_file; eauto.
Qed.

Lemma Read_keeps fs fs' dir cfg :
  os.keeps fs fs' -> Read fs dir = Ok cfg -> Read fs' dir = Ok cfg.
Proof.
  intros Hk (data & Hf & Hu)%Read_ok_file.
  eapply Read_file; eauto using ReadFile_keeps.
Qed.

Lemma Read_after_MkdirAll fs dir cfg path fs' r :
  Read fs dir = Ok cfg ->
  os.MkdirAll fs path = (fs', r) ->
  Read fs' dir = Ok cfg.
Proof. intros HR HM. eapply Read_keeps; eauto using MkdirAll_keeps. Qed.

Lemma Read_missing fs dir e :
  os.ReadFile fs (ConfigPath dir) = Err e ->
  os_IsNotExist e = true ->
  Read fs dir
  = Err (errorString ("no config found at " +:+ ConfigPath dir +:+
                      " — is the platform installed?")).
Proof.
  intros Hf He. unfold config.Read. fold (ConfigPath dir).
  by rewrite Hf, He.
Qed.

Lemma Read_unreadable fs dir e :
  os.ReadFile fs (ConfigPath dir) = Err e ->
  os_IsNotExist e = false ->
  Read fs dir = Err (wrapError "read config: " e).
Proof.
  intros Hf He. unfold config.Read. fold (ConfigPath dir).
  by rewrite Hf, He.
Qed.

(** C8 (amended).  A [Write] serializes the complete record and hands it
    to one whole-file write: when it succeeds, the snapshot file holds
    exactly the serialization of the record passed to it, whatever was
    stored before, and reading it back returns that record (given that
    the record survives serialization).  The write
    is not atomic: when it fails, the snapshot file holds what it held
    before or a proper prefix of the new serialization. *)
Theorem Write_whole_record (fs : os.FS) (platformDir : string)
  (cfg : config.PlatformConfig) :
  joinsNested platformDir ->
  roundTrips cfg ->
  let '(fs', err) := Write fs platformDir cfg in
  match err with
  | None =>
      exists data,
        json_MarshalIndent cfg = Ok data
        /\ os.fileData fs' (ConfigPath platformDir) = Some data
        /\ Read fs' platformDir = Ok cfg
  | Some _ =>
      os.fileData fs' (ConfigPath platformDir)
      = os.fileData fs (ConfigPath platformDir)
      \/ exists data,
           json_MarshalIndent cfg = Ok data
           /\ os.free fs < String.length data
           /\ os.fileData fs' (ConfigPath platformDir)
              = Some (String.substring 0 (os.free fs) data)
  end.
Proof.
  intros HJn Hrt.
  destruct (Write fs platformDir cfg) as [fs' [e|]] eqn:HW.
  - revert HW. unfold config.Write.
    destruct (os.MkdirAll fs _) as [fs1 [e1|]] eqn:HM.
    { intros [= <- _]. left. by eapply MkdirAll_fileData. }
    destruct (json_MarshalIndent cfg) as [data|e2] eqn:HJ.
    2:{ intros [= <- _]. left. by eapply MkdirAll_fileData. }
    destruct (os.WriteFile fs1 _ data) as [fs2 [e3|]] eqn:HF; [|done].
    intros [= <- _].
    apply WriteFile_fail in HF as [->|(Hlt & _ & _ & Hfiles)].
    + left. by eapply MkdirAll_fileData.
    + right. exists data. split; [done|].
      pose proof (MkdirAll_free _ _ _ _ HM) as Hfree.
      rewrite <- Hfree. split; [done|].
      unfold os.fileData. rewrite Hfiles. unfold config.ConfigPath.
      rewrite HJn. by rewrite lookup_insert_eq.
  - destruct (Write_ok _ _ _ _ HJn HW) as (data & HJ & Hf).
    exists data. split; [done|]. split.
    + unfold os.fileData. by rewrite Hf.
    + by eapply Write_Read.
Qed.

End ConfigFacts.

(** ** Install *)

Section InstallFacts.

Context {St : Type}.
Variable filepath_Join : list string -> string.
Variable filepath_Abs : string -> string.
Variable json_MarshalIndent : config.PlatformConfig -> result string.
Variable json_Unmarshal : string -> result config.PlatformConfig.
Implicit Types (ins : installer.Installer St) (w : installer.World St).

Local Abbreviation Read := (config.Read filepath_Join json_Unmarshal).
Local Abbreviation Install :=
  (installer.Install filepath_Join filepath_Abs json_MarshalIndent).

Lemma Install_pmCalls ins sel m w :
  installer.pmCalls (installer.trace (Install ins sel m w).1)
  = installer.pmCalls (installer.trace w)
    ++ [installer.PMInstall (installer.PlatformDir sel)
          (installer.installPkgs sel m)].
Proof.
  rewrite Install_eq. cbv zeta.
  destruct (pm.err _) as [e|].
  - cbn [fst installer.trace].
    rewrite !pmCalls_app, pmCalls_stepEvents.
    change (installer.pmCalls (?c :: ?l))
      with (c :: installer.pmCalls l).
    by rewrite pmCalls_drainEvents.
  - destruct (config.Write _ _ _ _ _) as [fs [e|]].
    + cbn [fst installer.trace].
      rewrite !pmCalls_app, !pmCalls_stepEvents.
      change (installer.pmCalls (installer.PMInstall ?d ?p :: ?l))
        with (installer.PMInstall d p :: installer.pmCalls l).
      by rewrite pmCalls_drainEvents.
    + destruct (os.MkdirAll _ _) as [fs' [e|]];
        cbn [fst installer.trace];
        rewrite !pmCalls_app, !pmCalls_stepEvents;
        change (installer.pmCalls (installer.PMInstall ?d ?p :: ?l))
          with (installer.PMInstall d p :: installer.pmCalls l);
        by rewrite pmCalls_drainEvents.
Qed.

(** C2.  [Install] invokes the capability exactly once, an install with
    the list [installPkgs]; a reference is in that list exactly when it
    is the name of a core package or the package reference of a service
    or plugin whose id is among the chosen ids.  A chosen id [u] that
    matches no service (no plugin) changes nothing of what [Install]
    does, so it causes no error either; and listing an id a second time
    changes nothing: the chosen packages are a sublist of the
    components' package references, each component giving at most its
    one reference, and where ids are unique a component's id listed any
    number of times gives the one reference of that component. *)
Theorem Install_package_refs ins (sel : installer.Selection)
  (m : manifest.Manifest) w :
  installer.pmCalls (installer.trace (Install ins sel m w).1)
  = installer.pmCalls (installer.trace w)
    ++ [installer.PMInstall (installer.PlatformDir sel)
          (installer.installPkgs sel m)]
  /\ (forall p,
        p ∈ installer.installPkgs sel m <->
        (exists c, c ∈ manifest.Core m /\ manifest.Name c = p)
        \/ (exists c, c ∈ manifest.Services m
                      /\ manifest.ID c ∈ installer.Services sel
                      /\ manifest.Pkg c = p)
        \/ (exists c, c ∈ manifest.Plugins m
                      /\ manifest.ID c ∈ installer.Plugins sel
                      /\ manifest.Pkg c = p))
  /\ (forall u,
        u ∉ (manifest.ID <$> manifest.Services m) ->
        Install ins
          (installer.mkSelection (installer.PlatformDir sel)
             (installer.ProjectCWD sel) (u :: installer.Services sel)
             (installer.Plugins sel)) m w
        = Install ins sel m w)
  /\ (forall u,
        u ∉ (manifest.ID <$> manifest.Plugins m) ->
        Install ins
          (installer.mkSelection (installer.PlatformDir sel)
             (installer.ProjectCWD sel) (installer.Services sel)
             (u :: installer.Plugins sel)) m w
        = Install ins sel m w)
  /\ (forall comps id ids,
        installer.selectedPkgs comps (id :: id :: ids)
        = installer.selectedPkgs comps (id :: ids))
  /\ (forall comps ids,
        installer.selectedPkgs comps ids `sublist_of` (manifest.Pkg <$> comps))
  /\ (forall comps c n,
        NoDup (manifest.ID <$> comps) -> c ∈ comps ->
        installer.selectedPkgs comps (replicate (S n) (manifest.ID c))
        = [manifest.Pkg c]).
Proof.
  clear json_Unmarshal.
  split; [apply Install_pmCalls|].
  split; [apply installPkgs_elem|].
  split; [|split; [|split]].
  - intros u Hs. unfold installer.Install, installer.installPkgs.
    cbn [installer.Services installer.Plugins installer.PlatformDir
         installer.ProjectCWD].
    by rewrite selectedPkgs_unknown.
  - intros u Hp. unfold installer.Install, installer.installPkgs.
    cbn [installer.Services installer.Plugins installer.PlatformDir
         installer.ProjectCWD].
    by rewrite selectedPkgs_unknown.
  - intros comps id ids. apply selectedPkgs_ext. intros i.
    rewrite !elem_of_cons. tauto.
  - split; [apply selectedPkgs_sublist|apply selectedPkgs_repeated].
Qed.

(** C10.  The list [Install] builds is the core package names in
    manifest order, then the package references of the selected services
    in manifest order, then those of the selected plugins in manifest
    order.  It depends on the chosen ids only as sets.  Nothing is
    removed across groups: a reference that names a core package and is
    also that of a selected service or plugin is in the list at least
    twice. *)
Theorem Install_package_order (sel : installer.Selection)
  (m : manifest.Manifest) :
  installer.installPkgs sel m
  = (manifest.Name <$> manifest.Core m)
    ++ (manifest.Pkg <$>
          filter (fun c => manifest.ID c ∈ installer.Services sel)
                 (manifest.Services m))
    ++ (manifest.Pkg <$>
          filter (fun c => manifest.ID c ∈ installer.Plugins sel)
                 (manifest.Plugins m))
  /\ (forall sel' : installer.Selection,
        list_to_set (installer.Services sel')
          =@{gset string} list_to_set (installer.Services sel) ->
        list_to_set (installer.Plugins sel')
          =@{gset string} list_to_set (installer.Plugins sel) ->
        installer.installPkgs sel' m = installer.installPkgs sel m)
  /\ (forall p c,
        p ∈ manifest.Core m ->
        (c ∈ manifest.Services m /\ manifest.ID c ∈ installer.Services sel
         \/ c ∈ manifest.Plugins m /\ manifest.ID c ∈ installer.Plugins sel) ->
        manifest.Pkg c = manifest.Name p ->
        2 <= length (filter (fun r => r = manifest.Name p)
                            (installer.installPkgs sel m))).
Proof.
  split; [apply installPkgs_eq|]. split.
  - intros sel' Hs Hp. unfold installer.installPkgs. f_equal; [f_equal|].
    + apply selectedPkgs_ext. intros i.
      by rewrite <- !(elem_of_list_to_set (C:=gset string)), Hs.
    + apply selectedPkgs_ext. intros i.
      by rewrite <- !(elem_of_list_to_set (C:=gset string)), Hp.
  - intros p c Hp Hc Hpkg. rewrite installPkgs_eq, !list.filter_app, !length_app.
    assert (1 <= length (filter (fun r => r = manifest.Name p)
                           (manifest.Name <$> manifest.Core m))) as H1.
    { apply filter_eq_length, list_elem_of_fmap. eauto. }
    destruct Hc as [[Hc Hid]|[Hc Hid]].
    + assert (1 <= length (filter (fun r => r = manifest.Name p)
                (manifest.Pkg <$>
                   filter (fun c => manifest.ID c ∈ installer.Services sel)
                          (manifest.Services m)))) as H2; [|lia].
      apply filter_eq_length, list_elem_of_fmap. exists c.
      split; [done|]. by apply list_elem_of_filter.
    + assert (1 <= length (filter (fun r => r = manifest.Name p)
                (manifest.Pkg <$>
                   filter (fun c => manifest.ID c ∈ installer.Plugins sel)
                          (manifest.Plugins m)))) as H2; [|lia].
      apply filter_eq_length, list_elem_of_fmap. exists c.
      split; [done|]. by apply list_elem_of_filter.
Qed.

(** C3.  After a successful [Install] with manifest [m] at the platform
    directory of the selection, reading the snapshot there returns the
    record [Install] built: its manifest is [m] and its package-manager
    name is the capability's [Name].  (The libraries are taken to behave:
    the path joined in two steps is the path joined in one, and the
    record survives serialization.) *)
Theorem Install_snapshot_roundtrip ins (sel : installer.Selection)
  (m : manifest.Manifest) w w' (r : installer.Result) :
  config.joinsNested filepath_Join (installer.PlatformDir sel) ->
  config.roundTrips json_MarshalIndent json_Unmarshal
    (config.NewConfig filepath_Abs (installer.clock w')
       (installer.PlatformDir sel) (installer.ProjectCWD sel)
       (pm.Name (installer.PM ins)) m) ->
  Install ins sel m w = (w', Ok r) ->
  exists cfg,
    Read (installer.disk w') (installer.PlatformDir sel) = Ok cfg
    /\ config.Manifest cfg = m
    /\ config.PM cfg = pm.Name (installer.PM ins)
    /\ cfg = config.NewConfig filepath_Abs (installer.clock w')
               (installer.PlatformDir sel) (installer.ProjectCWD sel)
               (pm.Name (installer.PM ins)) m.
Proof.
  intros HJn Hrt. rewrite Install_eq. cbv zeta.
  destruct (pm.err _) as [e|]; [done|].
  destruct (config.Write _ _ _ _ _) as [fs [e|]] eqn:HW; [done|].
  destruct (os.MkdirAll _ _) as [fs' [e|]] eqn:HM; [done|].
  intros [= <- _]. cbn [installer.clock] in Hrt.
  eexists. split; [|split; [|split; [|reflexivity]]].
  2,3: done.
  cbn [installer.disk installer.clock].
  eapply Read_after_MkdirAll; [| exact HM].
  eapply Write_Read; eauto.
Qed.

End InstallFacts.

(** ** Update *)

Section UpdateFacts.

Context {St : Type}.
Variable filepath_Join : list string -> string.
Variable filepath_Abs : string -> string.
Variable json_MarshalIndent : config.PlatformConfig -> result string.
Variable json_Unmarshal : string -> result config.PlatformConfig.
Variable range_keys : gmap string bool -> list string.
Implicit Types (ins : installer.Installer St) (w : installer.World St).

Local Abbreviation ConfigPath := (config.ConfigPath filepath_Join).
Local Abbreviation Read := (config.Read filepath_Join json_Unmarshal).
Local Abbreviation Write := (config.Write filepath_Join json_MarshalIndent).
Local Abbreviation Install :=
  (installer.Install filepath_Join filepath_Abs json_MarshalIndent).
Local Abbreviation Diff :=
  (installer.Diff filepath_Join json_Unmarshal range_keys).
Local Abbreviation Update :=
  (installer.Update filepath_Join json_MarshalIndent json_Unmarshal
     range_keys).
Local Abbreviation updateStage :=
  (installer.updateStage filepath_Join json_MarshalIndent).

(** C6 (amended).  Where no snapshot can be read, [Diff] fails, and so
    does [Update], which has then done nothing but try to read the
    snapshot.  The error is the "no config found" error exactly when
    the snapshot path does not exist: the file, or a directory on the
    way to it, is missing.  When a regular file stands where the path
    needs a directory, or a directory stands at the path, the error
    is the one of the read, prefixed "read config: ". *)
Theorem Diff_requires_snapshot ins (platformDir : string)
  (current : manifest.Manifest) w (e : error) :
  os.ReadFile (installer.disk w) (ConfigPath platformDir) = Err e ->
  let notInstalled :=
    errorString ("no config found at " +:+ ConfigPath platformDir +:+
                 " — is the platform installed?") in
  let failure :=
    if os_IsNotExist e then notInstalled
    else wrapError "read config: " e in
  Diff platformDir current w
  = (installer.emit (installer.ConfigRead platformDir) w, Err failure)
  /\ Update ins platformDir current w
     = (installer.emit (installer.ConfigRead platformDir) w, Err failure)
  /\ (failure = notInstalled
      <-> os.walk (installer.disk w) (os.parents (ConfigPath platformDir))
            (ConfigPath platformDir) = inl ENOENT).
Proof.
  intros Hf. cbv zeta. rewrite Update_eq, Diff_eq. cbv zeta.
  assert (Read (installer.disk w) platformDir
          = Err (if os_IsNotExist e
                 then errorString ("no config found at "
                                   +:+ ConfigPath platformDir
                                   +:+ " — is the platform installed?")
                 else wrapError "read config: " e)) as ->.
  { destruct (os_IsNotExist e) eqn:He.
    - by apply Read_missing with e.
    - by apply Read_unreadable. }
  split; [done|]. split; [done|].
  revert Hf. unfold os.ReadFile.
  destruct (os.walk _ _ _) as [errno|[data|]]; [|done|].
  - intros [= <-]. destruct errno; simpl; split; done.
  - intros [= <-]. simpl. split; done.
Qed.

Lemma updateStage_pmCalls ins dir current cfg d start w0 :
  installer.pmCalls
    (installer.trace (updateStage ins dir current cfg d start w0).1)
  = installer.pmCalls (installer.trace w0)
    ++ [installer.PMUpdate dir (installer.updatePkgs current)].
Proof.
  unfold installer.updateStage, installer.refresh. cbv zeta.
  destruct (pm.err _) as [e|].
  - cbn [fst installer.trace]. rewrite pmCalls_app.
    change (installer.pmCalls (installer.PMUpdate ?d ?p :: ?l))
      with (installer.PMUpdate d p :: installer.pmCalls l).
    by rewrite pmCalls_drainEvents.
  - cbn [installer.trace installer.disk].
    destruct (config.Write _ _ _ _ _) as [fs [e|]];
      cbn [fst installer.trace]; rewrite !pmCalls_app;
      change (installer.pmCalls (installer.PMUpdate ?d ?p :: ?l))
        with (installer.PMUpdate d p :: installer.pmCalls l);
      rewrite pmCalls_drainEvents;
      change (installer.pmCalls [installer.ConfigRead ?a;
                                 installer.ConfigWrite ?b ?c]) with
        (@nil installer.Event);
      by rewrite app_nil_r.
Qed.

Lemma updateStage_fail ins dir current cfg d start w0 e :
  pm.err (pm.Update (installer.PM ins) dir (installer.updatePkgs current)
            (installer.pmst w0)) = Some e ->
  exists w1,
    updateStage ins dir current cfg d start w0
    = (w1, Err (wrapError "update packages: " e))
    /\ installer.disk w1 = installer.disk w0
    /\ installer.diskWrites (installer.trace w1)
       = installer.diskWrites (installer.trace w0).
Proof.
  intros He. unfold installer.updateStage. cbv zeta. rewrite He.
  eexists. split; [done|]. split; [done|].
  cbn [installer.trace]. rewrite diskWrites_app.
  change (installer.diskWrites (installer.PMUpdate ?d ?p :: ?l))
    with (installer.diskWrites l).
  by rewrite diskWrites_drainEvents, app_nil_r.
Qed.

Lemma updateStage_ok ins dir current cfg d start w0 w' r :
  updateStage ins dir current cfg d start w0 = (w', Ok r) ->
  exists fs,
    Write (installer.disk w0) dir (config.set_Manifest cfg current)
    = (fs, None)
    /\ installer.disk w' = fs.
Proof.
  unfold installer.updateStage, installer.refresh. cbv zeta.
  destruct (pm.err _) as [e|]; [done|].
  cbn [installer.disk].
  destruct (config.Write _ _ _ _ _) as [fs [e|]]; [done|].
  intros [= <- _]. eauto.
Qed.

(** C5.  When the capability's install fails during [Install], the
    result is that error wrapped as "install: ", the disk is as it was
    and no write of the snapshot or of the project directory was
    attempted.  When its install of the added packages fails during
    [Update], the result is the error wrapped as "add new packages: ";
    when its update fails, the error wrapped as "update packages: "; in
    both cases the disk is as it was and no write was attempted. *)
Theorem capability_failure_keeps_snapshot ins w :
  (forall (sel : installer.Selection) (m : manifest.Manifest) e,
      pm.err (pm.Install (installer.PM ins) (installer.PlatformDir sel)
                (installer.installPkgs sel m) (installer.pmst w)) = Some e ->
      exists w',
        Install ins sel m w = (w', Err (wrapError "install: " e))
        /\ installer.disk w' = installer.disk w
        /\ installer.diskWrites (installer.trace w')
           = installer.diskWrites (installer.trace w))
  /\ (forall (platformDir : string) (current : manifest.Manifest) cfg e,
        Read (installer.disk w) platformDir = Ok cfg ->
        let d := installer.diffOf range_keys (config.Manifest cfg) current in
        let oi := pm.Install (installer.PM ins) platformDir
                    (installer.Added d) (installer.pmst w) in
        (installer.Added d <> [] ->
         pm.err oi = Some e ->
         exists w',
           Update ins platformDir current w
           = (w', Err (wrapError "add new packages: " e))
           /\ installer.disk w' = installer.disk w
           /\ installer.diskWrites (installer.trace w')
              = installer.diskWrites (installer.trace w))
        /\ (installer.Added d <> [] ->
            pm.err oi = None ->
            pm.err (pm.Update (installer.PM ins) platformDir
                      (installer.updatePkgs current) (pm.next oi)) = Some e ->
            exists w',
              Update ins platformDir current w
              = (w', Err (wrapError "update packages: " e))
              /\ installer.disk w' = installer.disk w
              /\ installer.diskWrites (installer.trace w')
                 = installer.diskWrites (installer.trace w))
        /\ (installer.Added d = [] ->
            pm.err (pm.Update (installer.PM ins) platformDir
                      (installer.updatePkgs current) (installer.pmst w))
            = Some e ->
            exists w',
              Update ins platformDir current w
              = (w', Err (wrapError "update packages: " e))
              /\ installer.disk w' = installer.disk w
              /\ installer.diskWrites (installer.trace w')
                 = installer.diskWrites (installer.trace w))).
Proof.
  split.
  - intros sel m e He. rewrite Install_eq. cbv zeta. rewrite He.
    eexists. split; [done|]. split; [done|].
    cbn [installer.trace].
    rewrite !diskWrites_app, diskWrites_stepEvents.
    change (installer.diskWrites (installer.PMInstall ?d ?p :: ?l))
      with (installer.diskWrites l).
    by rewrite diskWrites_drainEvents, app_nil_r.
  - intros dir current cfg e HR d oi. rewrite Update_eq. cbv zeta.
    rewrite HR. fold d. fold oi.
    split; [|split].
    + intros Hne He. destruct (installer.Added d) eqn:Ha; [done|].
      rewrite He. eexists. split; [done|]. split; [done|].
      unfold installer.emit. cbn [installer.trace].
      rewrite !diskWrites_app.
      change (installer.diskWrites (installer.LogPrintf ?x
                :: installer.PMInstall ?y ?z :: ?l))
        with (installer.diskWrites l).
      rewrite diskWrites_drainEvents.
      change (installer.diskWrites [installer.ConfigRead ?a])
        with (@nil installer.Event).
      by rewrite !app_nil_r.
    + intros Hne Hi He. destruct (installer.Added d) eqn:Ha; [done|].
      rewrite Hi.
      edestruct updateStage_fail as (w1 & -> & Hd & Ht); [exact He|].
      eexists. split; [done|]. rewrite Hd, Ht. split; [done|].
      unfold installer.emit. cbn [installer.trace].
      rewrite !diskWrites_app.
      change (installer.diskWrites (installer.LogPrintf ?x
                :: installer.PMInstall ?y ?z :: ?l))
        with (installer.diskWrites l).
      rewrite diskWrites_drainEvents.
      change (installer.diskWrites [installer.ConfigRead ?a])
        with (@nil installer.Event).
      by rewrite !app_nil_r.
    + intros Ha He. rewrite Ha.
      edestruct updateStage_fail as (w1 & -> & Hd & Ht); [exact He|].
      eexists. split; [done|]. rewrite Hd, Ht. split; [done|].
      unfold installer.emit. cbn [installer.trace].
      rewrite !diskWrites_app.
      change (installer.diskWrites [installer.ConfigRead ?a])
        with (@nil installer.Event).
      by rewrite !app_nil_r.
Qed.

Hypothesis range_keys_perm : forall m, range_keys m ≡ₚ (map_to_list m).*1.

(** C7 (amended).  In an [Update] that finds a snapshot, the capability
    is invoked as follows.  When the added list of the diff is not
    empty, install is called with exactly that list (the references of
    the candidate manifest that the snapshot lacks); when it is empty,
    install is not called.  Then, unless that install failed, update is
    called with every core package name and every service and plugin
    package reference of the candidate manifest, whatever was
    selected. *)
Theorem Update_capability_calls ins (platformDir : string)
  (current : manifest.Manifest) w (cfg : config.PlatformConfig) :
  Read (installer.disk w) platformDir = Ok cfg ->
  let d := installer.diffOf range_keys (config.Manifest cfg) current in
  let oi := pm.Install (installer.PM ins) platformDir (installer.Added d)
              (installer.pmst w) in
  let all := (manifest.Name <$> manifest.Core current)
             ++ (manifest.Pkg <$> manifest.Services current)
             ++ (manifest.Pkg <$> manifest.Plugins current) in
  list_to_set (installer.Added d)
    = manifest.pkgRefs current ∖ manifest.pkgRefs (config.Manifest cfg)
  /\ installer.pmCalls
       (installer.trace (Update ins platformDir current w).1)
     = installer.pmCalls (installer.trace w)
       ++ match installer.Added d with
          | [] => [installer.PMUpdate platformDir all]
          | _ :: _ =>
              installer.PMInstall platformDir (installer.Added d)
              :: match pm.err oi with
                 | Some _ => []
                 | None => [installer.PMUpdate platformDir all]
                 end
          end.
Proof.
  intros HR d oi all. split.
  { apply (diffOf_sets range_keys range_keys_perm). }
  subst all. rewrite <- updatePkgs_eq.
  rewrite Update_eq. cbv zeta. rewrite HR. fold d. fold oi.
  destruct (installer.Added d) as [|a l] eqn:Ha.
  - rewrite updateStage_pmCalls. unfold installer.emit.
    cbn [installer.trace]. rewrite pmCalls_app.
    change (installer.pmCalls [installer.ConfigRead ?a])
      with (@nil installer.Event).
    by rewrite app_nil_r.
  - destruct (pm.err oi) as [e|].
    + cbn [fst installer.trace]. unfold installer.emit.
      cbn [installer.trace]. rewrite !pmCalls_app.
      change (installer.pmCalls (installer.LogPrintf ?x
                :: installer.PMInstall ?y ?z :: ?l))
        with (installer.PMInstall y z :: installer.pmCalls l).
      rewrite pmCalls_drainEvents.
      change (installer.pmCalls [installer.ConfigRead ?a])
        with (@nil installer.Event).
      by rewrite !app_nil_r.
    + rewrite updateStage_pmCalls. unfold installer.emit.
      cbn [installer.trace]. rewrite !pmCalls_app.
      change (installer.pmCalls (installer.LogPrintf ?x
                :: installer.PMInstall ?y ?z :: ?l))
        with (installer.PMInstall y z :: installer.pmCalls l).
      rewrite pmCalls_drainEvents.
      change (installer.pmCalls [installer.ConfigRead ?a])
        with (@nil installer.Event).
      rewrite !app_nil_r. by rewrite <- app_assoc.
Qed.

(** C4.  After a successful [Update] the stored snapshot is the one
    stored before with its manifest replaced by the candidate manifest:
    installedAt, platform, cwd, pm and the schema version are as
    before.  (The libraries are taken to behave as for [Install].) *)
Theorem Update_changes_only_manifest ins (platformDir : string)
  (current : manifest.Manifest) w w' (r : installer.UpdateResult) :
  config.joinsNested filepath_Join platformDir ->
  (forall cfg,
      Read (installer.disk w) platformDir = Ok cfg ->
      config.roundTrips json_MarshalIndent json_Unmarshal
        (config.set_Manifest cfg current)) ->
  Update ins platformDir current w = (w', Ok r) ->
  exists before after,
    Read (installer.disk w) platformDir = Ok before
    /\ Read (installer.disk w') platformDir = Ok after
    /\ after = config.set_Manifest before current
    /\ config.Manifest after = current
    /\ config.InstalledAt after = config.InstalledAt before
    /\ config.Platform after = config.Platform before
    /\ config.CWD after = config.CWD before
    /\ config.PM after = config.PM before
    /\ config.Version after = config.Version before.
Proof.
  intros HJn Hrt. rewrite Update_eq. cbv zeta.
  destruct (Read (installer.disk w) platformDir) as [cfg|e] eqn:HR; [|done].
  specialize (Hrt cfg eq_refl).
  intros HU. exists cfg, (config.set_Manifest cfg current).
  split; [done|]. split; [|done].
  assert (exists w0, installer.disk w0 = installer.disk w
            /\ updateStage ins platformDir current cfg
                 (installer.diffOf range_keys (config.Manifest cfg) current)
                 (installer.clock w) w0 = (w', Ok r)) as (w0 & Hd & Hs).
  { destruct (installer.Added _) as [|a l].
    - eexists. split; [|exact HU]. done.
    - destruct (pm.err _) as [e|]; [done|].
      eexists. split; [|exact HU]. done. }
  apply updateStage_ok in Hs as (fs & HW & ->).
  eapply Write_Read; eauto.
Qed.

End UpdateFacts.

(** ** Progress streaming *)

Lemma concat_all_nil {A} (ss : list (list A)) :
  Forall (fun s => s = []) ss -> concat ss = [].
Proof. induction 1 as [|s ss -> _ IH]; [done|]. done. Qed.

Lemma concat_take_head {A} (ss : list (list A)) i p ps :
  ss !! i = Some (p :: ps) -> concat ss ≡ₚ p :: concat (<[i := ps]> ss).
Proof.
  revert i. induction ss as [|a ss IH]; intros [|i] H; try done.
  - by simplify_eq/=.
  - simpl in *. rewrite (IH i H). by rewrite Permutation_middle.
Qed.

Lemma interleaving_perm {A} (ss : list (list A)) l :
  progress.interleaving ss l -> l ≡ₚ concat ss.
Proof.
  induction 1 as [ss H|ss i p ps l H _ IH].
  - by rewrite concat_all_nil.
  - by rewrite (concat_take_head ss i p ps H), IH.
Qed.

Lemma interleaving_single {A} (l0 l : list A) :
  progress.interleaving [l0] l -> l = l0.
Proof.
  intros H. remember [l0] as ss eqn:E. revert l0 E.
  induction H as [ss H|ss i p ps l H _ IH]; intros l0 ->.
  - by inversion H.
  - destruct i as [|i]; [|done]. simplify_eq/=.
    f_equal. by apply IH.
Qed.

Lemma logLines_app evs1 evs2 :
  progress.logLines (evs1 ++ evs2)
  = progress.logLines evs1 ++ progress.logLines evs2.
Proof. apply omap_app. Qed.

Lemma onLineLines_app evs1 evs2 :
  progress.onLineLines (evs1 ++ evs2)
  = progress.onLineLines evs1 ++ progress.onLineLines evs2.
Proof. apply omap_app. Qed.

Lemma nonEmptyLines_cons p sent :
  progress.nonEmptyLines (p :: sent)
  = if decide (pm.Line p = "") then progress.nonEmptyLines sent
    else pm.Line p :: progress.nonEmptyLines sent.
Proof.
  unfold progress.nonEmptyLines. rewrite fmap_cons, filter_cons.
  destruct (decide (pm.Line p = "")) as [E|E].
  - by rewrite decide_False by (by intros ?).
  - by rewrite decide_True.
Qed.

Lemma nonEmptyLines_perm sent1 sent2 :
  sent1 ≡ₚ sent2 ->
  progress.nonEmptyLines sent1 ≡ₚ progress.nonEmptyLines sent2.
Proof. intros H. unfold progress.nonEmptyLines. by rewrite H. Qed.

Lemma logLines_drainEvents {St} (ins : installer.Installer St) sent :
  progress.logLines (installer.drainEvents ins sent)
  = (fun l => "  " +:+ l) <$> progress.nonEmptyLines sent.
Proof.
  unfold installer.drainEvents.
  induction sent as [|p sent IH]; [done|].
  rewrite bind_cons, logLines_app, IH, nonEmptyLines_cons.
  destruct (decide (pm.Line p = "")); [done|].
  by destruct (installer.OnLine ins).
Qed.

Lemma onLineLines_drainEvents {St} (ins : installer.Installer St) sent :
  progress.onLineLines (installer.drainEvents ins sent)
  = if installer.OnLine ins then progress.nonEmptyLines sent else [].
Proof.
  unfold installer.drainEvents.
  induction sent as [|p sent IH].
  - by destruct (installer.OnLine ins).
  - rewrite bind_cons, onLineLines_app, IH, nonEmptyLines_cons.
    destruct (decide (pm.Line p = "")); [done|].
    by destruct (installer.OnLine ins).
Qed.

Section ProgressFacts.

Context {St : Type}.
Variable ins : installer.Installer St.
Variable scripts : list (list pm.Progress).
Variable w0 : installer.World St.

Local Abbreviation step := (progress.step ins).
Local Abbreviation steps := (progress.steps ins).

Local Abbreviation Inv := (progress.Inv ins scripts w0).

Lemma Inv_init : Inv (progress.init scripts w0).
Proof.
  unfold progress.Inv, progress.init. simpl. split.
  - exists []. split; [done|]. intros rest Hrest. exact Hrest.
  - repeat split; try done; lia.
Qed.

Lemma Inv_step s s' : Inv s -> step s s' -> Inv s'.
Proof.
  intros ((recvd & Hw & Hi) & Hcap & Hop & Hdr & Hret) Hs.
  destruct Hs; simpl in *; unfold progress.Inv; simpl;
    (split; [|split; [|split; [|split]]]); try done.
  - exists recvd. split; [done|]. intros rest Hrest.
    rewrite <- app_assoc. simpl. apply Hi.
    by eapply progress.interleaving_next.
  - rewrite length_app. simpl. unfold progress.capacity in *. lia.
  - by exists recvd.
  - intros Hd. by destruct (Hdr Hd) as [_ [?|?]].
  - by exists recvd.
  - intros _. by apply Hop.
  - intros Hd. by destruct (Hdr Hd) as [_ [?|?]].
  - exists (recvd ++ [p]). split.
    + by rewrite foldl_app, <- Hw.
    + intros rest Hrest. rewrite <- app_assoc. simpl. by apply Hi.
  - lia.
  - by exists recvd.
  - intros _. split; [done|by left].
  - by exists recvd.
  - intros _. by apply Hop.
  - intros _. split; [by apply Hdr|by right].
Qed.

Lemma Inv_steps s : steps (progress.init scripts w0) s -> Inv s.
Proof.
  intros H. unfold progress.steps in H.
  apply (rtc_ind_r (R:=progress.step ins) Inv (progress.init scripts w0));
    eauto using Inv_init, Inv_step.
Qed.

Lemma step_measure s s' :
  step s s' -> progress.measure s' < progress.measure s.
Proof.
  intros Hs. destruct Hs; unfold progress.measure; simpl;
    try lia; try (destruct d; lia).
  pose proof (Permutation_length (concat_take_head ss i p ps H)) as Hl.
  simpl in Hl. rewrite length_app. simpl. lia.
Qed.

Lemma no_deadlock s :
  Inv s -> progress.main s <> progress.Returned -> exists s', step s s'.
Proof.
  intros ((recvd & Hw & Hi) & Hcap & Hop & Hdr & Hret) Hm.
  destruct s as [ss m b d w]. simpl in *. destruct m; try done.
  - (* the operation is running *)
    destruct d.
    { destruct (Hdr eq_refl) as [_ [?|?]]; done. }
    destruct (decide (Forall (fun l => l = []) ss)) as [Hall|Hsome].
    { eexists. by apply progress.step_op_return. }
    destruct b as [|p b].
    + apply not_Forall_Exists in Hsome; [|intros l; apply _].
      apply list.Exists_exists in Hsome as (l & Hin & Hne).
      apply list_elem_of_lookup in Hin as [i Hi'].
      destruct l as [|q l]; [by destruct Hne|].
      eexists. eapply (progress.step_send _ i q l); [done|].
      simpl. unfold progress.capacity. lia.
    + eexists. apply progress.step_recv.
  - eexists. apply progress.step_close.
  - destruct d.
    + eexists. apply progress.step_return.
    + destruct b as [|p b].
      * eexists. apply progress.step_drain_exit.
      * eexists. apply progress.step_recv.
Qed.

Lemma run_reaches_return s :
  Inv s -> exists s', steps s s' /\ progress.main s' = progress.Returned.
Proof.
  remember (progress.measure s) as n eqn:Hn. revert s Hn.
  induction n as [n IH] using lt_wf_ind. intros s -> HI.
  destruct (decide (progress.main s = progress.Returned)) as [Hr|Hr].
  - exists s. split; [apply rtc_refl|done].
  - destruct (no_deadlock s HI Hr) as [s1 Hs1].
    destruct (IH (progress.measure s1) (step_measure _ _ Hs1) s1 eq_refl
                (Inv_step _ _ HI Hs1)) as (s' & Hs' & Hret).
    exists s'. split; [|done]. by eapply rtc_l.
Qed.

(** With one sender the drain goroutine handles the values in the order
    they were sent: the world [runGroup] returns in is the one the
    sequential [installer.runGroup] computes. *)
Lemma runGroup_single_sender sent s :
  scripts = [sent] ->
  steps (progress.init scripts w0) s ->
  progress.main s = progress.Returned ->
  progress.world s = foldl (installer.drain1 ins) w0 sent.
Proof.
  intros Hsc Hs Hret.
  destruct (Inv_steps s Hs) as ((recvd & Hw & Hi) & _ & Hop & Hdr & Hr).
  specialize (Hr Hret). destruct (Hdr Hr) as [Hb _].
  assert (Forall (fun l => l = []) (progress.senders s)) as Hall.
  { apply Hop. by rewrite Hret. }
  specialize (Hi [] (progress.interleaving_done _ Hall)).
  rewrite Hb, !app_nil_r, Hsc in Hi.
  apply interleaving_single in Hi. by rewrite Hw, Hi.
Qed.

(** C9.  Whatever the interleaving of the sending goroutines, the drain
    goroutine and the caller: when [runGroup] has returned, the channel
    is empty, the drain goroutine has finished and every sender is done;
    the values it handled are a merge of what the senders sent; the log
    received exactly the non-empty lines among them, each once, and so
    did [OnLine] when it is set.  A run cannot get stuck before
    [runGroup] returns, every step brings the return closer, and from
    every state of a run the return can be reached. *)
Theorem runGroup_forwards_every_line :
  (forall s,
      steps (progress.init scripts w0) s ->
      progress.main s = progress.Returned ->
      progress.buf s = [] /\ progress.drained s = true
      /\ Forall (fun l => l = []) (progress.senders s)
      /\ exists sent,
           progress.interleaving scripts sent
           /\ progress.world s = foldl (installer.drain1 ins) w0 sent
           /\ progress.logLines (installer.trace (progress.world s))
              = progress.logLines (installer.trace w0)
                ++ ((fun l => "  " +:+ l) <$> progress.nonEmptyLines sent)
           /\ progress.onLineLines (installer.trace (progress.world s))
              = progress.onLineLines (installer.trace w0)
                ++ (if installer.OnLine ins
                    then progress.nonEmptyLines sent else [])
           /\ progress.nonEmptyLines sent
              ≡ₚ progress.nonEmptyLines (concat scripts))
  /\ (forall s,
        steps (progress.init scripts w0) s ->
        progress.main s <> progress.Returned ->
        exists s', step s s')
  /\ (forall s s', step s s' -> progress.measure s' < progress.measure s)
  /\ (forall s,
        steps (progress.init scripts w0) s ->
        exists s', steps s s' /\ progress.main s' = progress.Returned).
Proof.
  split; [|split; [|split]].
  - intros s Hs Hret.
    destruct (Inv_steps s Hs) as ((recvd & Hw & Hi) & _ & Hop & Hdr & Hr).
    specialize (Hr Hret). destruct (Hdr Hr) as [Hb _].
    assert (Forall (fun l => l = []) (progress.senders s)) as Hall.
    { apply Hop. by rewrite Hret. }
    split; [done|]. split; [done|]. split; [done|].
    exists recvd.
    assert (progress.interleaving scripts recvd) as Hint.
    { specialize (Hi [] (progress.interleaving_done _ Hall)).
      by rewrite Hb, !app_nil_r in Hi. }
    split; [done|]. split; [done|].
    rewrite Hw, drain_eq. cbn [installer.trace].
    rewrite logLines_app, onLineLines_app, logLines_drainEvents,
      onLineLines_drainEvents.
    split; [done|]. split; [done|].
    apply nonEmptyLines_perm. by apply interleaving_perm.
  - intros s Hs Hm. eapply no_deadlock; eauto using Inv_steps.
  - apply step_measure.
  - intros s Hs. apply run_reaches_return. by apply Inv_steps.
Qed.

End ProgressFacts.

(** The senders of [NpmManager.run] never send an empty line: the drain
    goroutine drops nothing of what they send. *)
Lemma pipe_nonEmptyLines (strings_TrimSpace : string -> string) lines :
  strings_TrimSpace "" = "" ->
  progress.nonEmptyLines (pm.pipe strings_TrimSpace lines)
  = filter (fun line => strings_TrimSpace line <> "") lines.
Proof.
  intros Hempty. unfold progress.nonEmptyLines, pm.pipe.
  rewrite <- list_fmap_compose.
  induction lines as [|l lines IH]; [done|].
  rewrite filter_cons. case_decide as Hl; [|done].
  rewrite fmap_cons, filter_cons. simpl.
  rewrite decide_True; [by rewrite IH|].
  intros ->. by apply Hl.
Qed.

(** ** The stand-ins meet the contracts *)

Lemma refimpl_Join_nested dir : config.joinsNested refimpl.Join dir.
Proof.
  unfold config.joinsNested, refimpl.Join. cbn [installer.strings_Join].
  by rewrite !string_app_assoc.
Qed.

Lemma readPos_writePos p : refimpl.readPos (refimpl.writePos p) = Some p.
Proof. induction p as [p IH|p IH|]; simpl; by rewrite ?IH. Qed.

Lemma refimpl_roundTrips cfg :
  config.roundTrips refimpl.MarshalIndent refimpl.Unmarshal cfg.
Proof.
  unfold config.roundTrips, refimpl.MarshalIndent, refimpl.Unmarshal.
  intros data [= <-].
  rewrite readPos_writePos. simpl. by rewrite decode_encode.
Qed.

Lemma refimpl_Marshal_readable cfg data :
  refimpl.MarshalIndent cfg = Ok data -> is_Some (refimpl.readPos data).
Proof.
  unfold refimpl.MarshalIndent. intros [= <-].
  rewrite readPos_writePos. by eexists.
Qed.

Lemma refimpl_range_keys_perm (m : gmap string bool) :
  refimpl.range_keys m ≡ₚ (map_to_list m).*1.
Proof. done. Qed.

(** ** The specification's sentences on concrete runs *)

(** The scenarios of the specification. *)

Example scenario_defaults_ignored :
  installer.installPkgs (installer.mkSelection "/opt/kb" "/home/u/app" [] [])
    sample.m_AB = ["A"].
Proof. reflexivity. Qed.

Example scenario_diff :
  (sample.Diff "/opt/kb" sample.m_AC sample.w1).2
  = Ok (installer.mkUpdateDiff ["A"] ["C"] ["B"]).
Proof. by vm_compute. Qed.

Example scenario_no_snapshot :
  errorText
    match (sample.Diff "/opt/kb" sample.m_AC sample.w0).2 with
    | Err e => e
    | Ok _ => errorString ""
    end
  = "no config found at /opt/kb/.kb/kb.config.json — is the platform installed?".
Proof. by vm_compute. Qed.

Example scenario_fakePM_calls :
  fakePM.calls (installer.pmst sample.w2)
  = ["install:A"; "install:B"; "install:C"; "update:A"; "update:C"].
Proof. by vm_compute. Qed.

(** An [Update] whose snapshot rewrite runs out of space: the error of
    [Write] is returned as it is, and the snapshot that was stored can no
    longer be read. *)
Example scenario_update_on_full_disk :
  let w := installer.mkWorld sample.fullDisk 2000 sample.npm [] in
  let after := sample.Update sample.ins "/opt/kb" sample.m_AB w in
  sample.Read (installer.disk w) "/opt/kb" = Ok sample.cfg1
  /\ after.2 = Err (wrapError "write config: "
                      (PathError "write" "/opt/kb/.kb/kb.config.json" ENOSPC))
  /\ sample.Read (installer.disk after.1) "/opt/kb"
     = Err (wrapError "parse config: "
              (errorString "unexpected end of JSON input")).
Proof. cbv zeta. repeat split; by vm_compute. Qed.

(** C7, as the specification states it, fails: not every [Update] run
    reaches the capability's update.  A snapshot is stored and the install
    of the added package C fails; [Update] returns the wrapped error and
    the capability was asked to install C, never to update. *)
Lemma Update_stops_after_failed_install :
  let w := sample.withPM sample.w1 (sample.npmFailingOn "C") in
  let after := sample.Update sample.ins "/opt/kb" sample.m_AC w in
  sample.Read (installer.disk w) "/opt/kb" = Ok sample.cfg1
  /\ installer.pmCalls (installer.trace w)
     = [installer.PMInstall "/opt/kb" ["A"; "B"]]
  /\ after.2 = Err (wrapError "add new packages: " sample.exit1)
  /\ installer.pmCalls (installer.trace after.1)
     = [installer.PMInstall "/opt/kb" ["A"; "B"];
        installer.PMInstall "/opt/kb" ["C"]].
Proof. cbv zeta. repeat split; by vm_compute. Qed.

(** C8, as the specification states it, fails: a snapshot is stored, the
    volume has room for three more bytes, and [Write] of a new record
    leaves a three-byte file where the snapshot was.  That file is the
    serialization of no record, and reading it is a parse error. *)
Lemma Write_partial_snapshot :
  let path := "/opt/kb/.kb/kb.config.json" in
  let cfg := config.set_Manifest sample.cfg1 sample.m_AC in
  let after := sample.Write sample.fullDisk "/opt/kb" cfg in
  sample.Read sample.fullDisk "/opt/kb" = Ok sample.cfg1
  /\ after.2 = Some (wrapError "write config: " (PathError "write" path ENOSPC))
  /\ os.files after.1 !! path = Some (os.File "001")
  /\ (forall c, refimpl.MarshalIndent c <> Ok "001")
  /\ sample.Read after.1 "/opt/kb"
     = Err (wrapError "parse config: "
              (errorString "unexpected end of JSON input")).
Proof.
  cbv zeta. split; [by vm_compute|]. split; [by vm_compute|].
  split; [by vm_compute|]. split; [|by vm_compute].
  intros c Hc. by destruct (refimpl_Marshal_readable c _ Hc).
Qed.

(** C6, as the specification states it, fails: no snapshot exists at a
    platform directory whose [.kb] is a regular file, nor at one where a
    directory has the name of the snapshot file, and there [Diff] and
    [Update] fail with the error of the read, not with the "no config
    found" error. *)
Lemma Diff_unreadable_is_not_missing :
  let path := "/opt/kb/.kb/kb.config.json" in
  let w := installer.mkWorld sample.kbIsFile 1000 sample.npm [] in
  let w' := installer.mkWorld sample.snapshotIsDir 1000 sample.npm [] in
  os.fileData sample.kbIsFile path = None
  /\ (sample.Diff "/opt/kb" sample.m_AC w).2
     = Err (wrapError "read config: " (PathError "open" path ENOTDIR))
  /\ (sample.Update sample.ins "/opt/kb" sample.m_AC w).2
     = Err (wrapError "read config: " (PathError "open" path ENOTDIR))
  /\ os.fileData sample.snapshotIsDir path = None
  /\ (sample.Diff "/opt/kb" sample.m_AC w').2
     = Err (wrapError "read config: " (PathError "read" path EISDIR))
  /\ (sample.Update sample.ins "/opt/kb" sample.m_AC w').2
     = Err (wrapError "read config: " (PathError "read" path EISDIR)).
Proof. cbv zeta. repeat split; by vm_compute. Qed.

Lemma Diff_set_algebra_witness :
  sample.Read (installer.disk sample.w1) "/opt/kb" = Ok sample.cfg1
  /\ exists d,
       (sample.Diff "/opt/kb" sample.m_AC sample.w1).2 = Ok d
       /\ list_to_set (installer.Added d)
          =@{gset string} manifest.pkgRefs sample.m_AC ∖ manifest.pkgRefs sample.m_AB
       /\ (installer.HasChanges d = true <->
           list_to_set (installer.Added d) ∪ list_to_set (installer.Removed d)
             ∪ list_to_set (installer.Updated d) <> (∅ : gset string)).
Proof.
  assert (sample.Read (installer.disk sample.w1) "/opt/kb" = Ok sample.cfg1)
    as HR by (by vm_compute).
  split; [exact HR|].
  destruct (Diff_set_algebra refimpl.Join refimpl.Unmarshal refimpl.range_keys
              refimpl_range_keys_perm sample.w1 "/opt/kb" sample.m_AC
              sample.cfg1 HR) as (d & Hd & Ha & _ & _ & _ & _ & _ & _ & _ & _ & Hc).
  exists d. split; [exact Hd|]. split; [exact Ha|exact Hc].
Defined.

Lemma pair_of_snd {A B} (p : A * B) (b : B) : p.2 = b -> p = (p.1, b).
Proof. destruct p. simpl. by intros ->. Qed.

Lemma Install_package_refs_witness :
  ("ghost" ∉ (manifest.ID <$> manifest.Services sample.m_AB))
  /\ ("ghost" ∉ (manifest.ID <$> manifest.Plugins sample.m_AB))
  /\ sample.Install sample.ins
       (installer.mkSelection "/opt/kb" "/home/u/app" ["ghost"; "s1"] [])
       sample.m_AB sample.w0
     = sample.Install sample.ins sample.sel sample.m_AB sample.w0
  /\ sample.Install sample.ins
       (installer.mkSelection "/opt/kb" "/home/u/app" ["s1"] ["ghost"])
       sample.m_AB sample.w0
     = sample.Install sample.ins sample.sel sample.m_AB sample.w0
  /\ installer.pmCalls (installer.trace sample.w1)
     = [installer.PMInstall "/opt/kb"
          (installer.installPkgs sample.sel sample.m_AB)]
  /\ installer.selectedPkgs (manifest.Services sample.m_AB) ["s1"; "s1"; "s1"]
     = ["B"].
Proof.
  assert ("ghost" ∉ (manifest.ID <$> manifest.Services sample.m_AB)) as H1
    by compute_done.
  assert ("ghost" ∉ (manifest.ID <$> manifest.Plugins sample.m_AB)) as H2
    by compute_done.
  destruct (Install_package_refs refimpl.Join refimpl.Abs
              refimpl.MarshalIndent sample.ins sample.sel sample.m_AB
              sample.w0) as (Hc & _ & Hs & Hp & _ & _ & Hrep).
  assert (NoDup (manifest.ID <$> manifest.Services sample.m_AB)) as Hnd
    by compute_done.
  assert (manifest.mkComponent "s1" "B" "service" true
            ∈ manifest.Services sample.m_AB) as Hin by compute_done.
  split; [exact H1|]. split; [exact H2|].
  split; [exact (Hs "ghost" H1)|]. split; [exact (Hp "ghost" H2)|].
  split; [exact Hc|].
  exact (Hrep (manifest.Services sample.m_AB)
           (manifest.mkComponent "s1" "B" "service" true) 2 Hnd Hin).
Defined.

Lemma Install_package_order_witness :
  manifest.mkPackage "A" ∈ manifest.Core sample.m_dup
  /\ manifest.mkComponent "s1" "A" "service" true
       ∈ manifest.Services sample.m_dup
  /\ "s1" ∈ installer.Services sample.sel
  /\ 2 <= length (filter (fun r => r = "A")
                         (installer.installPkgs sample.sel sample.m_dup))
  /\ installer.installPkgs
       (installer.mkSelection "" "" ["s1"; "s1"] []) sample.m_dup
     = installer.installPkgs sample.sel sample.m_dup.
Proof.
  assert (manifest.mkPackage "A" ∈ manifest.Core sample.m_dup) as H1
    by compute_done.
  assert (manifest.mkComponent "s1" "A" "service" true
            ∈ manifest.Services sample.m_dup) as H2 by compute_done.
  assert ("s1" ∈ installer.Services sample.sel) as H3 by compute_done.
  destruct (Install_package_order sample.sel sample.m_dup) as (_ & Hs & Hd).
  split; [exact H1|]. split; [exact H2|]. split; [exact H3|]. split.
  - exact (Hd (manifest.mkPackage "A")
              (manifest.mkComponent "s1" "A" "service" true) H1
              (or_introl (conj H2 H3)) eq_refl).
  - apply Hs; cbn; set_solver.
Defined.

Lemma Install_snapshot_roundtrip_witness :
  config.joinsNested refimpl.Join "/opt/kb"
  /\ config.roundTrips refimpl.MarshalIndent refimpl.Unmarshal sample.cfg1
  /\ sample.Install sample.ins sample.sel sample.m_AB sample.w0
     = (sample.w1,
        Ok (installer.mkResult "/opt/kb" "/home/u/app"
              "/opt/kb/.kb/kb.config.json" 0))
  /\ exists cfg,
       sample.Read (installer.disk sample.w1) "/opt/kb" = Ok cfg
       /\ config.Manifest cfg = sample.m_AB
       /\ config.PM cfg = "npm".
Proof.
  assert (config.joinsNested refimpl.Join "/opt/kb") as HJ by reflexivity.
  pose proof (refimpl_roundTrips sample.cfg1) as Hrt.
  assert (sample.Install sample.ins sample.sel sample.m_AB sample.w0
          = (sample.w1,
             Ok (installer.mkResult "/opt/kb" "/home/u/app"
                   "/opt/kb/.kb/kb.config.json" 0))) as HI
    by (apply pair_of_snd; vm_compute; reflexivity).
  split; [exact HJ|]. split; [exact Hrt|]. split; [exact HI|].
  destruct (Install_snapshot_roundtrip refimpl.Join refimpl.Abs
              refimpl.MarshalIndent refimpl.Unmarshal sample.ins sample.sel
              sample.m_AB sample.w0 sample.w1 _ HJ Hrt HI)
    as (cfg & HR & Hm & Hp & _).
  exists cfg. split; [exact HR|]. split; [exact Hm|exact Hp].
Defined.

Lemma Update_changes_only_manifest_witness :
  config.joinsNested refimpl.Join "/opt/kb"
  /\ sample.Update sample.ins "/opt/kb" sample.m_AC sample.w1
     = (sample.w2,
        Ok (installer.mkUpdateResult
              (installer.mkUpdateDiff ["A"] ["C"] ["B"]) 0))
  /\ exists before after,
       sample.Read (installer.disk sample.w1) "/opt/kb" = Ok before
       /\ sample.Read (installer.disk sample.w2) "/opt/kb" = Ok after
       /\ config.Manifest after = sample.m_AC
       /\ config.InstalledAt after = config.InstalledAt before.
Proof.
  assert (config.joinsNested refimpl.Join "/opt/kb") as HJ by reflexivity.
  assert (sample.Update sample.ins "/opt/kb" sample.m_AC sample.w1
          = (sample.w2,
             Ok (installer.mkUpdateResult
                   (installer.mkUpdateDiff ["A"] ["C"] ["B"]) 0))) as HU
    by (apply pair_of_snd; vm_compute; reflexivity).
  split; [exact HJ|]. split; [exact HU|].
  destruct (Update_changes_only_manifest refimpl.Join refimpl.MarshalIndent
              refimpl.Unmarshal refimpl.range_keys sample.ins "/opt/kb"
              sample.m_AC sample.w1 sample.w2 _ HJ
              (fun cfg _ => refimpl_roundTrips _) HU)
    as (before & after & Hb & Ha & _ & Hm & Ht & _).
  exists before, after. split; [exact Hb|]. split; [exact Ha|].
  split; [exact Hm|exact Ht].
Defined.

Lemma Diff_requires_snapshot_witness :
  let path := "/opt/kb/.kb/kb.config.json" in
  let notInstalled :=
    errorString ("no config found at /opt/kb/.kb/kb.config.json" +:+
                 " — is the platform installed?") in
  os.ReadFile (installer.disk sample.w0) path
  = Err (PathError "open" path ENOENT)
  /\ sample.Diff "/opt/kb" sample.m_AC sample.w0
     = (installer.emit (installer.ConfigRead "/opt/kb") sample.w0,
        Err notInstalled)
  /\ sample.Update sample.ins "/opt/kb" sample.m_AC sample.w0
     = (installer.emit (installer.ConfigRead "/opt/kb") sample.w0,
        Err notInstalled).
Proof.
  cbv zeta.
  assert (os.ReadFile (installer.disk sample.w0)
            (config.ConfigPath refimpl.Join "/opt/kb")
          = Err (PathError "open" "/opt/kb/.kb/kb.config.json" ENOENT)) as H
    by (by vm_compute).
  destruct (Diff_requires_snapshot refimpl.Join refimpl.MarshalIndent
              refimpl.Unmarshal refimpl.range_keys sample.ins "/opt/kb"
              sample.m_AC sample.w0 _ H) as (Hd & Hu & _).
  split; [exact H|]. split; [exact Hd|exact Hu].
Defined.

Lemma Update_capability_calls_witness :
  sample.Read (installer.disk sample.w1) "/opt/kb" = Ok sample.cfg1
  /\ installer.pmCalls (installer.trace sample.w2)
     = installer.pmCalls (installer.trace sample.w1)
       ++ [installer.PMInstall "/opt/kb" ["C"];
           installer.PMUpdate "/opt/kb" ["A"; "C"]].
Proof.
  assert (sample.Read (installer.disk sample.w1) "/opt/kb" = Ok sample.cfg1)
    as HR by (by vm_compute).
  split; [exact HR|].
  destruct (Update_capability_calls refimpl.Join refimpl.MarshalIndent
              refimpl.Unmarshal refimpl.range_keys refimpl_range_keys_perm
              sample.ins "/opt/kb" sample.m_AC sample.w1 sample.cfg1 HR)
    as [_ Hc].
  exact Hc.
Defined.

Lemma capability_failure_keeps_snapshot_witness :
  (* Install: the capability's install fails on package A *)
  (exists w',
      sample.Install sample.ins sample.sel sample.m_AB
        (sample.withPM sample.w0 (sample.npmFailingOn "A"))
      = (w', Err (wrapError "install: " sample.exit1))
      /\ installer.disk w' = installer.disk sample.w0)
  (* Update: the install of the added package C fails *)
  /\ (exists w',
        sample.Update sample.ins "/opt/kb" sample.m_AC
          (sample.withPM sample.w1 (sample.npmFailingOn "C"))
        = (w', Err (wrapError "add new packages: " sample.exit1))
        /\ installer.disk w' = installer.disk sample.w1)
  (* Update: C is installed, then the capability's update fails *)
  /\ (exists w',
        sample.Update sample.insNoUpdate "/opt/kb" sample.m_AC
          (sample.withPM sample.w1 tt)
        = (w', Err (wrapError "update packages: " sample.exit1))
        /\ installer.disk w' = installer.disk sample.w1)
  (* Update: nothing to add, and the capability's update fails *)
  /\ (exists w',
        sample.Update sample.insNoUpdate "/opt/kb" sample.m_AB
          (sample.withPM sample.w1 tt)
        = (w', Err (wrapError "update packages: " sample.exit1))
        /\ installer.disk w' = installer.disk sample.w1
        /\ installer.diskWrites (installer.trace w')
           = installer.diskWrites (installer.trace sample.w1)).
Proof.
  assert (sample.Read (installer.disk sample.w1) "/opt/kb" = Ok sample.cfg1)
    as HR by (by vm_compute).
  split; [|split; [|split]].
  - destruct (capability_failure_keeps_snapshot refimpl.Join refimpl.Abs
                refimpl.MarshalIndent refimpl.Unmarshal refimpl.range_keys
                sample.ins (sample.withPM sample.w0 (sample.npmFailingOn "A")))
      as [HI _].
    destruct (HI sample.sel sample.m_AB sample.exit1 eq_refl)
      as (w' & Hr & Hd & _).
    exists w'. split; [exact Hr|exact Hd].
  - destruct (capability_failure_keeps_snapshot refimpl.Join refimpl.Abs
                refimpl.MarshalIndent refimpl.Unmarshal refimpl.range_keys
                sample.ins (sample.withPM sample.w1 (sample.npmFailingOn "C")))
      as [_ HU].
    destruct (HU "/opt/kb" sample.m_AC sample.cfg1 sample.exit1 HR)
      as (Hadd & _ & _).
    assert (installer.Added
              (installer.diffOf refimpl.range_keys
                 (config.Manifest sample.cfg1) sample.m_AC) <> []) as Hne
      by (by vm_compute).
    destruct (Hadd Hne eq_refl) as (w' & Hr & Hd & _).
    exists w'. split; [exact Hr|exact Hd].
  - destruct (capability_failure_keeps_snapshot refimpl.Join refimpl.Abs
                refimpl.MarshalIndent refimpl.Unmarshal refimpl.range_keys
                sample.insNoUpdate (sample.withPM sample.w1 tt))
      as [_ HU].
    destruct (HU "/opt/kb" sample.m_AC sample.cfg1 sample.exit1 HR)
      as (_ & Hupd & _).
    assert (installer.Added
              (installer.diffOf refimpl.range_keys
                 (config.Manifest sample.cfg1) sample.m_AC) <> []) as Hne
      by (by vm_compute).
    destruct (Hupd Hne eq_refl eq_refl) as (w' & Hr & Hd & _).
    exists w'. split; [exact Hr|exact Hd].
  - destruct (capability_failure_keeps_snapshot refimpl.Join refimpl.Abs
                refimpl.MarshalIndent refimpl.Unmarshal refimpl.range_keys
                sample.insNoUpdate (sample.withPM sample.w1 tt))
      as [_ HU].
    destruct (HU "/opt/kb" sample.m_AB sample.cfg1 sample.exit1 HR)
      as (_ & _ & Hupd).
    assert (installer.Added
              (installer.diffOf refimpl.range_keys
                 (config.Manifest sample.cfg1) sample.m_AB) = []) as He
      by (by vm_compute).
    destruct (Hupd He eq_refl) as (w' & Hr & Hd & Ht).
    exists w'. split; [exact Hr|]. split; [exact Hd|exact Ht].
Defined.

Lemma Write_whole_record_witness :
  config.joinsNested refimpl.Join "/opt/kb"
  /\ config.roundTrips refimpl.MarshalIndent refimpl.Unmarshal sample.cfg1
  /\ (sample.Write (installer.disk sample.w0) "/opt/kb" sample.cfg1).2 = None
  /\ sample.Read
       (sample.Write (installer.disk sample.w0) "/opt/kb" sample.cfg1).1
       "/opt/kb" = Ok sample.cfg1.
Proof.
  assert (config.joinsNested refimpl.Join "/opt/kb") as HJ by reflexivity.
  pose proof (refimpl_roundTrips sample.cfg1) as Hrt.
  split; [exact HJ|]. split; [exact Hrt|].
  pose proof (Write_whole_record refimpl.Join refimpl.MarshalIndent
                refimpl.Unmarshal (installer.disk sample.w0) "/opt/kb"
                sample.cfg1 HJ Hrt) as H.
  unfold sample.Write, sample.Read.
  destruct (config.Write refimpl.Join refimpl.MarshalIndent
              (installer.disk sample.w0) "/opt/kb" sample.cfg1)
    as [fs' [e|]] eqn:E.
  - exfalso. apply (f_equal snd) in E. vm_compute in E. discriminate E.
  - destruct H as (data & _ & _ & HR). split; [reflexivity|exact HR].
Defined.

Lemma runGroup_forwards_every_line_witness :
  exists s,
    progress.steps sample.ins (progress.init sample.scripts sample.w0) s
    /\ progress.main s = progress.Returned
    /\ progress.buf s = []
    /\ length (progress.logLines (installer.trace (progress.world s))) = 2.
Proof.
  set (p1 := pm.mkProgress None "" "added 2 packages" false).
  set (p2 := pm.mkProgress None "" "" false).
  set (p3 := pm.mkProgress None "" "npm warn" false).
  set (w := sample.w0).
  set (s := progress.mkState [[]; []] progress.Returned [] true
              (foldl (installer.drain1 sample.ins) w [p2; p1; p3])).
  assert (progress.steps sample.ins (progress.init sample.scripts w) s) as Hs.
  { unfold progress.steps, progress.init, sample.scripts. fold p1 p2 p3.
    eapply rtc_l.
    { apply (progress.step_send _ 1 p2 [p3]); [reflexivity|].
      unfold progress.capacity. simpl. lia. }
    eapply rtc_l.
    { apply (progress.step_send _ 0 p1 []); [reflexivity|].
      unfold progress.capacity. simpl. lia. }
    eapply rtc_l; [apply progress.step_recv|].
    eapply rtc_l.
    { apply (progress.step_send _ 1 p3 []); [reflexivity|].
      unfold progress.capacity. simpl. lia. }
    eapply rtc_l.
    { apply progress.step_op_return. repeat constructor. }
    eapply rtc_l; [apply progress.step_close|].
    eapply rtc_l; [apply progress.step_recv|].
    eapply rtc_l; [apply progress.step_recv|].
    eapply rtc_l; [apply progress.step_drain_exit|].
    eapply rtc_l; [apply progress.step_return|].
    apply rtc_refl. }
  destruct (runGroup_forwards_every_line sample.ins sample.scripts w)
    as (Hret & _ & _ & _).
  destruct (Hret s Hs eq_refl) as (Hb & _ & _ & sent & _ & _ & Hlog & _ & Hp).
  exists s. split; [exact Hs|]. split; [reflexivity|]. split; [exact Hb|].
  rewrite Hlog, length_app, length_fmap.
  rewrite (Permutation_length Hp). reflexivity.
Defined.

(** * More of the engine

    Properties of [Install], [Diff], [Update] and the snapshot store that
    follow from the code beyond the sentences of the specification. *)

Lemma diffOf_same (range_keys : gmap string bool -> list string)
  (m : manifest.Manifest) :
  (forall s, range_keys s ≡ₚ (map_to_list s).*1) ->
  let d := installer.diffOf range_keys m m in
  installer.Added d = [] /\ installer.Removed d = []
  /\ (forall p, p ∈ installer.Updated d <-> p ∈ manifest.pkgRefs m).
Proof.
  intros Hperm. cbv zeta. rewrite diffOf_eq.
  cbn [installer.Added installer.Removed installer.Updated].
  assert (forall k, k ∈ range_keys (installer.pkgSet m)
                    <-> k ∈ manifest.pkgRefs m) as Hk.
  { intros k. by rewrite (range_keys_elem _ Hperm), pkgSet_dom. }
  split; [|split].
  - apply filter_none. intros k Hin Hn. by apply Hn, Hk.
  - apply filter_none. intros k Hin Hn. by apply Hn, Hk.
  - intros p. rewrite list_elem_of_filter, Hk. tauto.
Qed.

(** A write puts a regular file at its path, where no directory was,
    and touches nothing else. *)
Lemma WriteFile_files fs path data fs' r q :
  os.WriteFile fs path data = (fs', r) ->
  os.files fs' !! q = os.files fs !! q
  \/ (q = path /\ os.files fs !! path <> Some os.Dir
      /\ exists d, os.files fs' !! path = Some (os.File d)).
Proof.
  unfold os.WriteFile. destruct (os.resolve fs _) as [e|].
  { intros [= <- _]. by left. }
  destruct (os.files fs !! path) as [[d|]|] eqn:Hp;
    try (intros [= <- _]; by left);
    (case_decide; intros [= <- _]; cbn;
     (destruct (decide (q = path)) as [->|Hne];
      [right; rewrite lookup_insert_eq; split; [done|]; split; [congruence|eauto]
      |left; by rewrite lookup_insert_ne])).
Qed.

(** A directory that can be reached can still be reached after a
    write. *)
Lemma WriteFile_Stat_dir fs path data fs' r q :
  os.WriteFile fs path data = (fs', r) ->
  os.Stat fs q = Ok os.Dir -> os.Stat fs' q = Ok os.Dir.
Proof.
  intros HW. rewrite !Stat_Ok. intros [Hr Hq].
  assert (forall d, os.files fs !! d = Some os.Dir ->
                    os.files fs' !! d = Some os.Dir) as Hk.
  { intros d Hd.
    destruct (WriteFile_files _ _ _ _ _ d HW) as [->|(-> & Hn & _)]; done. }
  split; [|by apply Hk].
  rewrite resolve_None in *. auto.
Qed.

Lemma Write_ok_dir (filepath_Join : list string -> string)
  (json_MarshalIndent : config.PlatformConfig -> result string)
  fs dir cfg fs' :
  config.Write filepath_Join json_MarshalIndent fs dir cfg = (fs', None) ->
  os.Stat fs' (filepath_Join [dir; config.configDir]) = Ok os.Dir.
Proof.
  unfold config.Write. cbv zeta. intros HW.
  destruct (os.MkdirAll fs _) as [fs1 [e|]] eqn:HM; [done|].
  apply MkdirAll_ok_dir in HM.
  destruct (json_MarshalIndent cfg) as [data|e]; [|done].
  destruct (os.WriteFile fs1 _ data) as [fs2 [e|]] eqn:HWF; [done|].
  injection HW as <-. by eapply WriteFile_Stat_dir.
Qed.

Lemma stepCalls_app evs1 evs2 :
  cmd.stepCalls (evs1 ++ evs2) = cmd.stepCalls evs1 ++ cmd.stepCalls evs2.
Proof. apply omap_app. Qed.

Lemma stepCalls_stepEvents {St} (ins : installer.Installer St) n total l :
  cmd.stepCalls (installer.stepEvents ins n total l)
  = if installer.OnStep ins then [(n, total, l)] else [].
Proof. unfold installer.stepEvents. by destruct (installer.OnStep ins). Qed.

Lemma stepCalls_drainEvents {St} (ins : installer.Installer St) sent :
  cmd.stepCalls (installer.drainEvents ins sent) = [].
Proof.
  unfold installer.drainEvents.
  induction sent as [|p sent IH]; [done|].
  cbn [mbind list_bind]. rewrite stepCalls_app, IH, app_nil_r.
  case_decide; [done|]. by destruct (installer.OnLine ins).
Qed.

Section MoreEngine.

Context {St : Type}.
Variable filepath_Join : list string -> string.
Variable filepath_Abs : string -> string.
Variable json_MarshalIndent : config.PlatformConfig -> result string.
Variable json_Unmarshal : string -> result config.PlatformConfig.
Variable range_keys : gmap string bool -> list string.
Implicit Types (ins : installer.Installer St) (w : installer.World St).

Local Abbreviation ConfigPath := (config.ConfigPath filepath_Join).
Local Abbreviation Read := (config.Read filepath_Join json_Unmarshal).
Local Abbreviation Write := (config.Write filepath_Join json_MarshalIndent).
Local Abbreviation Install :=
  (installer.Install filepath_Join filepath_Abs json_MarshalIndent).
Local Abbreviation Diff :=
  (installer.Diff filepath_Join json_Unmarshal range_keys).
Local Abbreviation Update :=
  (installer.Update filepath_Join json_MarshalIndent json_Unmarshal
     range_keys).
Local Abbreviation updateStage :=
  (installer.updateStage filepath_Join json_MarshalIndent).

(** What a successful [Install] did, step by step. *)
Lemma Install_ok_inv ins sel m w w' r :
  Install ins sel m w = (w', Ok r) ->
  let dir := installer.PlatformDir sel in
  let o := pm.Install (installer.PM ins) dir (installer.installPkgs sel m)
             (installer.pmst w) in
  let cfg := config.NewConfig filepath_Abs (installer.clock w') dir
               (installer.ProjectCWD sel) (pm.Name (installer.PM ins)) m in
  pm.err o = None
  /\ installer.clock w' = (installer.clock w + pm.elapsed o)%Z
  /\ (exists fs,
        Write (installer.disk w) dir cfg = (fs, None)
        /\ os.MkdirAll fs (installer.ProjectCWD sel +:+ "/.kb")
           = (installer.disk w', None))
  /\ installer.trace w'
     = installer.trace w
       ++ (installer.stepEvents ins 1 2 (installer.installLabel ins sel m)
           ++ installer.PMInstall dir (installer.installPkgs sel m)
              :: installer.drainEvents ins (pm.sent o))
       ++ installer.stepEvents ins 2 2 "Writing config"
       ++ [installer.ConfigWrite dir cfg;
           installer.OsMkdirAll (installer.ProjectCWD sel +:+ "/.kb")]
  /\ r = {| installer.res_PlatformDir := dir;
            installer.res_ProjectCWD := installer.ProjectCWD sel;
            installer.res_ConfigPath := ConfigPath dir;
            installer.res_Duration := (installer.clock w' - installer.clock w)%Z |}.
Proof.
  rewrite Install_eq. cbv zeta.
  destruct (pm.err _) as [e|] eqn:He; [done|].
  destruct (config.Write _ _ _ _ _) as [fs [e|]] eqn:HW; [done|].
  destruct (os.MkdirAll _ _) as [fs' [e|]] eqn:HM; [done|].
  intros [= <- <-]. cbn [installer.clock installer.disk installer.trace].
  split; [done|]. split; [done|]. split; [by exists fs|].
  split; [|done].
  rewrite <- !app_assoc. cbn [app]. by rewrite <- !app_assoc.
Qed.

Lemma Install_ok_Read ins sel m w w' r :
  config.joinsNested filepath_Join (installer.PlatformDir sel) ->
  config.roundTrips json_MarshalIndent json_Unmarshal
    (config.NewConfig filepath_Abs (installer.clock w')
       (installer.PlatformDir sel) (installer.ProjectCWD sel)
       (pm.Name (installer.PM ins)) m) ->
  Install ins sel m w = (w', Ok r) ->
  Read (installer.disk w') (installer.PlatformDir sel)
  = Ok (config.NewConfig filepath_Abs (installer.clock w')
          (installer.PlatformDir sel) (installer.ProjectCWD sel)
          (pm.Name (installer.PM ins)) m).
Proof.
  intros HJ Hrt HI.
  apply Install_ok_inv in HI as (_ & _ & (fs & HW & HM) & _).
  eapply Read_after_MkdirAll; [|exact HM].
  eapply Write_Read; eauto.
Qed.

(** What a successful [Update] did to the snapshot. *)
Lemma Update_ok_inv ins dir current w w' r :
  Update ins dir current w = (w', Ok r) ->
  exists cfg,
    Read (installer.disk w) dir = Ok cfg
    /\ Write (installer.disk w) dir (config.set_Manifest cfg current)
       = (installer.disk w', None)
    /\ installer.upd_Diff r
       = installer.diffOf range_keys (config.Manifest cfg) current.
Proof.
  rewrite Update_eq. cbv zeta.
  destruct (Read (installer.disk w) dir) as [cfg|e] eqn:HR; [|done].
  intros HU. exists cfg. split; [done|].
  assert (exists w0, installer.disk w0 = installer.disk w
            /\ updateStage ins dir current cfg
                 (installer.diffOf range_keys (config.Manifest cfg) current)
                 (installer.clock w) w0 = (w', Ok r)) as (w0 & Hd & Hs).
  { destruct (installer.Added _) as [|a l].
    - eexists. split; [|exact HU]. done.
    - destruct (pm.err _) as [e|]; [done|].
      eexists. split; [|exact HU]. done. }
  split.
  - apply updateStage_ok in Hs as (fs & HW & ->). by rewrite <- Hd.
  - clear HU. revert Hs. unfold installer.updateStage, installer.refresh. cbv zeta.
    destruct (pm.err _) as [e|]; [by intros [=]|].
    destruct (config.Write _ _ _ _ _) as [fs [e|]]; [by intros [=]|].
    by intros [= _ <-].
Qed.

Section WithRange.

Hypothesis range_keys_perm :
  forall m, range_keys m ≡ₚ (map_to_list m).*1.

(** X1.  [Diff] reports no change only when neither the stored nor
    the candidate manifest refers to any package: every reference
    that both manifests share is reported as updated, so comparing a
    snapshot with its own non-empty manifest still has changes. *)
Theorem Diff_up_to_date_iff (platformDir : string)
  (current : manifest.Manifest) w (cfg : config.PlatformConfig)
  (d : installer.UpdateDiff) :
  Read (installer.disk w) platformDir = Ok cfg ->
  (Diff platformDir current w).2 = Ok d ->
  installer.HasChanges d = false
  <-> manifest.pkgRefs (config.Manifest cfg) = ∅
      /\ manifest.pkgRefs current = ∅.
Proof.
  clear filepath_Abs json_MarshalIndent.
  intros HR. rewrite Diff_eq, HR. cbn [snd]. intros [= <-].
  destruct (diffOf_sets _ range_keys_perm (config.Manifest cfg) current)
    as (HA & HRm & HU).
  rewrite <- not_true_iff_false, HasChanges_iff, HA, HRm, HU.
  clear HA HRm HU HR.
  generalize (manifest.pkgRefs (config.Manifest cfg)) as S.
  generalize (manifest.pkgRefs current) as C. intros C S.
  split.
  - intros Hn.
    assert (C ∖ S ∪ S ∖ C ∪ S ∩ C = ∅) as He.
    { destruct (decide (C ∖ S ∪ S ∖ C ∪ S ∩ C = ∅)); [done|].
      by destruct Hn. }
    assert (forall x, x ∉ C ∖ S ∪ S ∖ C ∪ S ∩ C) as Hno.
    { intros x. rewrite He. apply not_elem_of_empty. }
    split; apply set_eq; intros x; (split; [|by intros ?%not_elem_of_empty]);
      intros Hx; destruct (Hno x).
    + rewrite !elem_of_union, !elem_of_difference, elem_of_intersection.
      destruct (decide (x ∈ C)); tauto.
    + rewrite !elem_of_union, !elem_of_difference, elem_of_intersection.
      destruct (decide (x ∈ S)); tauto.
  - intros [-> ->] Hn. apply Hn.
    apply set_eq. intros x.
    rewrite !elem_of_union, !elem_of_difference, elem_of_intersection.
    split; [|by intros ?%not_elem_of_empty]. tauto.
Qed.

(** X2.  The snapshot a successful [Install] leaves holds the whole
    manifest whatever was selected: a later [Diff] compares the
    candidate with all of [m], and against [m] itself it adds and
    removes nothing and lists every package reference of [m], also
    those of components that were not selected, as updated. *)
Theorem Diff_after_Install ins (sel : installer.Selection)
  (m : manifest.Manifest) w w' (r : installer.Result) :
  config.joinsNested filepath_Join (installer.PlatformDir sel) ->
  config.roundTrips json_MarshalIndent json_Unmarshal
    (config.NewConfig filepath_Abs (installer.clock w')
       (installer.PlatformDir sel) (installer.ProjectCWD sel)
       (pm.Name (installer.PM ins)) m) ->
  Install ins sel m w = (w', Ok r) ->
  (forall current,
      (Diff (installer.PlatformDir sel) current w').2
      = Ok (installer.diffOf range_keys m current))
  /\ exists d,
       (Diff (installer.PlatformDir sel) m w').2 = Ok d
       /\ installer.Added d = [] /\ installer.Removed d = []
       /\ forall p, p ∈ installer.Updated d <-> p ∈ manifest.pkgRefs m.
Proof.
  intros HJ Hrt HI.
  pose proof (Install_ok_Read _ _ _ _ _ _ HJ Hrt HI) as HR.
  assert (forall current,
             (Diff (installer.PlatformDir sel) current w').2
             = Ok (installer.diffOf range_keys m current)) as HD.
  { intros current. rewrite Diff_eq, HR. done. }
  split; [done|].
  eexists. split; [apply HD|]. by apply diffOf_same.
Qed.

(** X3.  A successful [Update] brings the snapshot level with the
    candidate manifest: a [Diff] against that manifest then adds and
    removes nothing, and an [Update] run again makes the capability's
    update call only, with the full package list. *)
Theorem Update_settles ins (platformDir : string)
  (current : manifest.Manifest) w w' (r : installer.UpdateResult) :
  config.joinsNested filepath_Join platformDir ->
  (forall cfg,
      Read (installer.disk w) platformDir = Ok cfg ->
      config.roundTrips json_MarshalIndent json_Unmarshal
        (config.set_Manifest cfg current)) ->
  Update ins platformDir current w = (w', Ok r) ->
  (exists d,
      (Diff platformDir current w').2 = Ok d
      /\ installer.Added d = [] /\ installer.Removed d = []
      /\ forall p, p ∈ installer.Updated d <-> p ∈ manifest.pkgRefs current)
  /\ installer.pmCalls
       (installer.trace (Update ins platformDir current w').1)
     = installer.pmCalls (installer.trace w')
       ++ [installer.PMUpdate platformDir (installer.updatePkgs current)].
Proof.
  intros HJ Hrt HU.
  apply Update_ok_inv in HU as (cfg & HR & HW & _).
  specialize (Hrt cfg HR).
  pose proof (Write_Read _ _ _ _ _ _ _ HJ Hrt HW) as HR'.
  destruct (diffOf_same range_keys current range_keys_perm)
    as (HA & HRm & HUp).
  split.
  - eexists. rewrite Diff_eq, HR'. cbn [snd config.Manifest config.set_Manifest].
    split; [reflexivity|]. done.
  - rewrite Update_eq. cbv zeta. rewrite HR'.
    cbn [config.Manifest config.set_Manifest]. rewrite HA.
    rewrite updateStage_pmCalls. unfold installer.emit.
    cbn [installer.trace]. rewrite pmCalls_app.
    by rewrite app_nil_r.
Qed.

(** X4.  The first [Update] after an [Install] installs nothing,
    whatever was selected: against the manifest that was installed
    the diff has nothing to add, so the only capability call is the
    update of every package of the manifest, those of components that
    were not selected included. *)
Theorem Update_after_Install ins (sel : installer.Selection)
  (m : manifest.Manifest) w w' (r : installer.Result) :
  config.joinsNested filepath_Join (installer.PlatformDir sel) ->
  config.roundTrips json_MarshalIndent json_Unmarshal
    (config.NewConfig filepath_Abs (installer.clock w')
       (installer.PlatformDir sel) (installer.ProjectCWD sel)
       (pm.Name (installer.PM ins)) m) ->
  Install ins sel m w = (w', Ok r) ->
  installer.pmCalls
    (installer.trace (Update ins (installer.PlatformDir sel) m w').1)
  = installer.pmCalls (installer.trace w')
    ++ [installer.PMUpdate (installer.PlatformDir sel)
          ((manifest.Name <$> manifest.Core m)
           ++ (manifest.Pkg <$> manifest.Services m)
           ++ (manifest.Pkg <$> manifest.Plugins m))].
Proof.
  intros HJ Hrt HI.
  pose proof (Install_ok_Read _ _ _ _ _ _ HJ Hrt HI) as HR.
  destruct (diffOf_same range_keys m range_keys_perm) as (HA & _ & _).
  rewrite Update_eq. cbv zeta. rewrite HR.
  cbn [config.Manifest config.NewConfig]. rewrite HA.
  rewrite updateStage_pmCalls, updatePkgs_eq. unfold installer.emit.
  cbn [installer.trace]. rewrite pmCalls_app.
  by rewrite app_nil_r.
Qed.

End WithRange.

(** X5.  A snapshot file that is there but does not parse makes [Diff]
    and [Update] fail with the parse error, prefixed "parse config: ";
    a directory in its place makes them fail with the read error,
    prefixed "read config: ".  Neither is reported as a missing
    installation, and [Update] has then called nothing and written
    nothing. *)
Theorem unreadable_snapshot ins (platformDir : string)
  (current : manifest.Manifest) w :
  (forall data e,
      os.Stat (installer.disk w) (ConfigPath platformDir)
      = Ok (os.File data) ->
      json_Unmarshal data = Err e ->
      Diff platformDir current w
      = (installer.emit (installer.ConfigRead platformDir) w,
         Err (wrapError "parse config: " e))
      /\ Update ins platformDir current w
         = (installer.emit (installer.ConfigRead platformDir) w,
            Err (wrapError "parse config: " e)))
  /\ (os.Stat (installer.disk w) (ConfigPath platformDir) = Ok os.Dir ->
      Diff platformDir current w
      = (installer.emit (installer.ConfigRead platformDir) w,
         Err (wrapError "read config: "
                (PathError "read" (ConfigPath platformDir) EISDIR)))
      /\ Update ins platformDir current w
         = (installer.emit (installer.ConfigRead platformDir) w,
            Err (wrapError "read config: "
                   (PathError "read" (ConfigPath platformDir) EISDIR)))).
Proof.
  split.
  - intros data e Hf%ReadFile_Ok He. rewrite Update_eq, Diff_eq. cbv zeta.
    unfold config.Read. cbv zeta. by rewrite Hf, He.
  - intros Hf. rewrite Update_eq, Diff_eq. cbv zeta.
    assert (os.ReadFile (installer.disk w) (ConfigPath platformDir)
            = Err (PathError "read" (ConfigPath platformDir) EISDIR)) as HR.
    { revert Hf. unfold os.Stat, os.statAt, os.ReadFile.
      destruct (os.walk _ _ _) as [?|[?|]]; by intros [=]. }
    by rewrite (Read_unreadable _ _ _ _ _ HR eq_refl).
Qed.

(** X8.  After a successful [Install] the path it reports as
    [ConfigPath] holds the serialized snapshot, the configuration
    directory and the project's [.kb] directory exist, and [OnStep],
    when set, was called exactly twice: for step 1 of 2 and for step 2
    of 2. *)
Theorem Install_success_effects ins (sel : installer.Selection)
  (m : manifest.Manifest) w w' (r : installer.Result) :
  config.joinsNested filepath_Join (installer.PlatformDir sel) ->
  Install ins sel m w = (w', Ok r) ->
  (exists data,
      json_MarshalIndent
        (config.NewConfig filepath_Abs (installer.clock w')
           (installer.PlatformDir sel) (installer.ProjectCWD sel)
           (pm.Name (installer.PM ins)) m) = Ok data
      /\ os.fileData (installer.disk w') (installer.res_ConfigPath r)
         = Some data)
  /\ os.files (installer.disk w')
       !! filepath_Join [installer.PlatformDir sel; config.configDir]
     = Some os.Dir
  /\ os.files (installer.disk w') !! (installer.ProjectCWD sel +:+ "/.kb")
     = Some os.Dir
  /\ exists evs,
       installer.trace w' = installer.trace w ++ evs
       /\ cmd.stepCalls evs
          = if installer.OnStep ins
            then [(1%Z, 2%Z, installer.installLabel ins sel m);
                  (2%Z, 2%Z, "Writing config")]
            else [].
Proof.
  intros HJ HI.
  apply Install_ok_inv in HI as (_ & _ & (fs & HW & HM) & Htr & ->).
  cbn [installer.res_ConfigPath].
  split; [|split; [|split]].
  - destruct (Write_ok _ _ _ _ _ _ HJ HW) as (data & Hd & Hf).
    exists data. split; [done|].
    unfold os.fileData. by rewrite (MkdirAll_keeps _ _ _ _ HM _ _ Hf).
  - eapply (MkdirAll_keeps _ _ _ _ HM).
    by eapply Stat_Ok, Write_ok_dir.
  - by apply MkdirAll_ok_dir, Stat_Ok in HM as [_ ?].
  - eexists. split; [rewrite Htr, <- app_assoc; reflexivity|].
    rewrite !stepCalls_app, !stepCalls_stepEvents.
    change (cmd.stepCalls (installer.PMInstall ?d ?p :: ?l))
      with (cmd.stepCalls l).
    rewrite stepCalls_drainEvents.
    by destruct (installer.OnStep ins).
Qed.

End MoreEngine.

(** * More of the progress stream *)

Lemma interleaving_sublist {A} (ss : list (list A)) l i s :
  progress.interleaving ss l -> ss !! i = Some s -> s `sublist_of` l.
Proof.
  intros Hint. revert i s.
  induction Hint as [ss Hall|ss j p ps l Hj Hint IH]; intros i s Hi.
  - rewrite list.Forall_forall in Hall.
    rewrite (Hall s); [done|]. by eapply list_elem_of_lookup_2.
  - destruct (decide (i = j)) as [->|Hne].
    + rewrite Hj in Hi. injection Hi as <-.
      apply sublist_skip. apply (IH j).
      apply list_lookup_insert_eq. by eapply lookup_lt_Some.
    + apply sublist_cons. apply (IH i).
      by rewrite list_lookup_insert_ne.
Qed.

Lemma filter_sublist_mono {A} (P : A -> Prop) `{!forall x, Decision (P x)}
  (l1 l2 : list A) :
  l1 `sublist_of` l2 -> filter P l1 `sublist_of` filter P l2.
Proof.
  induction 1 as [|x l1 l2 _ IH|x l1 l2 _ IH]; [done|..];
    rewrite ?filter_cons; case_decide; try done.
  - by apply sublist_skip.
  - by apply sublist_cons.
Qed.

Lemma nonEmptyLines_sublist sent1 sent2 :
  sent1 `sublist_of` sent2 ->
  progress.nonEmptyLines sent1 `sublist_of` progress.nonEmptyLines sent2.
Proof.
  intros H. unfold progress.nonEmptyLines.
  apply filter_sublist_mono. by apply fmap_sublist.
Qed.

Lemma nonEmptyLines_app sent1 sent2 :
  progress.nonEmptyLines (sent1 ++ sent2)
  = progress.nonEmptyLines sent1 ++ progress.nonEmptyLines sent2.
Proof.
  unfold progress.nonEmptyLines. by rewrite fmap_app, list.filter_app.
Qed.

Section MoreProgress.

Context {St : Type}.
Variable ins : installer.Installer St.
Variable scripts : list (list pm.Progress).
Variable w0 : installer.World St.

Local Abbreviation steps := (progress.steps ins).

(** At the return of [runGroup] the drain goroutine has handled a
    merge of the scripts. *)
Lemma returned_inv s :
  steps (progress.init scripts w0) s ->
  progress.main s = progress.Returned ->
  exists sent,
    progress.interleaving scripts sent
    /\ progress.world s = foldl (installer.drain1 ins) w0 sent.
Proof.
  intros Hs Hret.
  destruct (Inv_steps ins scripts w0 s Hs)
    as ((recvd & Hw & Hi) & _ & Hop & Hdr & Hr).
  specialize (Hr Hret). destruct (Hdr Hr) as [Hb _].
  assert (Forall (fun l => l = []) (progress.senders s)) as Hall.
  { apply Hop. by rewrite Hret. }
  exists recvd. split; [|done].
  specialize (Hi [] (progress.interleaving_done _ Hall)).
  by rewrite Hb, !app_nil_r in Hi.
Qed.

(** X9.  Whatever the interleaving, the lines one sender sent reach
    the log in the order in which it sent them: when [runGroup] has
    returned, the non-empty lines of each sender are, indented, a
    subsequence of the lines the run added to the log. *)
Theorem runGroup_keeps_stream_order s :
  steps (progress.init scripts w0) s ->
  progress.main s = progress.Returned ->
  exists logged,
    progress.logLines (installer.trace (progress.world s))
    = progress.logLines (installer.trace w0) ++ logged
    /\ forall i script,
         scripts !! i = Some script ->
         ((fun l => "  " +:+ l) <$> progress.nonEmptyLines script)
           `sublist_of` logged.
Proof.
  intros Hs Hret.
  destruct (returned_inv s Hs Hret) as (sent & Hint & Hw).
  eexists. split.
  - rewrite Hw, drain_eq. cbn [installer.trace].
    by rewrite logLines_app, logLines_drainEvents.
  - intros i script Hi. apply fmap_sublist, nonEmptyLines_sublist.
    by eapply interleaving_sublist.
Qed.

End MoreProgress.

(** X10.  For the two pipes of [NpmManager.run] and [PnpmManager.run]:
    when [runGroup] has returned, the lines added to the log are the
    lines of standard output and standard error that are not blank,
    every one of them once, each stream in its own order; [OnLine], when
    set, got the same lines.  ([strings.TrimSpace] of the empty string is
    the empty string.) *)
Theorem run_logs_output_lines {St} (ins : installer.Installer St)
  (w0 : installer.World St) (strings_TrimSpace : string -> string)
  (stdout stderr : list string) s :
  strings_TrimSpace "" = "" ->
  progress.steps ins
    (progress.init (pm.run_senders strings_TrimSpace stdout stderr) w0) s ->
  progress.main s = progress.Returned ->
  let notBlank := fun line => strings_TrimSpace line <> "" in
  exists lines,
    progress.logLines (installer.trace (progress.world s))
    = progress.logLines (installer.trace w0) ++ ((fun l => "  " +:+ l) <$> lines)
    /\ progress.onLineLines (installer.trace (progress.world s))
       = progress.onLineLines (installer.trace w0)
         ++ (if installer.OnLine ins then lines else [])
    /\ lines ≡ₚ filter notBlank stdout ++ filter notBlank stderr
    /\ filter notBlank stdout `sublist_of` lines
    /\ filter notBlank stderr `sublist_of` lines.
Proof.
  intros Hts Hs Hret. cbv zeta.
  destruct (returned_inv ins _ w0 s Hs Hret) as (sent & Hint & Hw).
  exists (progress.nonEmptyLines sent).
  rewrite Hw, drain_eq. cbn [installer.trace].
  rewrite logLines_app, onLineLines_app, logLines_drainEvents,
    onLineLines_drainEvents.
  split; [done|]. split; [done|].
  unfold pm.run_senders in Hint.
  split; [|split].
  - rewrite (nonEmptyLines_perm _ _ (interleaving_perm _ _ Hint)).
    cbn [concat]. rewrite app_nil_r, nonEmptyLines_app.
    by rewrite !(pipe_nonEmptyLines _ _ Hts).
  - rewrite <- (pipe_nonEmptyLines _ _ Hts).
    apply nonEmptyLines_sublist.
    by apply (interleaving_sublist _ _ 0 _ Hint).
  - rewrite <- (pipe_nonEmptyLines _ _ Hts).
    apply nonEmptyLines_sublist.
    by apply (interleaving_sublist _ _ 1 _ Hint).
Qed.

(** * The snapshot store and the command line *)

(** X11.  Writing a record that was just written succeeds and leaves the
    disk exactly as it is. *)
Theorem Write_idempotent (filepath_Join : list string -> string)
  (json_MarshalIndent : config.PlatformConfig -> result string)
  (fs fs' : os.FS) (platformDir : string) (cfg : config.PlatformConfig) :
  config.Write filepath_Join json_MarshalIndent fs platformDir cfg
  = (fs', None) ->
  config.Write filepath_Join json_MarshalIndent fs' platformDir cfg
  = (fs', None).
Proof.
  intros HW. pose proof (Write_ok_dir _ _ _ _ _ _ HW) as Hdir.
  revert HW. unfold config.Write. cbv zeta.
  destruct (os.MkdirAll fs _) as [fs1 [e|]] eqn:HM; [done|].
  destruct (json_MarshalIndent cfg) as [data|e]; [|done].
  destruct (os.WriteFile fs1 _ data) as [fs2 [e|]] eqn:HWF; [done|].
  intros [= ->].
  rewrite (MkdirAll_there _ _ Hdir).
  pose proof (WriteFile_ok _ _ _ _ HWF) as (Hfiles & Hfree & Hr & _ & Hlen).
  unfold os.WriteFile.
  assert (os.resolve fs' (os.parents
            (filepath_Join [filepath_Join [platformDir; config.configDir];
                            config.configFile])) = None) as ->.
  { rewrite <- Hr. apply resolve_ext. intros d Hd. rewrite Hfiles.
    apply lookup_insert_ne. intros Heq. rewrite <- Heq in Hd.
    by apply parents_ne in Hd. }
  assert (os.files fs' !! filepath_Join
            [filepath_Join [platformDir; config.configDir]; config.configFile]
          = Some (os.File data)) as ->
    by (by rewrite Hfiles, lookup_insert_eq).
  rewrite decide_True by lia.
  f_equal. destruct fs' as [f n]. unfold os.set_files. cbn in *.
  f_equal. subst f. by rewrite insert_insert_eq.
Qed.

Section CmdFacts.

Context {St : Type}.
Variable filepath_Join : list string -> string.
Variable filepath_Abs : string -> string.
Variable json_MarshalIndent : config.PlatformConfig -> result string.
Variable json_Unmarshal : string -> result config.PlatformConfig.

Local Abbreviation Install :=
  (installer.Install (St:=St) filepath_Join filepath_Abs json_MarshalIndent).
Local Abbreviation resolvePlatformDir :=
  (cmd.resolvePlatformDir filepath_Join json_Unmarshal).

(** X12.  A [--platform] flag wins over everything, the root
    command's flag over the snapshot; with neither, a command run in
    the directory of a successful [Install] resolves the platform
    directory to the absolute path the snapshot recorded. *)
Theorem resolvePlatformDir_after_Install ins (sel : installer.Selection)
  (m : manifest.Manifest) w w' (r : installer.Result) :
  config.joinsNested filepath_Join (installer.PlatformDir sel) ->
  config.roundTrips json_MarshalIndent json_Unmarshal
    (config.NewConfig filepath_Abs (installer.clock w')
       (installer.PlatformDir sel) (installer.ProjectCWD sel)
       (pm.Name (installer.PM ins)) m) ->
  Install ins sel m w = (w', Ok r) ->
  resolvePlatformDir "" "" (installer.PlatformDir sel) (installer.disk w')
  = Ok (filepath_Abs (installer.PlatformDir sel))
  /\ (forall flag rootFlag cwd,
         flag <> "" ->
         resolvePlatformDir flag rootFlag cwd (installer.disk w') = Ok flag)
  /\ (forall rootFlag cwd,
         rootFlag <> "" ->
         resolvePlatformDir "" rootFlag cwd (installer.disk w')
         = Ok rootFlag).
Proof.
  intros HJ Hrt HI.
  pose proof (Install_ok_Read _ _ _ _ _ _ _ _ _ _ HJ Hrt HI) as HR.
  unfold cmd.resolvePlatformDir. split; [|split].
  - rewrite decide_False by (by intros []). rewrite decide_False by (by intros []).
    by rewrite HR.
  - intros flag rootFlag cwd Hf. by rewrite decide_True.
  - intros rootFlag cwd Hf. rewrite decide_False by (by intros []).
    by rewrite decide_True.
Qed.

End CmdFacts.

(** * The spinner *)

Lemma substring_length (n : nat) (s : string) :
  n <= String.length s -> String.length (String.substring 0 n s) = n.
Proof.
  revert s. induction n as [|n IH]; intros s Hn.
  - by destruct s.
  - destruct s as [|c s]; cbn in Hn; [lia|].
    cbn. f_equal. apply IH. lia.
Qed.

Lemma setDetail_length d s :
  String.length (cmd.detail (cmd.setDetail d s)) <= 72.
Proof.
  unfold cmd.setDetail. cbn [cmd.detail].
  destruct (72 <? String.length d)%nat eqn:E.
  - apply Nat.ltb_lt in E.
    rewrite string_app_length, substring_length by lia. cbn. lia.
  - apply Nat.ltb_ge in E. lia.
Qed.

(** X13.  The detail line of the spinner never exceeds 72 bytes,
    whatever lines the engine hands to [OnLine]: a line of at most 72
    bytes is shown as it is, a longer one is cut to its first 69 bytes
    followed by three dots.  [OnStep] does not touch the detail. *)
Theorem spinner_detail_bounded (evs : list installer.Event) (s : cmd.spinner) :
  String.length (cmd.detail s) <= 72 ->
  String.length (cmd.detail (cmd.callbacks evs s)) <= 72
  /\ (forall d,
        String.length d <= 72 -> cmd.detail (cmd.OnLine d s) = d)
  /\ (forall d,
        72 < String.length d ->
        cmd.detail (cmd.OnLine d s) = String.substring 0 69 d +:+ "..."
        /\ String.length (cmd.detail (cmd.OnLine d s)) = 72)
  /\ (forall n total l, cmd.detail (cmd.OnStep n total l s) = cmd.detail s).
Proof.
  intros Hs. split; [|split; [|split]].
  - revert s Hs. unfold cmd.callbacks.
    induction evs as [|e evs IH]; intros s Hs; [done|].
    cbn [foldl]. apply IH.
    destruct e; try done. apply setDetail_length.
  - intros d Hd. unfold cmd.OnLine, cmd.setDetail. cbn [cmd.detail].
    destruct (72 <? String.length d)%nat eqn:E; [|done].
    apply Nat.ltb_lt in E. lia.
  - intros d Hd. unfold cmd.OnLine, cmd.setDetail. cbn [cmd.detail].
    apply Nat.ltb_lt in Hd as E. rewrite E.
    split; [done|].
    rewrite string_app_length, substring_length by lia. done.
  - done.
Qed.

Lemma callbacks_app evs1 evs2 s :
  cmd.callbacks (evs1 ++ evs2) s = cmd.callbacks evs2 (cmd.callbacks evs1 s).
Proof. apply foldl_app. Qed.

Lemma label_callbacks_stepCalls evs s :
  cmd.label (cmd.callbacks evs s)
  = match list.last (cmd.stepCalls evs) with
    | Some (n, total, l) =>
        "[" +:+ pretty n +:+ "/" +:+ pretty total +:+ "] " +:+ l
    | None => cmd.label s
    end.
Proof.
  revert s. induction evs as [|e evs IH] using rev_ind; intros s; [done|].
  rewrite callbacks_app, stepCalls_app.
  destruct e; simpl; rewrite ?app_nil_r, ?list.last_snoc; try apply IH; done.
Qed.

Section SpinnerFacts.

Context {St : Type}.
Variable filepath_Join : list string -> string.
Variable filepath_Abs : string -> string.
Variable json_MarshalIndent : config.PlatformConfig -> result string.

Local Abbreviation Install :=
  (installer.Install (St:=St) filepath_Join filepath_Abs json_MarshalIndent).

(** X14.  With the callbacks of [runCreate], the label the spinner
    holds when [Install] returns, which [stop] prints, is that of the
    stage [Install] reached: "[1/2] Installing N packages via PM" when
    the capability's install failed, "[2/2] Writing config" otherwise,
    also when it was the write that failed. *)
Theorem spinner_label_after_Install ins (sel : installer.Selection)
  (m : manifest.Manifest) w (s : cmd.spinner) :
  installer.OnStep ins = true ->
  exists evs,
    installer.trace (Install ins sel m w).1 = installer.trace w ++ evs
    /\ cmd.label (cmd.callbacks evs s)
       = match pm.err (pm.Install (installer.PM ins)
                         (installer.PlatformDir sel)
                         (installer.installPkgs sel m) (installer.pmst w)) with
         | Some _ =>
             "[1/2] Installing "
             +:+ pretty (length (installer.installPkgs sel m))
             +:+ " packages via " +:+ pm.Name (installer.PM ins)
         | None => "[2/2] Writing config"
         end.
Proof.
  intros Hon. rewrite Install_eq. cbv zeta.
  assert (forall x : string,
             "[" +:+ pretty 1%Z +:+ "/" +:+ pretty 2%Z +:+ "] "
             +:+ "Installing " +:+ x
             = "[1/2] Installing " +:+ x) as Hl1 by done.
  assert ("[" +:+ pretty 2%Z +:+ "/" +:+ pretty 2%Z +:+ "] "
          +:+ "Writing config" = "[2/2] Writing config") as Hl2 by done.
  destruct (pm.err _) as [e|];
    [|destruct (config.Write _ _ _ _ _) as [fs [e|]];
      [|destruct (os.MkdirAll _ _) as [fs' [e|]]]];
    cbn [fst installer.trace]; (eexists; split; [reflexivity|]);
    rewrite label_callbacks_stepCalls, ?stepCalls_app,
      ?stepCalls_stepEvents;
    change (cmd.stepCalls (installer.PMInstall ?d ?p :: ?l))
      with (cmd.stepCalls l);
    rewrite stepCalls_drainEvents, Hon;
    cbn [cmd.stepCalls omap app list.last];
    unfold installer.installLabel; by rewrite ?Hl1, ?Hl2.
Qed.

End SpinnerFacts.

(** * The project file of the platform directory *)

Section NpmFacts.

Variable filepath_Join : list string -> string.

Local Abbreviation ensurePackageJSON :=
  (npm.ensurePackageJSON filepath_Join).
Local Abbreviation pkgPath dir := (filepath_Join [dir; "package.json"]).

(** X15.  [ensurePackageJSON] never overwrites: whatever is at
    [dir/package.json] before the call is there after it, nothing
    else that was on the disk is changed or removed, and the call
    then fails only when the directory cannot be made.  Where [dir]
    is a directory [dir/package.json] leads through, it succeeds and
    leaves the disk as it is. *)
Theorem ensurePackageJSON_keeps_existing (fs fs' : os.FS) (dir : string)
  (r : option error) (n : os.node) :
  ensurePackageJSON fs dir = (fs', r) ->
  os.Stat fs (pkgPath dir) = Ok n ->
  os.Stat fs' (pkgPath dir) = Ok n
  /\ os.keeps fs fs'
  /\ (r = None \/ os.MkdirAll fs dir = (fs', r))
  /\ (dir ∈ os.parents (pkgPath dir) -> fs' = fs /\ r = None).
Proof.
  unfold npm.ensurePackageJSON. cbv zeta. intros HE Hn.
  assert (os.Stat fs' (pkgPath dir) = Ok n /\ os.keeps fs fs'
          /\ (r = None \/ os.MkdirAll fs dir = (fs', r)))
    as (H1 & H2 & H3).
  { destruct (os.MkdirAll fs dir) as [fs1 r1] eqn:HM.
    pose proof (MkdirAll_keeps _ _ _ _ HM) as Hk.
    pose proof (Stat_keeps _ _ _ _ Hk Hn) as Hn1.
    destruct r1 as [e|].
    - injection HE as <- <-. auto.
    - rewrite Hn1 in HE. injection HE as <- <-. auto. }
  split; [done|]. split; [done|]. split; [done|].
  intros Hdir. pose proof (Stat_parent _ _ _ _ Hn Hdir) as Hd.
  rewrite (MkdirAll_there _ _ Hd), Hn in HE. by injection HE as <- <-.
Qed.

(** X16.  Once [ensurePackageJSON] has succeeded, calling it again
    succeeds and changes nothing. *)
Theorem ensurePackageJSON_idempotent (fs fs' : os.FS) (dir : string) :
  ensurePackageJSON fs dir = (fs', None) ->
  ensurePackageJSON fs' dir = (fs', None).
Proof.
  unfold npm.ensurePackageJSON. cbv zeta. intros HE.
  destruct (os.MkdirAll fs dir) as [fs1 [e|]] eqn:HM; [done|].
  pose proof (MkdirAll_ok_dir _ _ _ HM) as Hdir.
  destruct (os.Stat fs1 (pkgPath dir)) as [n|e] eqn:Hp.
  - injection HE as <-. by rewrite (MkdirAll_there _ _ Hdir), Hp.
  - rewrite (MkdirAll_there _ _ (WriteFile_Stat_dir _ _ _ _ _ _ HE Hdir)).
    apply WriteFile_ReadFile, ReadFile_Ok in HE. by rewrite HE.
Qed.

(** X17.  Where nothing is at [dir/package.json], a path that leads
    through [dir] and what [dir] leads through: a successful
    [ensurePackageJSON] leaves [dir] a directory that can be reached
    and the file readable, with exactly the minimal project
    description; a failure is that of making the directory, or the
    disk is full.  Either way nothing that was on
    the disk is changed or removed, and what is new is at
    [dir/package.json], at [dir] or at a directory [dir] leads
    through. *)
Theorem ensurePackageJSON_creates (fs fs' : os.FS) (dir : string)
  (r : option error) :
  ensurePackageJSON fs dir = (fs', r) ->
  os.files fs !! pkgPath dir = None ->
  os.parents (pkgPath dir) = os.parents dir ++ [dir] ->
  match r with
  | None =>
      os.ReadFile fs' (pkgPath dir) = Ok npm.content
      /\ os.Stat fs' dir = Ok os.Dir
  | Some e =>
      os.MkdirAll fs dir = (fs', Some e)
      \/ e = PathError "write" (pkgPath dir) ENOSPC
  end
  /\ os.keeps fs fs'
  /\ forall q, q <> pkgPath dir -> q <> dir -> q ∉ os.parents dir ->
               os.files fs' !! q = os.files fs !! q.
Proof.
  unfold npm.ensurePackageJSON. cbv zeta. intros HE Hn Hpar.
  destruct (os.MkdirAll fs dir) as [fs1 r1] eqn:HM.
  pose proof (MkdirAll_keeps _ _ _ _ HM) as Hk.
  assert (forall q, q <> dir -> q ∉ os.parents dir ->
                    os.files fs1 !! q = os.files fs !! q) as Hq.
  { intros q Hq1 Hq2.
    destruct (MkdirAll_files _ _ _ _ q HM) as [?|(_ & _ & [?|?])]; done. }
  destruct r1 as [e|].
  { injection HE as <- <-. split; [by left|]. split; [done|]. auto. }
  pose proof (MkdirAll_ok_dir _ _ _ HM) as Hdir.
  assert (os.files fs1 !! pkgPath dir = None) as Hn1.
  { rewrite Hq; [done| |].
    - intros Heq. pose proof (parents_ne (pkgPath dir) dir) as Hne.
      apply Hne; [|done]. rewrite Hpar. apply elem_of_app. right. left.
    - intros Hin. pose proof (parents_ne (pkgPath dir) (pkgPath dir)) as Hne.
      apply Hne; [|done]. rewrite Hpar. apply elem_of_app. by left. }
  assert (os.resolve fs1 (os.parents (pkgPath dir)) = None) as Hr1.
  { apply Stat_Ok in Hdir as [Hr Hd].
    rewrite Hpar. apply resolve_None. intros d [Hd'|Hd']%elem_of_app.
    - rewrite resolve_None in Hr. auto.
    - by apply list_elem_of_singleton in Hd' as ->. }
  assert (os.Stat fs1 (pkgPath dir)
          = Err (PathError "stat" (pkgPath dir) ENOENT)) as HS.
  { unfold os.Stat, os.statAt, os.walk. by rewrite Hr1, Hn1. }
  rewrite HS in HE.
  assert (os.keeps fs1 fs'
          /\ forall q, q <> pkgPath dir ->
                       os.files fs' !! q = os.files fs1 !! q) as [Hk' Hq'].
  { split.
    - intros q n Hqn.
      destruct (WriteFile_files _ _ _ _ _ q HE) as [->|(-> & _)]; congruence.
    - intros q Hne.
      destruct (WriteFile_files _ _ _ _ _ q HE) as [?|(? & _)]; done. }
  split; [|split; [by eapply keeps_trans|]].
  - destruct r as [e|].
    + right. pose proof HE as HE'.
      apply WriteFile_fail in HE as [->|(Hlt & -> & _)].
      * revert HE'. unfold os.WriteFile.
        rewrite Hr1, Hn1. case_decide; [done|].
        by intros [= _ <-].
      * done.
    + split; [by eapply WriteFile_ReadFile|].
      by eapply WriteFile_Stat_dir.
  - intros q Hq1 Hq2 Hq3. rewrite Hq' by done. by apply Hq.
Qed.

End NpmFacts.

(** * Loading the manifest *)

Section LoadFacts.

Variable json_Unmarshal : string -> result manifest.Manifest.
Variable client_Get : Z -> string -> result loader.Response.

Local Abbreviation loadBytes := (loader.loadBytes json_Unmarshal).
Local Abbreviation loadRemote :=
  (loader.loadRemote json_Unmarshal client_Get).
Local Abbreviation Load embedded :=
  (loader.Load embedded json_Unmarshal client_Get).

(** X18.  The sources of [Load] in their order.  A manifest the
    remote source delivers is the result whatever the disk and the
    embedded manifest hold.  A remote source that fails, in whichever
    way, counts as none: the result is that of [Load] without a remote
    URL.  Without a remote manifest, an override file that exists
    decides the result alone, also when it does not parse: the embedded
    manifest is not consulted. *)
Theorem Load_sources (embedded : string) (fs : os.FS)
  (opts : loader.LoadOptions) :
  (forall m,
      loader.RemoteURL opts <> "" ->
      loadRemote (loader.RemoteURL opts) (loader.Timeout opts) = Ok m ->
      forall embedded' fs', Load embedded' fs' opts = Ok m)
  /\ (forall e,
        loadRemote (loader.RemoteURL opts) (loader.Timeout opts) = Err e ->
        Load embedded fs opts
        = Load embedded fs
            (loader.mkLoadOptions "" (loader.LocalOverride opts)
               (loader.Timeout opts)))
  /\ (forall data,
        loader.LocalOverride opts <> "" ->
        os.ReadFile fs (loader.LocalOverride opts) = Ok data ->
        forall embedded',
          Load embedded' fs
            (loader.mkLoadOptions "" (loader.LocalOverride opts)
               (loader.Timeout opts))
          = loadBytes data).
Proof.
  split; [|split].
  - intros m Hurl Hr embedded' fs'. unfold loader.Load.
    rewrite decide_True by done. by rewrite Hr.
  - intros e Hr. unfold loader.Load. rewrite Hr.
    cbn [loader.RemoteURL]. rewrite (decide_False (P:="" <> "")) by (by intros []).
    by case_decide.
  - intros data Hov Hread embedded'. unfold loader.Load, loader.loadLocal.
    cbn [loader.RemoteURL loader.LocalOverride].
    rewrite (decide_False (P:="" <> "")) by (by intros []).
    rewrite decide_True by done. by rewrite Hread.
Qed.

(** X19.  [Load] never reports a failure of the remote source.  Its
    error is either a parse error, prefixed "parse manifest: ", or the
    error of reading the configured override, prefixed
    "read override PATH: ", when that read fails otherwise than by the
    path not existing.  With an embedded manifest that parses, and no
    override configured or its path not existing (the file, or a
    directory on the way to it, is missing), [Load] succeeds whatever
    the network does. *)
Theorem Load_errors (embedded : string) (fs : os.FS)
  (opts : loader.LoadOptions) :
  (forall e,
      Load embedded fs opts = Err e ->
      (exists e', e = wrapError "parse manifest: " e')
      \/ (exists e',
             loader.LocalOverride opts <> ""
             /\ os.ReadFile fs (loader.LocalOverride opts) = Err e'
             /\ os_IsNotExist e' = false
             /\ e = wrapError ("read override " +:+ loader.LocalOverride opts
                               +:+ ": ") e'))
  /\ (forall m0,
        json_Unmarshal embedded = Ok m0 ->
        loader.LocalOverride opts = ""
        \/ os.walk fs (os.parents (loader.LocalOverride opts))
             (loader.LocalOverride opts) = inl ENOENT ->
        exists m, Load embedded fs opts = Ok m).
Proof.
  assert (forall e,
             loader.loadLocal embedded json_Unmarshal fs opts = Err e ->
             (exists e', e = wrapError "parse manifest: " e')
             \/ (exists e',
                    loader.LocalOverride opts <> ""
                    /\ os.ReadFile fs (loader.LocalOverride opts) = Err e'
                    /\ os_IsNotExist e' = false
                    /\ e = wrapError ("read override "
                                      +:+ loader.LocalOverride opts
                                      +:+ ": ") e')) as Hlocal.
  { intros e. unfold loader.loadLocal, loader.loadBytes.
    case_decide as Hov.
    - destruct (os.ReadFile fs _) as [data|e'] eqn:Hread.
      + destruct (json_Unmarshal data); intros [= <-]; eauto.
      + destruct (os_IsNotExist e') eqn:Hne; cbn [negb].
        * destruct (json_Unmarshal embedded); intros [= <-]; eauto.
        * intros [= <-]. right. eauto 10.
    - destruct (json_Unmarshal embedded); intros [= <-]; eauto. }
  assert (forall m0,
             json_Unmarshal embedded = Ok m0 ->
             loader.LocalOverride opts = ""
             \/ os.walk fs (os.parents (loader.LocalOverride opts))
                  (loader.LocalOverride opts) = inl ENOENT ->
             loader.loadLocal embedded json_Unmarshal fs opts = Ok m0)
    as Hok.
  { intros m0 Hemb Hno. unfold loader.loadLocal, loader.loadBytes.
    case_decide as Hov; [|by rewrite Hemb].
    destruct Hno as [Hno|Hno]; [done|].
    unfold os.ReadFile. rewrite Hno. cbn. by rewrite Hemb. }
  split.
  - intros e. unfold loader.Load.
    case_decide; [|by apply Hlocal].
    destruct (loader.loadRemote _ _ _ _); [done|]. by apply Hlocal.
  - intros m0 Hemb Hno. unfold loader.Load.
    case_decide; [|by eauto].
    destruct (loader.loadRemote _ _ _ _); eauto.
Qed.

End LoadFacts.

(** * The latest log *)

Lemma last_filter_index {A} (P : A -> Prop) `{!forall x, Decision (P x)}
  (l : list A) :
  match list.last (filter P l) with
  | None => forall x, x ∈ l -> ~ P x
  | Some e =>
      exists j, l !! j = Some e /\ P e
                /\ forall i x, l !! i = Some x -> P x -> i <= j
  end.
Proof.
  induction l as [|x l IH] using rev_ind.
  - cbn. intros x Hx. by apply elem_of_nil in Hx.
  - rewrite list.filter_app, filter_cons, filter_nil.
    case_decide as HP.
    + rewrite list.last_snoc. exists (length l). split; [|split; [done|]].
      * by rewrite lookup_app_r, Nat.sub_diag.
      * intros i y Hi _. apply lookup_lt_Some in Hi.
        rewrite length_app in Hi. cbn in Hi. lia.
    + rewrite app_nil_r.
      destruct (list.last (filter P l)) as [e|].
      * destruct IH as (j & Hj & HPe & Hmax).
        exists j. split; [|split; [done|]].
        -- by apply lookup_app_l_Some.
        -- intros i y Hi HPy.
           destruct (decide (i < length l)) as [Hlt|Hge].
           ++ rewrite lookup_app_l in Hi by done. eauto.
           ++ rewrite lookup_app_r in Hi by lia.
              destruct (i - length l) as [|k]; [|done].
              injection Hi as <-. done.
      * intros y Hy. apply elem_of_app in Hy as [Hy|Hy]; [by apply IH|].
        apply list_elem_of_singleton in Hy as ->. done.
Qed.

Section LoggerFacts.

Variable filepath_Join : list string -> string.
Variable os_ReadDir : string -> result (list logger.DirEntry).

Local Abbreviation LatestLogPath :=
  (logger.LatestLogPath filepath_Join os_ReadDir).

Lemma LatestLogPath_loop logsDir entries latest :
  foldl (fun latest e =>
           if negb (logger.IsDir e)
           then filepath_Join [logsDir; logger.Name e] else latest)
        latest entries
  = match list.last (filter (fun e => logger.IsDir e = false) entries) with
    | Some e => filepath_Join [logsDir; logger.Name e]
    | None => latest
    end.
Proof.
  induction entries as [|e entries IH] using rev_ind; [done|].
  rewrite foldl_app, list.filter_app, filter_cons, filter_nil. cbn [foldl].
  destruct (logger.IsDir e) eqn:Hd; cbn [negb].
  - rewrite decide_False by done. by rewrite app_nil_r.
  - rewrite decide_True by done. by rewrite list.last_snoc.
Qed.

(** X20.  [LatestLogPath] is the path of the last entry of the logs
    directory that is not a directory, and the empty string when the
    directory cannot be read or holds no such entry.  With the entries
    in the order of their names, as [os.ReadDir] lists them, no regular
    file of the directory has a greater name than the one returned. *)
Theorem LatestLogPath_latest (platformDir : string)
  (entries : list logger.DirEntry) :
  let logsDir := filepath_Join [platformDir; ".kb"; "logs"] in
  (forall err, os_ReadDir logsDir = Err err -> LatestLogPath platformDir = "")
  /\ (os_ReadDir logsDir = Ok entries ->
      match list.last (filter (fun e => logger.IsDir e = false) entries) with
      | None => LatestLogPath platformDir = ""
      | Some e =>
          LatestLogPath platformDir = filepath_Join [logsDir; logger.Name e]
          /\ ((forall i j a b,
                  i <= j -> entries !! i = Some a -> entries !! j = Some b ->
                  String.leb (logger.Name a) (logger.Name b) = true) ->
              forall e',
                e' ∈ entries -> logger.IsDir e' = false ->
                String.leb (logger.Name e') (logger.Name e) = true)
      end).
Proof.
  cbv zeta. split.
  - intros err Hr. unfold logger.LatestLogPath. by rewrite Hr.
  - intros Hr. unfold logger.LatestLogPath. rewrite Hr.
    rewrite LatestLogPath_loop.
    pose proof (last_filter_index (fun e => logger.IsDir e = false) entries)
      as Hlast.
    destruct (list.last _) as [e|] eqn:El.
    + destruct Hlast as (j & Hj & _ & Hmax).
      case_decide as Hlen.
      { destruct entries; [done|]. done. }
      split; [done|].
      intros Hsorted e' Hin Hfile.
      apply list_elem_of_lookup in Hin as [i Hi].
      eapply (Hsorted i j); eauto.
    + by case_decide.
Qed.

End LoggerFacts.

(** * The wizard *)

Lemma fill_slice {A B} (f : A -> B) (l : list A) (pre : list B) (d : B) :
  foldl (fun items (ip : nat * A) => <[ip.1 := f ip.2]> items)
        (pre ++ replicate (length l) d)
        (imap (fun i x => (length pre + i, x)) l)
  = pre ++ (f <$> l).
Proof.
  revert pre. induction l as [|x l IH]; intros pre; simpl.
  - done.
  - rewrite insert_app_r. simpl.
    replace (pre ++ f x :: replicate (length l) d)
      with ((pre ++ [f x]) ++ replicate (length l) d)
      by (by rewrite <- app_assoc).
    rewrite (imap_ext _ (fun i y => (length (pre ++ [f x]) + i, y))).
    + rewrite IH. by rewrite <- app_assoc.
    + intros i y _. simpl. rewrite length_app. simpl. f_equal. lia.
Qed.

Lemma checkItems_map comps :
  wizard.checkItems comps
  = (fun c => wizard.mkCheckItem (manifest.ID c) (manifest.Pkg c)
                (manifest.Description c) (manifest.Default c)) <$> comps.
Proof.
  unfold wizard.checkItems.
  apply (fill_slice
           (fun c => wizard.mkCheckItem (manifest.ID c) (manifest.Pkg c)
                       (manifest.Description c) (manifest.Default c))
           comps []).
Qed.

Lemma checkItems_length comps :
  length (wizard.checkItems comps) = length comps.
Proof. by rewrite checkItems_map, length_fmap. Qed.

Lemma filter_fmap_comm {A B} (f : A -> B) (P : B -> Prop)
  `{!forall y, Decision (P y)} (l : list A) :
  filter P (f <$> l) = f <$> filter (fun x => P (f x)) l.
Proof.
  induction l as [|x l IH]; [done|].
  rewrite fmap_cons, !filter_cons, IH. by case_decide.
Qed.

(** The ids ticked in a list of items built from components are the ids
    of the components that are on by default. *)
Lemma ticked_checkItems comps :
  foldl (fun ids s => if wizard.checked s then ids ++ [wizard.id s] else ids)
        [] (wizard.checkItems comps)
  = foldl (fun ids c => if manifest.Default c then ids ++ [manifest.ID c]
                        else ids) [] comps.
Proof.
  rewrite !foldl_collect, checkItems_map. cbn [app].
  rewrite filter_fmap_comm, <- list_fmap_compose. done.
Qed.

Lemma unique_key {A} (f : A -> string) (l : list A) (x y : A) :
  NoDup (f <$> l) -> x ∈ l -> y ∈ l -> f x = f y -> x = y.
Proof.
  intros Hnd Hx Hy Hf.
  pose proof (filter_unique_key f l y Hnd Hy) as Hfl.
  assert (x ∈ filter (fun z => f z = f y) l) as Hin.
  { by apply list_elem_of_filter. }
  rewrite Hfl in Hin. by apply list_elem_of_singleton in Hin.
Qed.

Lemma selected_defaults comps :
  NoDup (manifest.ID <$> comps) ->
  filter (fun c => manifest.ID c
                   ∈ manifest.ID <$> filter (fun c => manifest.Default c = true)
                                       comps) comps
  = filter (fun c => manifest.Default c = true) comps.
Proof.
  intros Hnd. apply filter_ext_elem. intros c Hc. split.
  - intros Hin. apply list_elem_of_fmap in Hin as (c' & Hid & Hc').
    apply list_elem_of_filter in Hc' as [Hd Hc'].
    by rewrite (unique_key manifest.ID comps c c' Hnd Hc Hc' Hid).
  - intros Hd. apply list_elem_of_fmap. exists c. split; [done|].
    by apply list_elem_of_filter.
Qed.

Section WizardFacts.

Variable Input : Type.
Variable textinput_New : Input.
Variable set_Placeholder : string -> Input -> Input.
Variable set_Width : Z -> Input -> Input.
Variable SetValue : string -> Input -> Input.
Variable Value : Input -> string.
Variable Focus : Input -> Input.
Variable Blur : Input -> Input.
Variable Input_Update : wizard.Msg -> Input -> Input.
Variable os_UserHomeDir : string.
Variable os_Getwd : string.
Variable filepath_Join : list string -> string.
Variable strings_TrimSpace : string -> string.
Implicit Types (m : manifest.Manifest) (opts : wizard.WizardOptions)
  (wm : wizard.wizardModel Input).

Local Abbreviation newModel :=
  (wizard.newModel textinput_New set_Placeholder set_Width SetValue Focus
     os_UserHomeDir os_Getwd filepath_Join).
Local Abbreviation Update :=
  (wizard.Update Value Focus Blur Input_Update strings_TrimSpace).
Local Abbreviation play :=
  (wizard.play Value Focus Blur Input_Update strings_TrimSpace).
Local Abbreviation toSelection :=
  (wizard.toSelection Value os_UserHomeDir filepath_Join).
Local Abbreviation defaultSelection :=
  (wizard.defaultSelection os_UserHomeDir os_Getwd filepath_Join).
Local Abbreviation Run :=
  (wizard.Run Value os_UserHomeDir os_Getwd filepath_Join).

(** The directories the wizard starts from. *)
Local Abbreviation platformDir0 opts :=
  (if decide (wizard.DefaultPlatformDir opts = "")
   then filepath_Join [os_UserHomeDir; "kb-platform"]
   else wizard.DefaultPlatformDir opts).
Local Abbreviation cwd0 opts :=
  (if decide (wizard.DefaultProjectCWD opts = "") then os_Getwd
   else wizard.DefaultProjectCWD opts).

(** The cursor is on an item and the items are those of [m]. *)
Local Abbreviation inRange m wm :=
  (Z.le 0 (wizard.cursor wm) /\ Z.lt (wizard.cursor wm) (wizard.total wm)
   /\ length (wizard.services wm) = length (manifest.Services m)
   /\ length (wizard.plugins wm) = length (manifest.Plugins m)).

(** Past the first screen the directories are not blank, and only
    the last screen confirms. *)
Local Abbreviation sound wm :=
  ((wizard.stage_ wm <> wizard.stageDirs ->
    strings_TrimSpace (Value (wizard.platformInput wm)) <> ""
    /\ strings_TrimSpace (Value (wizard.cwdInput wm)) <> "")
   /\ (wizard.confirmed wm = true ->
       wizard.stage_ wm = wizard.stageConfirm)).

Lemma Update_enter_dirs wm :
  wizard.stage_ wm = wizard.stageDirs ->
  wizard.validateDirs Value strings_TrimSpace wm = None ->
  Update wm (wizard.KeyMsg "enter")
  = Some (wizard.set_cursor
            (wizard.set_stage (wizard.set_errMsg wm "") wizard.stageOptions)
            0%Z, wizard.cmdNil).
Proof.
  intros Hst Hv. unfold wizard.Update, wizard.handleKey. rewrite Hst.
  unfold wizard.handleDirsKey. rewrite Hv.
  rewrite (decide_False (P:="enter" ∈ ["ctrl+c"; "esc"])) by compute_done.
  rewrite (decide_False (P:="enter" ∈ ["tab"; "down"])) by compute_done.
  by rewrite (decide_True (P:="enter" = "enter")).
Qed.

Lemma Update_enter_options wm :
  wizard.stage_ wm = wizard.stageOptions ->
  Update wm (wizard.KeyMsg "enter")
  = Some (wizard.set_stage wm wizard.stageConfirm, wizard.cmdNil).
Proof.
  intros Hst. unfold wizard.Update, wizard.handleKey. rewrite Hst.
  unfold wizard.handleOptionsKey.
  rewrite (decide_False (P:="enter" ∈ ["ctrl+c"; "esc"])) by compute_done.
  rewrite (decide_False (P:="enter" ∈ ["up"; "k"])) by compute_done.
  rewrite (decide_False (P:="enter" ∈ ["down"; "j"])) by compute_done.
  rewrite (decide_False (P:="enter" = " ")) by done.
  by rewrite (decide_True (P:="enter" = "enter")).
Qed.

Lemma Update_enter_confirm wm :
  wizard.stage_ wm = wizard.stageConfirm ->
  Update wm (wizard.KeyMsg "enter")
  = Some (wizard.set_confirmed wm true, wizard.tea_Quit).
Proof.
  intros Hst. unfold wizard.Update, wizard.handleKey. rewrite Hst.
  unfold wizard.handleConfirmKey.
  rewrite (decide_False (P:="enter" ∈ ["ctrl+c"; "esc"; "n"; "N"]))
    by compute_done.
  by rewrite (decide_True (P:="enter" ∈ ["enter"; "y"; "Y"]))
    by compute_done.
Qed.

Lemma toggleCursor_inRange m wm :
  inRange m wm ->
  exists wm', wizard.toggleCursor wm = Some wm' /\ inRange m wm'.
Proof.
  intros (Hc0 & Hc & Hs & Hp). unfold wizard.total in Hc.
  unfold wizard.toggleCursor, wizard.index.
  destruct (wizard.cursor wm <? Z.of_nat (length (wizard.services wm)))%Z
    eqn:Hlt.
  - apply Z.ltb_lt in Hlt.
    rewrite (proj2 (Z.ltb_ge _ _)) by lia.
    destruct (lookup_lt_is_Some_2 (wizard.services wm)
                (Z.to_nat (wizard.cursor wm))) as [it Hit]; [lia|].
    rewrite Hit. eexists. split; [done|].
    unfold wizard.total, wizard.set_services.
    cbn [wizard.cursor wizard.services wizard.plugins].
    rewrite length_insert. auto.
  - apply Z.ltb_ge in Hlt.
    rewrite (proj2 (Z.ltb_ge _ _)) by lia.
    destruct (lookup_lt_is_Some_2 (wizard.plugins wm)
                (Z.to_nat (wizard.cursor wm
                           - Z.of_nat (length (wizard.services wm)))))
      as [it Hit]; [lia|].
    rewrite Hit. eexists. split; [done|].
    unfold wizard.total, wizard.set_plugins.
    cbn [wizard.cursor wizard.services wizard.plugins].
    rewrite length_insert. auto.
Qed.

Lemma Update_inRange m wm msg :
  inRange m wm ->
  match Update wm msg with
  | None => False
  | Some (wm', _) => inRange m wm'
  end.
Proof.
  intros Hin. pose proof Hin as (Hc0 & Hc & Hs & Hp).
  unfold wizard.total in Hc.
  unfold wizard.Update, wizard.handleKey.
  destruct msg as [key|tag|].
  - destruct (wizard.stage_ wm).
    + unfold wizard.handleDirsKey.
      repeat case_decide; try done.
      destruct (wizard.validateDirs _ _ _); [done|].
      unfold wizard.total. simpl. repeat split; (done || lia).
    + unfold wizard.handleOptionsKey.
      repeat case_decide; try done.
      * destruct (0 <? wizard.cursor wm)%Z eqn:E; [|done].
        apply Z.ltb_lt in E. unfold wizard.total. simpl.
        repeat split; (done || lia).
      * destruct (wizard.cursor wm <? _)%Z eqn:E; [|done].
        apply Z.ltb_lt in E. unfold wizard.total. simpl.
        repeat split; (done || lia).
      * destruct (toggleCursor_inRange m wm Hin) as (wm' & -> & Hin').
        done.
    + unfold wizard.handleConfirmKey. repeat case_decide; done.
  - repeat case_decide; done.
  - repeat case_decide; done.
Qed.

Lemma toggleCursor_keeps wm wm' :
  wizard.toggleCursor wm = Some wm' ->
  wizard.cancelled wm' = wizard.cancelled wm
  /\ wizard.confirmed wm' = wizard.confirmed wm
  /\ wizard.stage_ wm' = wizard.stage_ wm
  /\ wizard.platformInput wm' = wizard.platformInput wm
  /\ wizard.cwdInput wm' = wizard.cwdInput wm.
Proof.
  unfold wizard.toggleCursor.
  destruct (_ <? _)%Z; destruct (wizard.index _ _); intros [= <-]; done.
Qed.

(** One step keeps a model sound and never clears a flag; a step that
    returns [tea.Quit] has set one. *)
Lemma Update_sound wm msg :
  sound wm ->
  match Update wm msg with
  | None => True
  | Some (wm', c) =>
      sound wm'
      /\ (wizard.cancelled wm = true -> wizard.cancelled wm' = true)
      /\ (wizard.confirmed wm = true -> wizard.confirmed wm' = true)
      /\ (wizard.isQuit c = true ->
          wizard.cancelled wm' = true \/ wizard.confirmed wm' = true)
  end.
Proof.
  intros (Hd & Hco).
  assert (forall wm',
             wizard.stage_ wm' = wizard.stage_ wm ->
             wizard.platformInput wm' = wizard.platformInput wm ->
             wizard.cwdInput wm' = wizard.cwdInput wm ->
             wizard.confirmed wm' = wizard.confirmed wm ->
             sound wm') as Hsame.
  { intros wm' -> -> -> ->. done. }
  assert (wizard.stage_ wm = wizard.stageDirs ->
          forall wm',
            wizard.stage_ wm' = wizard.stageDirs ->
            wizard.confirmed wm' = wizard.confirmed wm -> sound wm')
    as Hinput.
  { intros Hst wm' Hst' Hc'. split.
    - intros Hne. by destruct Hne.
    - rewrite Hc'. intros Hc. specialize (Hco Hc). congruence. }
  unfold wizard.Update, wizard.handleKey.
  destruct msg as [key|tag|].
  - destruct (wizard.stage_ wm) eqn:Hst.
    + assert (wizard.confirmed wm = false) as Hnc.
      { destruct (wizard.confirmed wm); [|done]. by specialize (Hco eq_refl). }
      assert (forall wm',
                 wizard.stage_ wm' = wizard.stageDirs ->
                 wizard.confirmed wm' = false -> sound wm') as Hdirs.
      { intros wm' -> ->. split; [|done]. intros Hne. by destruct Hne. }
      clear Hd Hsame. unfold wizard.handleDirsKey, wizard.validateDirs.
      repeat case_decide; cbv beta iota;
        (split; [try (by apply Hdirs)
                |split; [done|split; [done|try (by left); try done]]]).
      split; [done|]. simpl. intros Hc. congruence.
    + destruct Hd as [Hd1 Hd2]; [done|].
      unfold wizard.handleOptionsKey.
      repeat case_decide;
        repeat (match goal with
                | |- context [(?a <? ?b)%Z] => destruct (a <? b)%Z
                end);
        cbv beta iota;
        try (split; [try (by apply Hsame)
                    |split; [done|split; [done|try (by left); try done]]]).
      * destruct (wizard.toggleCursor wm) as [wm'|] eqn:Ht; [|done].
        apply toggleCursor_keeps in Ht as (? & ? & ? & ? & ?).
        split; [apply Hsame; congruence|].
        split; [congruence|]. split; [congruence|done].
      * split; [done|]. simpl. intros Hc. specialize (Hco Hc). congruence.
    + destruct Hd as [Hd1 Hd2]; [done|].
      unfold wizard.handleConfirmKey.
      repeat case_decide; cbv beta iota;
        (split; [try (by apply Hsame)
                |split; [done|split; [done|try (by left); try (by right);
                                       try done]]]).
      split; [done|]. simpl. by rewrite Hst.
  - repeat case_decide; cbv beta iota;
      (split; [try (by apply Hinput); try (by apply Hsame)
              |split; [done|split; [done|done]]]).
  - repeat case_decide; cbv beta iota;
      (split; [try (by apply Hinput); try (by apply Hsame)
              |split; [done|split; [done|done]]]).
Qed.

Lemma defaultSelection_ids m opts :
  installer.Services (defaultSelection m opts)
  = manifest.ID <$> filter (fun c => manifest.Default c = true)
                      (manifest.Services m)
  /\ installer.Plugins (defaultSelection m opts)
     = manifest.ID <$> filter (fun c => manifest.Default c = true)
                         (manifest.Plugins m).
Proof.
  unfold wizard.defaultSelection.
  cbn [installer.Services installer.Plugins].
  by rewrite !foldl_collect.
Qed.

Lemma defaultSelection_installPkgs m opts :
  NoDup (manifest.ID <$> manifest.Services m) ->
  NoDup (manifest.ID <$> manifest.Plugins m) ->
  installer.installPkgs (defaultSelection m opts) m
  = (manifest.Name <$> manifest.Core m)
    ++ (manifest.Pkg <$> filter (fun c => manifest.Default c = true)
                           (manifest.Services m))
    ++ (manifest.Pkg <$> filter (fun c => manifest.Default c = true)
                           (manifest.Plugins m)).
Proof.
  intros Hnd1 Hnd2. destruct (defaultSelection_ids m opts) as [Hs Hp].
  rewrite installPkgs_eq, Hs, Hp. by rewrite !selected_defaults.
Qed.

(** X21.  The selection of [--yes] holds the ids of the services and
    of the plugins that are on by default, in manifest order; where
    ids are unique within the services and within the plugins,
    [Install] with it installs the core packages, then the packages of
    the default services, then those of the default plugins. *)
Theorem defaultSelection_installs_defaults m opts :
  installer.Services (defaultSelection m opts)
  = manifest.ID <$> filter (fun c => manifest.Default c = true)
                      (manifest.Services m)
  /\ installer.Plugins (defaultSelection m opts)
     = manifest.ID <$> filter (fun c => manifest.Default c = true)
                         (manifest.Plugins m)
  /\ (NoDup (manifest.ID <$> manifest.Services m) ->
      NoDup (manifest.ID <$> manifest.Plugins m) ->
      installer.installPkgs (defaultSelection m opts) m
      = (manifest.Name <$> manifest.Core m)
        ++ (manifest.Pkg <$> filter (fun c => manifest.Default c = true)
                               (manifest.Services m))
        ++ (manifest.Pkg <$> filter (fun c => manifest.Default c = true)
                               (manifest.Plugins m))).
Proof.
  destruct (defaultSelection_ids m opts) as [Hs Hp].
  split; [done|]. split; [done|]. apply defaultSelection_installPkgs.
Qed.

(** X22.  Pressing enter on each of the three screens of the wizard
    gives the selection of [--yes]: with inputs that show what they
    were filled with, neither of them blank, the program ends
    confirmed after three enter keys and [Run] returns
    [defaultSelection]. *)
Theorem wizard_accept_defaults m opts :
  Value (wizard.platformInput (newModel m opts)) = platformDir0 opts ->
  Value (wizard.cwdInput (newModel m opts)) = cwd0 opts ->
  strings_TrimSpace (platformDir0 opts) <> "" ->
  strings_TrimSpace (cwd0 opts) <> "" ->
  wizard.Yes opts = false ->
  exists final,
    play (newModel m opts)
      [wizard.KeyMsg "enter"; wizard.KeyMsg "enter"; wizard.KeyMsg "enter"]
    = wizard.Exited final
    /\ wizard.confirmed final = true
    /\ Run m opts (Ok final) = Ok (defaultSelection m opts).
Proof.
  intros Hpi Hci Hp Hc Hyes.
  assert (wizard.validateDirs Value strings_TrimSpace (newModel m opts)
          = None) as Hv.
  { unfold wizard.validateDirs. rewrite Hpi, Hci.
    rewrite !decide_False; done. }
  eexists. split; [|split].
  - unfold wizard.play. cbn [wizard.eventLoop].
    rewrite (Update_enter_dirs (newModel m opts) eq_refl Hv).
    rewrite Update_enter_options by done.
    rewrite Update_enter_confirm by done. reflexivity.
  - done.
  - unfold wizard.Run. rewrite Hyes. cbn [wizard.cancelled wizard.newModel
      wizard.set_confirmed wizard.set_stage wizard.set_cursor
      wizard.set_errMsg].
    unfold wizard.set_confirmed, wizard.set_stage, wizard.set_cursor,
      wizard.set_errMsg. cbn [wizard.cancelled wizard.newModel].
    f_equal. unfold wizard.toSelection, wizard.defaultSelection.
    cbn [wizard.services wizard.plugins wizard.platformInput
         wizard.cwdInput wizard.newModel].
    rewrite !ticked_checkItems.
    change (Value _) with (Value (wizard.platformInput (newModel m opts)))
      at 1.
    rewrite Hpi.
    change (Value _) with (Value (wizard.cwdInput (newModel m opts))) at 1.
    by rewrite Hci.
Qed.

(** X23.  With at least one service or plugin in the manifest, no
    sequence of messages makes the wizard index a slice out of range:
    the program never panics, the cursor stays on an item of the
    options screen, and the lists of items keep their lengths. *)
Theorem wizard_cursor_in_range m opts (msgs : list wizard.Msg) :
  0 < length (manifest.Services m) + length (manifest.Plugins m) ->
  match play (newModel m opts) msgs with
  | wizard.Panicked => False
  | wizard.Running wm | wizard.Exited wm => inRange m wm
  end.
Proof.
  intros Hpos.
  assert (inRange m (newModel m opts)) as H0.
  { unfold wizard.total. cbn [wizard.cursor wizard.services wizard.plugins
      wizard.newModel]. rewrite !checkItems_length.
    split; [done|]. split; [lia|done]. }
  revert H0. unfold wizard.play. generalize false.
  generalize (newModel m opts). clear Hpos.
  induction msgs as [|msg msgs IH]; intros wm quit Hwm.
  - by destruct quit.
  - pose proof (Update_inRange m wm msg Hwm) as Hu.
    destruct msg as [key|tag|]; cbn [wizard.eventLoop]; [| |done];
      (destruct (Update wm _) as [[wm' c]|]; [|done]); by apply IH.
Qed.

(** X24.  With no service and no plugin in the manifest, the space
    key on the options screen indexes the empty list of plugins: once
    the directories are accepted, [Update] panics on it. *)
Theorem wizard_no_components_panic m opts :
  manifest.Services m = [] ->
  manifest.Plugins m = [] ->
  strings_TrimSpace (Value (wizard.platformInput (newModel m opts))) <> "" ->
  strings_TrimSpace (Value (wizard.cwdInput (newModel m opts))) <> "" ->
  play (newModel m opts) [wizard.KeyMsg "enter"; wizard.KeyMsg " "]
  = wizard.Panicked.
Proof.
  intros Hs Hp Hv1 Hv2.
  assert (wizard.validateDirs Value strings_TrimSpace (newModel m opts)
          = None) as Hv.
  { unfold wizard.validateDirs. rewrite !decide_False; done. }
  unfold wizard.play. cbn [wizard.eventLoop].
  rewrite (Update_enter_dirs (newModel m opts) eq_refl Hv).
  unfold wizard.Update, wizard.handleKey, wizard.handleOptionsKey.
  cbn [wizard.stage_ wizard.set_cursor wizard.set_stage wizard.set_errMsg].
  unfold wizard.set_cursor, wizard.set_stage, wizard.set_errMsg.
  cbn [wizard.stage_].
  rewrite (decide_False (P:=" " ∈ ["ctrl+c"; "esc"])) by compute_done.
  rewrite (decide_False (P:=" " ∈ ["up"; "k"])) by compute_done.
  rewrite (decide_False (P:=" " ∈ ["down"; "j"])) by compute_done.
  rewrite (decide_True (P:=" " = " ")) by done.
  unfold wizard.toggleCursor.
  cbn [wizard.cursor wizard.services wizard.plugins wizard.newModel].
  rewrite Hs, Hp. done.
Qed.

(** X25.  [Run] looks at one flag only: for a run that ended it
    returns the "installation cancelled" error when the final model
    is cancelled and the selection on the screen otherwise.  A run
    that no quit message from outside ended, and that was not
    cancelled, was confirmed on the confirmation screen, with a
    platform directory and a project directory that are not blank.
    A quit message from outside ends the run as it is: before any
    key, nothing is confirmed and [Run] still returns the selection
    of the first screen. *)
Theorem wizard_confirmed_dirs m opts (msgs : list wizard.Msg)
  (final : wizard.wizardModel Input) :
  play (newModel m opts) msgs = wizard.Exited final ->
  wizard.Yes opts = false ->
  ((wizard.cancelled final = true
    /\ Run m opts (Ok final) = Err (errorString "installation cancelled"))
   \/ (wizard.cancelled final = false
       /\ Run m opts (Ok final) = Ok (toSelection final)
       /\ (wizard.QuitMsg ∉ msgs ->
           wizard.confirmed final = true
           /\ wizard.stage_ final = wizard.stageConfirm
           /\ strings_TrimSpace (Value (wizard.platformInput final)) <> ""
           /\ strings_TrimSpace (Value (wizard.cwdInput final)) <> "")))
  /\ (play (newModel m opts) [wizard.QuitMsg]
      = wizard.Exited (newModel m opts)
      /\ wizard.confirmed (newModel m opts) = false
      /\ Run m opts (Ok (newModel m opts))
         = Ok (toSelection (newModel m opts))).
Proof.
  intros Hplay Hyes. split; [|by unfold wizard.Run; rewrite Hyes].
  assert (wizard.QuitMsg ∉ msgs ->
          sound final
          /\ (wizard.cancelled final = true
              \/ wizard.confirmed final = true)) as Hown.
  { assert (sound (newModel m opts)) as H0.
    { split; [intros Hne; by destruct Hne|done]. }
    assert (false = true ->
            wizard.cancelled (newModel m opts) = true
            \/ wizard.confirmed (newModel m opts) = true) as Hq0 by done.
    revert H0 Hq0 Hplay. unfold wizard.play. generalize false.
    generalize (newModel m opts).
    induction msgs as [|msg msgs IH]; intros wm quit Hwm Hq.
    - cbn [wizard.eventLoop]. destruct quit; [|done].
      intros [= <-]. auto.
    - intros Hplay [Hne Hnq]%not_elem_of_cons.
      pose proof (Update_sound wm msg Hwm) as Hu.
      revert Hplay.
      destruct msg as [key|tag|]; cbn [wizard.eventLoop]; [| |done];
        (destruct (Update wm _) as [[wm' c]|]; [|done];
         destruct Hu as (Hs' & Hca' & Hco' & Hquit);
         intros Hplay; apply (IH wm' (quit || wizard.isQuit c)); try done;
         intros [Hqt|Hqt]%orb_true_iff; [|by apply Hquit];
         destruct (Hq Hqt); auto). }
  unfold wizard.Run. rewrite Hyes.
  destruct (wizard.cancelled final) eqn:Hca; [by left|right].
  split; [done|]. split; [done|]. intros Hnq.
  destruct (Hown Hnq) as [[Hd Hco] Hflag].
  destruct Hflag as [?|Hc]; [congruence|].
  pose proof (Hco Hc) as Hst.
  destruct Hd as [? ?]; [by rewrite Hst|]. auto.
Qed.

(** X26.  On the options screen the space key is its own inverse:
    where toggling succeeds, toggling again gives back the model. *)
Theorem toggleCursor_involutive (wm wm1 : wizard.wizardModel Input) :
  wizard.toggleCursor wm = Some wm1 -> wizard.toggleCursor wm1 = Some wm.
Proof.
  unfold wizard.toggleCursor, wizard.index.
  destruct wm as [mf em sv pl pi ci st ai cu ca co].
  cbn [wizard.cursor wizard.services wizard.plugins].
  destruct (cu <? Z.of_nat (length sv))%Z eqn:Hlt.
  - destruct (cu <? 0)%Z eqn:Hneg; [done|].
    destruct (sv !! Z.to_nat cu) as [it|] eqn:Hit; [|done].
    intros [= <-]. unfold wizard.set_services.
    cbn [wizard.cursor wizard.services wizard.plugins].
    rewrite length_insert, Hlt, Hneg.
    rewrite list_lookup_insert_eq by (by eapply lookup_lt_Some).
    unfold wizard.set_services. cbn. do 2 f_equal.
    rewrite list_insert_insert_eq.
    destruct it as [a b c d]. unfold wizard.toggled. cbn.
    rewrite negb_involutive. by apply list_insert_id.
  - destruct (cu - Z.of_nat (length sv) <? 0)%Z eqn:Hneg; [done|].
    destruct (pl !! Z.to_nat (cu - Z.of_nat (length sv))) as [it|] eqn:Hit;
      [|done].
    intros [= <-]. unfold wizard.set_plugins.
    cbn [wizard.cursor wizard.services wizard.plugins].
    rewrite Hlt, Hneg.
    rewrite list_lookup_insert_eq by (by eapply lookup_lt_Some).
    unfold wizard.set_plugins. cbn. do 2 f_equal.
    rewrite list_insert_insert_eq.
    destruct it as [a b c d]. unfold wizard.toggled. cbn.
    rewrite negb_involutive. by apply list_insert_id.
Qed.

End WizardFacts.

(** * From the wizard to the engine *)

Section YesFacts.

Context {St : Type}.
Variable Input : Type.
Variable Value : Input -> string.
Variable os_UserHomeDir : string.
Variable os_Getwd : string.
Variable filepath_Join : list string -> string.
Variable filepath_Abs : string -> string.
Variable json_MarshalIndent : config.PlatformConfig -> result string.

Local Abbreviation Run :=
  (wizard.Run Value os_UserHomeDir os_Getwd filepath_Join).
Local Abbreviation Install :=
  (installer.Install (St:=St) filepath_Join filepath_Abs json_MarshalIndent).

(** X27.  With [--yes] the wizard asks nothing, and the [Install] that
    follows makes one capability call: it installs, into the platform
    directory with a leading "~/" expanded, the core packages, the
    packages of the services that are on by default and those of the
    plugins that are on by default (ids being unique within the
    services and within the plugins). *)
Theorem yes_installs_defaults (m : manifest.Manifest)
  (opts : wizard.WizardOptions) (final : result (wizard.wizardModel Input))
  (ins : installer.Installer St) (w : installer.World St) :
  wizard.Yes opts = true ->
  NoDup (manifest.ID <$> manifest.Services m) ->
  NoDup (manifest.ID <$> manifest.Plugins m) ->
  exists sel,
    Run m opts final = Ok sel
    /\ installer.PlatformDir sel
       = wizard.expandHome os_UserHomeDir filepath_Join
           (if decide (wizard.DefaultPlatformDir opts = "")
            then filepath_Join [os_UserHomeDir; "kb-platform"]
            else wizard.DefaultPlatformDir opts)
    /\ installer.pmCalls (installer.trace (Install ins sel m w).1)
       = installer.pmCalls (installer.trace w)
         ++ [installer.PMInstall (installer.PlatformDir sel)
               ((manifest.Name <$> manifest.Core m)
                ++ (manifest.Pkg <$>
                      filter (fun c => manifest.Default c = true)
                             (manifest.Services m))
                ++ (manifest.Pkg <$>
                      filter (fun c => manifest.Default c = true)
                             (manifest.Plugins m)))].
Proof.
  intros Hyes Hnd1 Hnd2. eexists. unfold wizard.Run. rewrite Hyes.
  split; [reflexivity|]. split; [reflexivity|].
  rewrite Install_pmCalls.
  by rewrite (defaultSelection_installPkgs os_UserHomeDir os_Getwd
                filepath_Join m opts Hnd1 Hnd2).
Qed.

End YesFacts.

(** * The added properties on concrete runs *)

Lemma sample_Install_w1 :
  sample.Install sample.ins sample.sel sample.m_AB sample.w0
  = (sample.w1,
     Ok (installer.mkResult "/opt/kb" "/home/u/app"
           "/opt/kb/.kb/kb.config.json" 0)).
Proof. apply pair_of_snd; vm_compute; reflexivity. Qed.

Lemma sample_Update_w2 :
  sample.Update sample.ins "/opt/kb" sample.m_AC sample.w1
  = (sample.w2,
     Ok (installer.mkUpdateResult
           (installer.mkUpdateDiff ["A"] ["C"] ["B"]) 0)).
Proof. apply pair_of_snd; vm_compute; reflexivity. Qed.

Lemma Diff_up_to_date_iff_witness :
  sample.Read (installer.disk sample.w1) "/opt/kb" = Ok sample.cfg1
  /\ (sample.Diff "/opt/kb" sample.m_AC sample.w1).2
     = Ok (installer.mkUpdateDiff ["A"] ["C"] ["B"])
  /\ (installer.HasChanges (installer.mkUpdateDiff ["A"] ["C"] ["B"]) = false
      <-> manifest.pkgRefs sample.m_AB = ∅ /\ manifest.pkgRefs sample.m_AC = ∅).
Proof.
  assert (sample.Read (installer.disk sample.w1) "/opt/kb" = Ok sample.cfg1)
    as HR by (by vm_compute).
  assert ((sample.Diff "/opt/kb" sample.m_AC sample.w1).2
          = Ok (installer.mkUpdateDiff ["A"] ["C"] ["B"])) as HD
    by (by vm_compute).
  split; [exact HR|]. split; [exact HD|].
  exact (Diff_up_to_date_iff refimpl.Join refimpl.Unmarshal refimpl.range_keys
           refimpl_range_keys_perm "/opt/kb" sample.m_AC sample.w1 sample.cfg1
           _ HR HD).
Defined.

Lemma Diff_after_Install_witness :
  config.joinsNested refimpl.Join "/opt/kb"
  /\ config.roundTrips refimpl.MarshalIndent refimpl.Unmarshal sample.cfg1
  /\ sample.Install sample.ins sample.sel sample.m_AB sample.w0
     = (sample.w1,
        Ok (installer.mkResult "/opt/kb" "/home/u/app"
              "/opt/kb/.kb/kb.config.json" 0))
  /\ (sample.Diff "/opt/kb" sample.m_AC sample.w1).2
     = Ok (installer.diffOf refimpl.range_keys sample.m_AB sample.m_AC)
  /\ exists d,
       (sample.Diff "/opt/kb" sample.m_AB sample.w1).2 = Ok d
       /\ installer.Added d = [] /\ installer.Removed d = [].
Proof.
  pose proof (refimpl_Join_nested "/opt/kb") as HJ.
  pose proof (refimpl_roundTrips sample.cfg1) as Hrt.
  pose proof sample_Install_w1 as HI.
  split; [exact HJ|]. split; [exact Hrt|]. split; [exact HI|].
  destruct (Diff_after_Install refimpl.Join refimpl.Abs refimpl.MarshalIndent
              refimpl.Unmarshal refimpl.range_keys refimpl_range_keys_perm
              sample.ins sample.sel sample.m_AB sample.w0 sample.w1 _
              HJ Hrt HI) as (Hany & d & Hd & Ha & Hr & _).
  split; [exact (Hany sample.m_AC)|].
  exists d. split; [exact Hd|]. split; [exact Ha|exact Hr].
Defined.

Lemma Update_settles_witness :
  config.joinsNested refimpl.Join "/opt/kb"
  /\ sample.Update sample.ins "/opt/kb" sample.m_AC sample.w1
     = (sample.w2,
        Ok (installer.mkUpdateResult
              (installer.mkUpdateDiff ["A"] ["C"] ["B"]) 0))
  /\ (exists d,
         (sample.Diff "/opt/kb" sample.m_AC sample.w2).2 = Ok d
         /\ installer.Added d = [] /\ installer.Removed d = [])
  /\ installer.pmCalls
       (installer.trace
          (sample.Update sample.ins "/opt/kb" sample.m_AC sample.w2).1)
     = installer.pmCalls (installer.trace sample.w2)
       ++ [installer.PMUpdate "/opt/kb"
             (installer.updatePkgs sample.m_AC)].
Proof.
  pose proof (refimpl_Join_nested "/opt/kb") as HJ.
  pose proof sample_Update_w2 as HU.
  split; [exact HJ|]. split; [exact HU|].
  destruct (Update_settles refimpl.Join refimpl.MarshalIndent
              refimpl.Unmarshal refimpl.range_keys refimpl_range_keys_perm
              sample.ins "/opt/kb" sample.m_AC sample.w1 sample.w2 _ HJ
              (fun cfg _ => refimpl_roundTrips _) HU)
    as ((d & Hd & Ha & Hr & _) & Hcalls).
  split; [|exact Hcalls].
  exists d. split; [exact Hd|]. split; [exact Ha|exact Hr].
Defined.

Lemma unreadable_snapshot_witness :
  let path := "/opt/kb/.kb/kb.config.json" in
  let corrupt : installer.World fakePM.fakePM :=
    installer.mkWorld
      (os.mkFS (list_to_map [("/opt", os.Dir); ("/opt/kb", os.Dir);
                             ("/opt/kb/.kb", os.Dir);
                             (path, os.File "oops")]) 100) 0
      sample.npm [] in
  let blocked : installer.World fakePM.fakePM :=
    installer.mkWorld sample.snapshotIsDir 0 sample.npm [] in
  os.Stat (installer.disk corrupt) (config.ConfigPath refimpl.Join "/opt/kb")
  = Ok (os.File "oops")
  /\ refimpl.Unmarshal "oops"
     = Err (errorString "unexpected end of JSON input")
  /\ sample.Update sample.ins "/opt/kb" sample.m_AC corrupt
     = (installer.emit (installer.ConfigRead "/opt/kb") corrupt,
        Err (wrapError "parse config: "
               (errorString "unexpected end of JSON input")))
  /\ os.Stat (installer.disk blocked) (config.ConfigPath refimpl.Join "/opt/kb")
     = Ok os.Dir
  /\ sample.Diff "/opt/kb" sample.m_AC blocked
     = (installer.emit (installer.ConfigRead "/opt/kb") blocked,
        Err (wrapError "read config: " (PathError "read" path EISDIR))).
Proof.
  intros path corrupt blocked.
  assert (os.Stat (installer.disk corrupt)
            (config.ConfigPath refimpl.Join "/opt/kb")
          = Ok (os.File "oops")) as Hf by (by vm_compute).
  assert (refimpl.Unmarshal "oops"
          = Err (errorString "unexpected end of JSON input")) as He
    by reflexivity.
  assert (os.Stat (installer.disk blocked)
            (config.ConfigPath refimpl.Join "/opt/kb") = Ok os.Dir)
    as Hd by (by vm_compute).
  split; [exact Hf|]. split; [exact He|].
  destruct (unreadable_snapshot refimpl.Join refimpl.MarshalIndent
              refimpl.Unmarshal refimpl.range_keys sample.ins "/opt/kb"
              sample.m_AC corrupt) as [Hc _].
  destruct (unreadable_snapshot refimpl.Join refimpl.MarshalIndent
              refimpl.Unmarshal refimpl.range_keys sample.ins "/opt/kb"
              sample.m_AC blocked) as [_ Hb].
  split; [exact (proj2 (Hc _ _ Hf He))|].
  split; [exact Hd|]. exact (proj1 (Hb Hd)).
Defined.

Lemma Install_success_effects_witness :
  config.joinsNested refimpl.Join "/opt/kb"
  /\ sample.Install sample.ins sample.sel sample.m_AB sample.w0
     = (sample.w1,
        Ok (installer.mkResult "/opt/kb" "/home/u/app"
              "/opt/kb/.kb/kb.config.json" 0))
  /\ os.files (installer.disk sample.w1) !! "/home/u/app/.kb" = Some os.Dir
  /\ exists evs,
       installer.trace sample.w1 = installer.trace sample.w0 ++ evs
       /\ cmd.stepCalls evs
          = [(1%Z, 2%Z, "Installing 2 packages via npm");
             (2%Z, 2%Z, "Writing config")].
Proof.
  pose proof (refimpl_Join_nested "/opt/kb") as HJ.
  pose proof sample_Install_w1 as HI.
  split; [exact HJ|]. split; [exact HI|].
  destruct (Install_success_effects refimpl.Join refimpl.Abs
              refimpl.MarshalIndent sample.ins sample.sel sample.m_AB
              sample.w0 sample.w1 _ HJ HI) as (_ & _ & Hkb & evs & Htr & Hsc).
  split; [exact Hkb|]. exists evs. split; [exact Htr|exact Hsc].
Defined.

Lemma Write_idempotent_witness :
  let fs1 :=
    (sample.Write (installer.disk sample.w0) "/opt/kb" sample.cfg1).1 in
  sample.Write (installer.disk sample.w0) "/opt/kb" sample.cfg1 = (fs1, None)
  /\ sample.Write fs1 "/opt/kb" sample.cfg1 = (fs1, None).
Proof.
  intros fs1.
  assert (sample.Write (installer.disk sample.w0) "/opt/kb" sample.cfg1
          = (fs1, None)) as HW
    by (apply pair_of_snd; vm_compute; reflexivity).
  split; [exact HW|].
  exact (Write_idempotent refimpl.Join refimpl.MarshalIndent _ _ _ _ HW).
Defined.

(** A run of [runGroup] with two senders, one value each: both send,
    the operation returns, the channel is closed and drained. *)
Lemma sample_run_returns (p1 p3 : pm.Progress)
  (w : installer.World fakePM.fakePM) :
  progress.steps sample.ins (progress.init [[p1]; [p3]] w)
    (progress.mkState [[]; []] progress.Returned [] true
       (foldl (installer.drain1 sample.ins) w [p3; p1])).
Proof.
  unfold progress.steps, progress.init.
  eapply rtc_l.
  { apply (progress.step_send _ 1 p3 []); [reflexivity|].
    unfold progress.capacity. simpl. lia. }
  eapply rtc_l.
  { apply (progress.step_send _ 0 p1 []); [reflexivity|].
    unfold progress.capacity. simpl. lia. }
  eapply rtc_l.
  { apply progress.step_op_return. repeat constructor. }
  eapply rtc_l; [apply progress.step_close|].
  eapply rtc_l; [apply progress.step_recv|].
  eapply rtc_l; [apply progress.step_recv|].
  eapply rtc_l; [apply progress.step_drain_exit|].
  eapply rtc_l; [apply progress.step_return|].
  apply rtc_refl.
Qed.

Lemma runGroup_keeps_stream_order_witness :
  let p1 := pm.mkProgress None "" "added 2 packages" false in
  let p3 := pm.mkProgress None "" "npm warn" false in
  exists s logged,
    progress.steps sample.ins (progress.init [[p1]; [p3]] sample.w0) s
    /\ progress.main s = progress.Returned
    /\ progress.logLines (installer.trace (progress.world s))
       = progress.logLines (installer.trace sample.w0) ++ logged
    /\ ["  npm warn"] `sublist_of` logged.
Proof.
  intros p1 p3.
  pose proof (sample_run_returns p1 p3 sample.w0) as Hs.
  destruct (runGroup_keeps_stream_order sample.ins [[p1]; [p3]] sample.w0 _
              Hs eq_refl) as (logged & Hlog & Hsub).
  eexists _, logged. split; [exact Hs|]. split; [reflexivity|].
  split; [exact Hlog|]. exact (Hsub 1 [p3] eq_refl).
Defined.

Lemma run_logs_output_lines_witness :
  let stdout := ["added 2 packages"] in
  let stderr := [""; "npm warn"] in
  let notBlank := fun line => standin.TrimSpace line <> "" in
  standin.TrimSpace "" = ""
  /\ exists s lines,
       progress.steps sample.ins
         (progress.init (pm.run_senders standin.TrimSpace stdout stderr)
            sample.w0) s
       /\ progress.main s = progress.Returned
       /\ progress.logLines (installer.trace (progress.world s))
          = progress.logLines (installer.trace sample.w0)
            ++ ((fun l => "  " +:+ l) <$> lines)
       /\ lines ≡ₚ filter notBlank stdout ++ filter notBlank stderr.
Proof.
  intros stdout stderr notBlank.
  assert (standin.TrimSpace "" = "") as Hts by reflexivity.
  split; [exact Hts|].
  pose proof (sample_run_returns
                (pm.mkProgress None "" "added 2 packages" false)
                (pm.mkProgress None "" "npm warn" false) sample.w0) as Hs.
  destruct (run_logs_output_lines sample.ins sample.w0 standin.TrimSpace
              stdout stderr _ Hts Hs eq_refl)
    as (lines & Hlog & _ & Hperm & _).
  eexists _, lines. split; [exact Hs|]. split; [reflexivity|].
  split; [exact Hlog|exact Hperm].
Defined.

Lemma resolvePlatformDir_after_Install_witness :
  config.joinsNested refimpl.Join "/opt/kb"
  /\ config.roundTrips refimpl.MarshalIndent refimpl.Unmarshal sample.cfg1
  /\ sample.Install sample.ins sample.sel sample.m_AB sample.w0
     = (sample.w1,
        Ok (installer.mkResult "/opt/kb" "/home/u/app"
              "/opt/kb/.kb/kb.config.json" 0))
  /\ cmd.resolvePlatformDir refimpl.Join refimpl.Unmarshal "" "" "/opt/kb"
       (installer.disk sample.w1) = Ok "/opt/kb"
  /\ cmd.resolvePlatformDir refimpl.Join refimpl.Unmarshal "/srv/kb" ""
       "/tmp" (installer.disk sample.w1) = Ok "/srv/kb".
Proof.
  pose proof (refimpl_Join_nested "/opt/kb") as HJ.
  pose proof (refimpl_roundTrips sample.cfg1) as Hrt.
  pose proof sample_Install_w1 as HI.
  split; [exact HJ|]. split; [exact Hrt|]. split; [exact HI|].
  destruct (resolvePlatformDir_after_Install refimpl.Join refimpl.Abs
              refimpl.MarshalIndent refimpl.Unmarshal sample.ins sample.sel
              sample.m_AB sample.w0 sample.w1 _ HJ Hrt HI) as (H1 & H2 & _).
  split; [exact H1|].
  apply (H2 "/srv/kb" "" "/tmp"). by vm_compute.
Defined.

Lemma ensurePackageJSON_keeps_existing_witness :
  let pkgPath := refimpl.Join ["/opt/kb"; "package.json"] in
  let after := npm.ensurePackageJSON refimpl.Join standin.projectDisk "/opt/kb" in
  os.Stat standin.projectDisk pkgPath = Ok (os.File "{}")
  /\ "/opt/kb" ∈ os.parents pkgPath
  /\ os.Stat after.1 pkgPath = Ok (os.File "{}")
  /\ after.1 = standin.projectDisk
  /\ after.2 = None.
Proof.
  intros pkgPath after.
  assert (os.Stat standin.projectDisk pkgPath = Ok (os.File "{}")) as Hn
    by (by vm_compute).
  assert ("/opt/kb" ∈ os.parents pkgPath) as Hin by compute_done.
  split; [exact Hn|]. split; [exact Hin|].
  destruct (ensurePackageJSON_keeps_existing refimpl.Join standin.projectDisk
              after.1 "/opt/kb" after.2 _ (surjective_pairing after) Hn)
    as (H1 & _ & _ & H3).
  split; [exact H1|]. exact (H3 Hin).
Defined.

Lemma ensurePackageJSON_idempotent_witness :
  let fs0 := os.mkFS ∅ 1000 in
  let fs1 := (npm.ensurePackageJSON refimpl.Join fs0 "/opt/kb").1 in
  npm.ensurePackageJSON refimpl.Join fs0 "/opt/kb" = (fs1, None)
  /\ npm.ensurePackageJSON refimpl.Join fs1 "/opt/kb" = (fs1, None).
Proof.
  intros fs0 fs1.
  assert (npm.ensurePackageJSON refimpl.Join fs0 "/opt/kb" = (fs1, None))
    as HE by (apply pair_of_snd; vm_compute; reflexivity).
  split; [exact HE|].
  exact (ensurePackageJSON_idempotent refimpl.Join fs0 fs1 "/opt/kb" HE).
Defined.

Lemma ensurePackageJSON_creates_witness :
  let fs0 := os.mkFS ∅ 1000 in
  let pkgPath := refimpl.Join ["/opt/kb"; "package.json"] in
  let after := npm.ensurePackageJSON refimpl.Join fs0 "/opt/kb" in
  os.files fs0 !! pkgPath = None
  /\ os.parents pkgPath = os.parents "/opt/kb" ++ ["/opt/kb"]
  /\ after.2 = None
  /\ os.ReadFile after.1 "/opt/kb/package.json" = Ok npm.content
  /\ os.Stat after.1 "/opt/kb" = Ok os.Dir
  /\ os.files after.1 !! "/opt" = Some os.Dir.
Proof.
  intros fs0 pkgPath after.
  assert (os.files fs0 !! pkgPath = None) as Hn by reflexivity.
  assert (os.parents pkgPath = os.parents "/opt/kb" ++ ["/opt/kb"]) as Hpar
    by reflexivity.
  assert (after = (after.1, None)) as HE
    by (apply pair_of_snd; vm_compute; reflexivity).
  split; [exact Hn|]. split; [exact Hpar|]. split; [by rewrite HE|].
  destruct (ensurePackageJSON_creates refimpl.Join fs0 after.1 "/opt/kb" None
              HE Hn Hpar) as [[H1 H2] _].
  split; [exact H1|]. split; [exact H2|]. by vm_compute.
Defined.

Lemma Load_sources_witness :
  let remote := loader.mkLoadOptions "https://kb.example/manifest.json" "" 0 in
  let local := loader.mkLoadOptions "https://kb.example/gone.json"
                 "/etc/kb/override.json" 0 in
  loader.loadRemote standin.Unmarshal standin.Get
    "https://kb.example/manifest.json" 0 = Ok sample.m_AC
  /\ standin.Load standin.projectDisk remote = Ok sample.m_AC
  /\ loader.loadRemote standin.Unmarshal standin.Get
       "https://kb.example/gone.json" 0
     = Err (errorString "fetch https://kb.example/gone.json: status 404")
  /\ os.ReadFile standin.projectDisk "/etc/kb/override.json" = Ok "oops"
  /\ standin.Load standin.projectDisk local
     = loader.loadBytes standin.Unmarshal "oops".
Proof.
  intros remote local.
  assert (loader.loadRemote standin.Unmarshal standin.Get
            (loader.RemoteURL remote) (loader.Timeout remote)
          = Ok sample.m_AC) as Hr by (by vm_compute).
  assert (loader.loadRemote standin.Unmarshal standin.Get
            (loader.RemoteURL local) (loader.Timeout local)
          = Err (errorString "fetch https://kb.example/gone.json: status 404"))
    as Hg by (by vm_compute).
  assert (os.ReadFile standin.projectDisk (loader.LocalOverride local)
          = Ok "oops") as Hread by reflexivity.
  split; [exact Hr|].
  destruct (Load_sources standin.Unmarshal standin.Get standin.embedded
              standin.projectDisk remote) as (H1 & _ & _).
  split.
  { apply (H1 sample.m_AC); [by vm_compute|exact Hr]. }
  split; [exact Hg|]. split; [exact Hread|].
  destruct (Load_sources standin.Unmarshal standin.Get standin.embedded
              standin.projectDisk local) as (_ & H2 & H3).
  unfold standin.Load. rewrite (H2 _ Hg).
  apply (H3 "oops"); [by vm_compute|exact Hread].
Defined.

Lemma Load_errors_witness :
  let local := loader.mkLoadOptions "https://kb.example/gone.json"
                 "/etc/kb/override.json" 0 in
  let offline := loader.mkLoadOptions "https://nowhere.example/m.json"
                   "/etc/kb/none.json" 0 in
  standin.Load standin.projectDisk local
  = Err (wrapError "parse manifest: "
           (errorString "unexpected end of JSON input"))
  /\ standin.Unmarshal standin.embedded = Ok sample.m_AB
  /\ os.walk standin.projectDisk (os.parents "/etc/kb/none.json")
       "/etc/kb/none.json" = inl ENOENT
  /\ exists m, standin.Load standin.projectDisk offline = Ok m.
Proof.
  intros local offline.
  assert (standin.Load standin.projectDisk local
          = Err (wrapError "parse manifest: "
                   (errorString "unexpected end of JSON input"))) as HL
    by (by vm_compute).
  assert (standin.Unmarshal standin.embedded = Ok sample.m_AB) as He
    by (by vm_compute).
  assert (os.walk standin.projectDisk (os.parents "/etc/kb/none.json")
            "/etc/kb/none.json" = inl ENOENT) as Hw by (by vm_compute).
  split; [exact HL|]. split; [exact He|]. split; [exact Hw|].
  destruct (Load_errors standin.Unmarshal standin.Get standin.embedded
              standin.projectDisk local) as (H1 & _).
  pose proof (H1 _ HL) as _.
  destruct (Load_errors standin.Unmarshal standin.Get standin.embedded
              standin.projectDisk offline) as (_ & H2).
  apply (H2 sample.m_AB He). right. exact Hw.
Defined.

Lemma LatestLogPath_latest_witness :
  let entries :=
    [logger.mkDirEntry "archive" true;
     logger.mkDirEntry "install-20240101-120000.log" false;
     logger.mkDirEntry "install-20240302-090000.log" false;
     logger.mkDirEntry "old" true] in
  standin.ReadDir (refimpl.Join ["/opt/kb"; ".kb"; "logs"]) = Ok entries
  /\ logger.LatestLogPath refimpl.Join standin.ReadDir "/opt/kb"
     = "/opt/kb/.kb/logs/install-20240302-090000.log"
  /\ String.leb "install-20240101-120000.log" "install-20240302-090000.log"
     = true.
Proof.
  intros entries.
  assert (standin.ReadDir (refimpl.Join ["/opt/kb"; ".kb"; "logs"])
          = Ok entries) as Hr by reflexivity.
  split; [exact Hr|].
  destruct (LatestLogPath_latest refimpl.Join standin.ReadDir "/opt/kb"
              entries) as [_ H].
  specialize (H Hr). cbn in H. destruct H as [Hpath Hmax].
  split; [exact Hpath|].
  apply (Hmax ltac:(intros i j a b Hij Hi Hj;
                   destruct i as [|[|[|[|i]]]]; destruct j as [|[|[|[|j]]]];
                   simplify_eq/=; try lia; reflexivity)
              (logger.mkDirEntry "install-20240101-120000.log" false)).
  - by apply (list_elem_of_lookup_2 _ 1).
  - reflexivity.
Defined.

Lemma defaultSelection_installs_defaults_witness :
  NoDup (manifest.ID <$> manifest.Services standin.m_three)
  /\ NoDup (manifest.ID <$> manifest.Plugins standin.m_three)
  /\ installer.Services (standin.defaultSelection standin.m_three standin.opts)
     = ["rest"]
  /\ installer.installPkgs
       (standin.defaultSelection standin.m_three standin.opts) standin.m_three
     = ["A"; "B"; "C"].
Proof.
  assert (NoDup (manifest.ID <$> manifest.Services standin.m_three)) as H1
    by compute_done.
  assert (NoDup (manifest.ID <$> manifest.Plugins standin.m_three)) as H2
    by compute_done.
  split; [exact H1|]. split; [exact H2|].
  destruct (defaultSelection_installs_defaults "/home/u" "/home/u/app"
              refimpl.Join standin.m_three standin.opts) as (Hs & _ & Hi).
  split; [exact Hs|]. exact (Hi H1 H2).
Defined.

Lemma wizard_accept_defaults_witness :
  standin.value (wizard.platformInput (standin.newModel standin.m_three standin.opts))
  = "~/kb"
  /\ standin.TrimSpace "~/kb" <> ""
  /\ standin.TrimSpace "/home/u/app" <> ""
  /\ exists final,
       standin.play (standin.newModel standin.m_three standin.opts)
         [wizard.KeyMsg "enter"; wizard.KeyMsg "enter"; wizard.KeyMsg "enter"]
       = wizard.Exited final
       /\ standin.Run standin.m_three standin.opts (Ok final)
          = Ok (installer.mkSelection "/home/u/kb" "/home/u/app"
                  ["rest"] ["mind"]).
Proof.
  assert (standin.value
            (wizard.platformInput
               (standin.newModel standin.m_three standin.opts)) = "~/kb")
    as Hpi by reflexivity.
  assert (standin.TrimSpace "~/kb" <> "") as Hp by (by vm_compute).
  assert (standin.TrimSpace "/home/u/app" <> "") as Hc by (by vm_compute).
  split; [exact Hpi|]. split; [exact Hp|]. split; [exact Hc|].
  destruct (wizard_accept_defaults standin.Input standin.New
              standin.set_Placeholder standin.set_Width standin.SetValue
              standin.value standin.Focus standin.Blur standin.Input_Update
              "/home/u" "/home/u/app" refimpl.Join standin.TrimSpace
              standin.m_three standin.opts Hpi eq_refl Hp Hc eq_refl)
    as (final & Hplay & _ & Hrun).
  exists final. split; [exact Hplay|]. exact Hrun.
Defined.

Lemma wizard_cursor_in_range_witness :
  0 < length (manifest.Services standin.m_three)
      + length (manifest.Plugins standin.m_three)
  /\ match standin.play (standin.newModel standin.m_three standin.opts)
             [wizard.KeyMsg "enter"; wizard.KeyMsg "down"; wizard.KeyMsg "down";
              wizard.KeyMsg "down"; wizard.KeyMsg " "] with
     | wizard.Panicked => False
     | wizard.Running wm | wizard.Exited wm =>
         (0 <= wizard.cursor wm)%Z /\ (wizard.cursor wm < wizard.total wm)%Z
     end.
Proof.
  assert (0 < length (manifest.Services standin.m_three)
              + length (manifest.Plugins standin.m_three)) as Hpos
    by (cbn; lia).
  split; [exact Hpos|].
  pose proof (wizard_cursor_in_range standin.Input standin.New
                standin.set_Placeholder standin.set_Width standin.SetValue
                standin.value standin.Focus standin.Blur standin.Input_Update
                "/home/u" "/home/u/app" refimpl.Join standin.TrimSpace
                standin.m_three standin.opts
                [wizard.KeyMsg "enter"; wizard.KeyMsg "down";
                 wizard.KeyMsg "down"; wizard.KeyMsg "down"; wizard.KeyMsg " "]
                Hpos) as H.
  unfold standin.play, standin.newModel.
  destruct (wizard.play _ _ _ _ _ _ _) as [wm|wm|]; [| |exact H];
    destruct H as (H1 & H2 & _); split; assumption.
Defined.

Lemma wizard_no_components_panic_witness :
  manifest.Services standin.m_core = []
  /\ manifest.Plugins standin.m_core = []
  /\ standin.play (standin.newModel standin.m_core standin.opts)
       [wizard.KeyMsg "enter"; wizard.KeyMsg " "]
     = wizard.Panicked.
Proof.
  split; [reflexivity|]. split; [reflexivity|].
  apply (wizard_no_components_panic standin.Input standin.New
           standin.set_Placeholder standin.set_Width standin.SetValue
           standin.value standin.Focus standin.Blur standin.Input_Update
           "/home/u" "/home/u/app" refimpl.Join standin.TrimSpace
           standin.m_core standin.opts eq_refl eq_refl).
  - by vm_compute.
  - by vm_compute.
Defined.

Lemma wizard_confirmed_dirs_witness :
  let msgs := [wizard.KeyMsg "enter"; wizard.KeyMsg " "; wizard.KeyMsg "enter";
               wizard.KeyMsg "y"] in
  let start := standin.newModel standin.m_three standin.opts in
  let final :=
    match standin.play start msgs with
    | wizard.Exited final => final
    | _ => start
    end in
  standin.play start msgs = wizard.Exited final
  /\ (wizard.QuitMsg ∉ msgs)
  /\ wizard.cancelled final = false
  /\ wizard.confirmed final = true
  /\ standin.TrimSpace (standin.value (wizard.platformInput final)) <> ""
  /\ standin.Run standin.m_three standin.opts (Ok final)
     = Ok (wizard.toSelection standin.value "/home/u" refimpl.Join final)
  /\ standin.play start [wizard.QuitMsg] = wizard.Exited start
  /\ standin.Run standin.m_three standin.opts (Ok start)
     = Ok (wizard.toSelection standin.value "/home/u" refimpl.Join start).
Proof.
  intros msgs start final.
  assert (standin.play start msgs = wizard.Exited final) as Hplay
    by (vm_compute; reflexivity).
  assert (wizard.QuitMsg ∉ msgs) as Hnq by compute_done.
  assert (wizard.cancelled final = false) as Hnot
    by (vm_compute; reflexivity).
  split; [exact Hplay|]. split; [exact Hnq|]. split; [exact Hnot|].
  destruct (wizard_confirmed_dirs standin.Input standin.New
              standin.set_Placeholder standin.set_Width standin.SetValue
              standin.value standin.Focus standin.Blur standin.Input_Update
              "/home/u" "/home/u/app" refimpl.Join standin.TrimSpace
              standin.m_three standin.opts msgs final Hplay eq_refl)
    as [[(Hc & _)|(_ & Hrun & Hown)] (Hquit & _ & Hrun0)]; [congruence|].
  destruct (Hown Hnq) as (Hco & _ & Hp & _).
  split; [exact Hco|]. split; [exact Hp|]. split; [exact Hrun|].
  split; [exact Hquit|exact Hrun0].
Defined.

Lemma toggleCursor_involutive_witness :
  let wm := wizard.set_stage (standin.newModel standin.m_three standin.opts)
              wizard.stageOptions in
  exists wm1,
    wizard.toggleCursor wm = Some wm1
    /\ wizard.checked <$> wizard.services wm1 = [false; false]
    /\ wizard.toggleCursor wm1 = Some wm.
Proof.
  intros wm. eexists.
  assert (wizard.toggleCursor wm
          = Some (wizard.set_services wm
                    [wizard.mkCheckItem "rest" "B" "REST API" false;
                     wizard.mkCheckItem "studio" "S" "Studio" false])) as Ht
    by reflexivity.
  split; [exact Ht|]. split; [reflexivity|].
  exact (toggleCursor_involutive standin.Input _ _ Ht).
Defined.

Lemma spinner_detail_bounded_witness :
  let long := "npm warn deprecated inflight@1.0.6: This module is not supported, and leaks memory." in
  String.length (cmd.detail cmd.newSpinner) <= 72
  /\ 72 < String.length long
  /\ String.length
       (cmd.detail
          (cmd.callbacks [installer.CallOnLine long] cmd.newSpinner)) <= 72
  /\ cmd.detail (cmd.OnLine long cmd.newSpinner)
     = String.substring 0 69 long +:+ "...".
Proof.
  intros long.
  assert (String.length (cmd.detail cmd.newSpinner) <= 72) as H0
    by (cbn; lia).
  assert (72 < String.length long) as Hl by (vm_compute; lia).
  split; [exact H0|]. split; [exact Hl|].
  destruct (spinner_detail_bounded [installer.CallOnLine long] cmd.newSpinner
              H0) as (H1 & _ & H3 & _).
  split; [exact H1|]. exact (proj1 (H3 long Hl)).
Defined.

Lemma spinner_label_after_Install_witness :
  installer.OnStep sample.ins = true
  /\ exists evs,
       installer.trace sample.w1 = installer.trace sample.w0 ++ evs
       /\ cmd.label (cmd.callbacks evs cmd.newSpinner) = "[2/2] Writing config".
Proof.
  split; [reflexivity|].
  destruct (spinner_label_after_Install refimpl.Join refimpl.Abs
              refimpl.MarshalIndent sample.ins sample.sel sample.m_AB
              sample.w0 cmd.newSpinner eq_refl) as (evs & Htr & Hl).
  exists evs. split; [exact Htr|exact Hl].
Defined.

Lemma Update_after_Install_witness :
  config.joinsNested refimpl.Join "/opt/kb"
  /\ config.roundTrips refimpl.MarshalIndent refimpl.Unmarshal sample.cfg1
  /\ sample.Install sample.ins sample.sel sample.m_AB sample.w0
     = (sample.w1,
        Ok (installer.mkResult "/opt/kb" "/home/u/app"
              "/opt/kb/.kb/kb.config.json" 0))
  /\ installer.pmCalls
       (installer.trace
          (sample.Update sample.ins "/opt/kb" sample.m_AB sample.w1).1)
     = installer.pmCalls (installer.trace sample.w1)
       ++ [installer.PMUpdate "/opt/kb" ["A"; "B"]].
Proof.
  pose proof (refimpl_Join_nested "/opt/kb") as HJ.
  pose proof (refimpl_roundTrips sample.cfg1) as Hrt.
  pose proof sample_Install_w1 as HI.
  split; [exact HJ|]. split; [exact Hrt|]. split; [exact HI|].
  exact (Update_after_Install refimpl.Join refimpl.Abs refimpl.MarshalIndent
           refimpl.Unmarshal refimpl.range_keys refimpl_range_keys_perm
           sample.ins sample.sel sample.m_AB sample.w0 sample.w1 _
           HJ Hrt HI).
Defined.

Lemma yes_installs_defaults_witness :
  let yes := wizard.mkWizardOptions "" "~/kb" true in
  NoDup (manifest.ID <$> manifest.Services standin.m_three)
  /\ NoDup (manifest.ID <$> manifest.Plugins standin.m_three)
  /\ exists sel,
       standin.Run standin.m_three yes (Err (errorString "not run")) = Ok sel
       /\ installer.PlatformDir sel = "/home/u/kb"
       /\ installer.pmCalls
            (installer.trace
               (sample.Install sample.ins sel standin.m_three sample.w0).1)
          = [installer.PMInstall "/home/u/kb" ["A"; "B"; "C"]].
Proof.
  intros yes.
  assert (NoDup (manifest.ID <$> manifest.Services standin.m_three)) as H1
    by compute_done.
  assert (NoDup (manifest.ID <$> manifest.Plugins standin.m_three)) as H2
    by compute_done.
  split; [exact H1|]. split; [exact H2|].
  destruct (yes_installs_defaults standin.Input standin.value "/home/u"
              "/home/u/app" refimpl.Join refimpl.Abs refimpl.MarshalIndent
              standin.m_three yes (Err (errorString "not run")) sample.ins
              sample.w0 eq_refl H1 H2) as (sel & Hrun & Hdir & Hcalls).
  exists sel. split; [exact Hrun|].
  assert (installer.PlatformDir sel = "/home/u/kb") as Hd.
  { rewrite Hdir. reflexivity. }
  split; [exact Hd|].
  unfold sample.Install. rewrite Hcalls, Hd. reflexivity.
Defined.
